(** * Smart Time System: a shallow embedding of [smart_tm.cpp] / [smart_tm.h]

    The development follows the C++ sources function by function.

    - [long long] fields are integers [Z]; signed overflow is undefined in
      C++ and is not modelled (signed operations are the exact ones).
    - [size_t] is a 64-bit unsigned integer: every unsigned operation is
      reduced with [wrap64], and a conversion from [size_t] to [long long]
      is [to_signed64].
    - [double] is IEEE-754 binary64, taken from the standard library's
      executable specification [SpecFloat] (precision 53, emax 1024).
    - the process-wide statics ([leapSecondTMs], [leapSecondDeltas],
      [epoch], [initialized]) and the [std::cerr] stream form a record
      [State] that is passed explicitly. *)

From Stdlib Require Import ZArith QArith List Bool String Ascii Lia SpecFloat.
Import ListNotations.

Local Open Scope Z_scope.

(** ** Machine integers *)

Definition two64 : Z := 2 ^ 64.
Definition two63 : Z := 2 ^ 63.

(** Reduction of an unsigned 64-bit result. *)
Definition wrap64 (x : Z) : Z := x mod two64.

(** [size_t] to [long long]: the two's complement reading. *)
Definition to_signed64 (x : Z) : Z :=
  let u := wrap64 x in if u <? two63 then u else u - two64.

(** ** Doubles *)

Definition double : Type := spec_float.

Definition dprec : Z := 53.
Definition demax : Z := 1024.

(** [static_cast<double>(n)] for an integer [n]. *)
Definition Z2D (n : Z) : double := binary_normalize dprec demax n 0 false.

Definition Dadd : double -> double -> double := SFadd dprec demax.
Definition Dsub : double -> double -> double := SFsub dprec demax.
Definition Ddiv : double -> double -> double := SFdiv dprec demax.
Definition Dltb : double -> double -> bool := SFltb.
Definition Dleb : double -> double -> bool := SFleb.
Definition Deqb : double -> double -> bool := SFeqb.

(** [floor] of <cmath>. The result of flooring a binary64 number is an
    integer of at most 53 bits, hence again a binary64 number. *)
Definition Dfloor (x : double) : double :=
  match x with
  | S754_finite s m e =>
      if 0 <=? e then x
      else
        let k := cond_Zopp s (Zpos m) / 2 ^ (- e) in
        if k =? 0 then S754_zero s else Z2D k
  | _ => x
  end.

(** [static_cast<long long>(x)]: truncation toward zero. The conversion is
    undefined for NaN, infinities and values outside the [long long] range;
    the model returns 0 for the first two and the unbounded integer for the
    last. *)
Definition D2LL (x : double) : Z :=
  match x with
  | S754_finite s m e =>
      if 0 <=? e then cond_Zopp s (Zpos m * 2 ^ e)
      else cond_Zopp s (Zpos m / 2 ^ (- e))
  | _ => 0
  end.

(** ** Constants of [smart_tm.h] *)

Definition DEFAULT_EPOCH_YEAR : Z := 1900.
Definition MONTHS_PER_YEAR : Z := 12.
Definition HOURS_PER_DAY : Z := 24.
Definition MINUTES_PER_HOUR : Z := 60.
Definition TYPICAL_SECONDS_PER_MINUTE : Z := 60.
Definition SECONDS_PER_HOUR : Z := 3600.
Definition SECONDS_PER_DAY : Z := 86400.
Definition SECONDS_PER_YEAR : Z := 31536000.
Definition TYPICAL_DAYS_PER_YEAR : Z := 365.
Definition START_MON : Z := 1.
Definition START_DAY : Z := 1.
Definition START_HR : Z := 0.
Definition START_MIN : Z := 0.
Definition START_SEC : Z := 0.
Definition START_FRAC_SEC : double := S754_zero false.
Definition END_YR : Z := 9999.
Definition END_MON : Z := 12.
Definition END_HR : Z := 23.
Definition END_MIN : Z := 59.
Definition END_FRAC_SEC : double := Z2D 1.

(** [enum Month]: only [Jan] and [Feb] are used by the code. *)
Definition Jan : Z := 0.
Definition Feb : Z := 1.

(** ** The timestamp *)

Record smart_tm : Type := mk_tm {
  yr : Z;
  mon : Z;
  day : Z;
  hr : Z;
  min : Z;
  sec : Z;
  fracSec : double
}.

Definition set_yr (t : smart_tm) (v : Z) : smart_tm :=
  mk_tm v (mon t) (day t) (hr t) (min t) (sec t) (fracSec t).
Definition set_mon (t : smart_tm) (v : Z) : smart_tm :=
  mk_tm (yr t) v (day t) (hr t) (min t) (sec t) (fracSec t).
Definition set_day (t : smart_tm) (v : Z) : smart_tm :=
  mk_tm (yr t) (mon t) v (hr t) (min t) (sec t) (fracSec t).
Definition set_hr (t : smart_tm) (v : Z) : smart_tm :=
  mk_tm (yr t) (mon t) (day t) v (min t) (sec t) (fracSec t).
Definition set_min (t : smart_tm) (v : Z) : smart_tm :=
  mk_tm (yr t) (mon t) (day t) (hr t) v (sec t) (fracSec t).
Definition set_sec (t : smart_tm) (v : Z) : smart_tm :=
  mk_tm (yr t) (mon t) (day t) (hr t) (min t) v (fracSec t).
Definition set_fracSec (t : smart_tm) (v : double) : smart_tm :=
  mk_tm (yr t) (mon t) (day t) (hr t) (min t) (sec t) v.

(** ** Process-wide state *)

Record State : Type := mk_State {
  leapSecondTMs : list smart_tm;
  leapSecondDeltas : list Z;
  epoch : smart_tm;
  initialized : bool;
  cerr : list string
}.

(** The statics as they are before [main] runs. *)
Definition initial_State : State :=
  mk_State [] []
    (mk_tm DEFAULT_EPOCH_YEAR START_MON START_DAY START_HR START_MIN START_SEC
       START_FRAC_SEC)
    false [].

(** [const short smart_tm::days[MONTHS_PER_YEAR]]. *)
Definition days : list Z := [31; 28; 31; 30; 31; 30; 31; 31; 30; 31; 30; 31].

(** [days[i]]. Reading outside the table is undefined in the source; the
    model reads 0 there. *)
Definition days_at (i : Z) : Z :=
  if i <? 0 then 0 else nth (Z.to_nat i) days 0.

(** ** Comparison operators of [smart_tm.h] *)

Definition tm_lt (lhs rhs : smart_tm) : bool :=
  if yr lhs =? yr rhs then
    if mon lhs =? mon rhs then
      if day lhs =? day rhs then
        if hr lhs =? hr rhs then
          if min lhs =? min rhs then
            if sec lhs =? sec rhs then Dltb (fracSec lhs) (fracSec rhs)
            else sec lhs <? sec rhs
          else min lhs <? min rhs
        else hr lhs <? hr rhs
      else day lhs <? day rhs
    else mon lhs <? mon rhs
  else yr lhs <? yr rhs.

Definition tm_gt (lhs rhs : smart_tm) : bool := tm_lt rhs lhs.
Definition tm_le (lhs rhs : smart_tm) : bool := negb (tm_gt lhs rhs).
Definition tm_ge (lhs rhs : smart_tm) : bool := negb (tm_lt lhs rhs).

Definition equalsWithFrac (t other : smart_tm) : bool :=
  (yr t =? yr other) && (mon t =? mon other) && (day t =? day other)
  && (hr t =? hr other) && (min t =? min other) && (sec t =? sec other)
  && Deqb (fracSec t) (fracSec other).

Definition equalsNoFrac (t other : smart_tm) : bool :=
  (yr t =? yr other) && (mon t =? mon other) && (day t =? day other)
  && (hr t =? hr other) && (min t =? min other) && (sec t =? sec other).

(** ** Leap years and leap days *)

(** The free function [isLeapYear(size_t)]: unsigned remainders. *)
Definition isLeapYear_u (y : Z) : bool :=
  (y mod 4 =? 0) && ((y mod 400 =? 0) || negb (y mod 100 =? 0)).

(** The member [smart_tm::isLeapYear]: remainders of a [long long], which
    truncate toward zero. *)
Definition isLeapYear (t : smart_tm) : bool :=
  (Z.rem (yr t) 4 =? 0)
  && ((Z.rem (yr t) 400 =? 0) || negb (Z.rem (yr t) 100 =? 0)).

(** [calcYr / 4 + calcYr / 400 - calcYr / 100] on [long long]. *)
Definition leapCount (calcYr : Z) : Z :=
  Z.quot calcYr 4 + Z.quot calcYr 400 - Z.quot calcYr 100.

(** [leapDaysWalkedThroughFrom(const size_t, const size_t)]. The
    conditional expression has type [size_t] and is converted to the
    [long long] [calcYr]. *)
Definition leapDaysWalkedThroughFrom_yr (startYr endYr : Z) : Z :=
  let calcYr :=
    to_signed64 (if isLeapYear_u startYr then wrap64 (startYr - 1) else startYr) in
  let startCount := leapCount calcYr in
  let calcYr :=
    to_signed64 (if isLeapYear_u endYr then wrap64 (endYr - 1) else endYr) in
  leapCount calcYr - startCount.

(** The year used by the timestamp overload for one end point. *)
Definition calcYr_of (t : smart_tm) : Z :=
  if isLeapYear t
     && (((mon t - 1 =? Feb) && (day t <=? 29)) || (mon t - 1 =? Jan))
  then yr t - 1 else yr t.

(** [leapDaysWalkedThroughFrom(const smart_tm&, const smart_tm&)]. *)
Definition leapDaysWalkedThroughFrom (start end_ : smart_tm) : Z :=
  let startCount := leapCount (calcYr_of start) in
  leapCount (calcYr_of end_) - startCount.

(** [numSecondsBetweenEpochs]. *)
Definition numSecondsBetweenEpochs (startYr endYr : Z) : Z :=
  wrap64 (wrap64 (wrap64 (endYr - startYr) * SECONDS_PER_YEAR)
          + wrap64 (leapDaysWalkedThroughFrom_yr startYr endYr * SECONDS_PER_DAY)).

(** [leapSecondsWalkedThroughFrom(const size_t, const size_t)], over the
    delta table. *)
Definition leapSecondsWalkedThroughFrom (deltas : list Z) (start end_ : Z) : Z :=
  if start <? end_ then
    fold_left
      (fun ret leapSecond =>
         if (leapSecond <=? end_) && (start <=? leapSecond) then ret + 1 else ret)
      deltas 0
  else
    fold_left
      (fun ret leapSecond =>
         if (leapSecond <=? start) && (end_ <=? leapSecond) then ret - 1 else ret)
      deltas 0.

(** ** Loops

    A [while] loop run for at most [fuel] iterations. Every use below gives
    a number of iterations computed from the field the loop brings into
    range; the lemma [while_loop_inv] shows that the loop condition is false
    when the loop stops if a measure that the body decreases starts below
    the fuel, and [stepMonNoLeapCorrection_spec], [stepMon_spec] and
    [fixSec_loops_spec] apply it to the loops below. *)
Fixpoint while_loop (fuel : nat) (cond : smart_tm -> bool)
    (body : smart_tm -> smart_tm) (t : smart_tm) : smart_tm :=
  match fuel with
  | O => t
  | S fuel' => if cond t then while_loop fuel' cond body (body t) else t
  end.

(** The [for] loop of [toEpoch]: [n] iterations starting at index [i]. *)
Fixpoint toEpoch_months (n : nat) (i : Z) (sum : Z) : Z :=
  match n with
  | O => sum
  | S n' => toEpoch_months n' (i + 1) (wrap64 (sum + days_at i * SECONDS_PER_DAY))
  end.

(** ** Member functions that read the statics *)

Section Members.

Variable st : State.

Definition isLeapMinute (t : smart_tm) : bool :=
  existsb
    (fun leapSecond =>
       (yr t =? yr leapSecond) && (mon t =? mon leapSecond)
       && (day t =? day leapSecond) && (hr t =? hr leapSecond)
       && (min t =? min leapSecond))
    (leapSecondTMs st).

Definition numDaysOfMonth (t : smart_tm) : Z :=
  if (mon t - 1 =? Feb) && isLeapYear t then days_at Feb + 1
  else days_at (mon t - 1).

Definition numSecondsOfMinute (t : smart_tm) : Z :=
  if isLeapMinute t then 61 else 60.

Definition yrInLimits (t : smart_tm) : bool :=
  (yr (epoch st) <=? yr t) && (yr t <=? END_YR).
Definition monInLimits (t : smart_tm) : bool :=
  (START_MON <=? mon t) && (mon t <=? END_MON).
Definition dayInLimits (t : smart_tm) : bool :=
  (START_DAY <=? day t) && (day t <=? START_DAY + numDaysOfMonth t - 1).
Definition hrInLimits (t : smart_tm) : bool :=
  (START_HR <=? hr t) && (hr t <=? END_HR).
Definition minInLimits (t : smart_tm) : bool :=
  (START_MIN <=? min t) && (min t <=? END_MIN).
(** The upper bound is computed in [double] because of the literal [1.0]. *)
Definition secInLimits (t : smart_tm) : bool :=
  (START_SEC <=? sec t)
  && Dleb (Z2D (sec t)) (Dsub (Z2D (START_SEC + numSecondsOfMinute t)) (Z2D 1)).
Definition fracSecInLimits (t : smart_tm) : bool :=
  Dleb START_FRAC_SEC (fracSec t) && Dltb (fracSec t) END_FRAC_SEC.

Definition isValid (t : smart_tm) : bool :=
  yrInLimits t && monInLimits t && dayInLimits t && hrInLimits t
  && minInLimits t && secInLimits t && fracSecInLimits t.

Definition leapSecondsWalkedThroughSinceEpoch (t : smart_tm) : Z :=
  fold_left
    (fun ret leapSecond =>
       if tm_gt t leapSecond && negb (equalsNoFrac t leapSecond)
       then wrap64 (ret + 1) else ret)
    (leapSecondTMs st) 0.

Definition leapDaysWalkedThroughSinceEpoch (t : smart_tm) : Z :=
  wrap64 (leapDaysWalkedThroughFrom (epoch st) t).

Definition toEpoch (t : smart_tm) : Z :=
  let sum := toEpoch_months (Z.to_nat (mon t - 1)) 0 0 in
  let rest :=
    wrap64 (wrap64 (wrap64 (wrap64 (wrap64
      (wrap64 ((yr t - yr (epoch st)) * SECONDS_PER_YEAR)
       + (day t - START_DAY) * SECONDS_PER_DAY)
       + (hr t - START_HR) * SECONDS_PER_HOUR)
       + (min t - START_MIN) * TYPICAL_SECONDS_PER_MINUTE)
       + wrap64 (leapDaysWalkedThroughSinceEpoch t * SECONDS_PER_DAY))
       + leapSecondsWalkedThroughSinceEpoch t) in
  let sum := wrap64 (sum + rest) in
  wrap64 (wrap64 (sum + sec t) - START_SEC).

(** [toEpoch(double& fracSec)]: the pair of the result and the out
    parameter. *)
Definition toEpoch_frac (t : smart_tm) : Z * double :=
  (toEpoch t, fracSec t).

Definition fixMon (t : smart_tm) : smart_tm :=
  if monInLimits t then t
  else
    let count :=
      D2LL (Dfloor (Ddiv (Z2D (mon t - START_MON)) (Z2D MONTHS_PER_YEAR))) in
    let t := set_yr t (yr t + count) in
    set_mon t (mon t - count * MONTHS_PER_YEAR).

Definition stepMonNoLeapCorrection (t : smart_tm) : smart_tm :=
  let t :=
    while_loop (Z.to_nat (day t))
      (fun t => START_DAY + days_at (mon t - 1) - 1 <? day t)
      (fun t =>
         let t := set_day t (day t - days_at (mon t - 1)) in
         let t := set_mon t (mon t + 1) in
         fixMon t)
      t in
  while_loop (Z.to_nat (START_DAY - day t))
    (fun t => day t <? START_DAY)
    (fun t =>
       let t := set_mon t (mon t - 1) in
       let t := fixMon t in
       set_day t (day t + days_at (mon t - 1)))
    t.

Definition stepMon (t : smart_tm) : smart_tm :=
  let t :=
    while_loop (Z.to_nat (day t))
      (fun t => START_DAY + numDaysOfMonth t - 1 <? day t)
      (fun t =>
         let t := set_day t (day t - numDaysOfMonth t) in
         let t := set_mon t (mon t + 1) in
         fixMon t)
      t in
  while_loop (Z.to_nat (START_DAY - day t))
    (fun t => day t <? START_DAY)
    (fun t =>
       let t := set_mon t (mon t - 1) in
       let t := fixMon t in
       set_day t (day t + numDaysOfMonth t))
    t.

Definition fixDay (t : smart_tm) : smart_tm :=
  if dayInLimits t then t
  else
    let old :=
      mk_tm (yr t) (mon t) START_DAY START_HR START_MIN START_SEC START_FRAC_SEC in
    (* no floor here: the quotient is truncated by the cast *)
    let count :=
      D2LL (Ddiv (Z2D (day t - START_DAY)) (Z2D TYPICAL_DAYS_PER_YEAR)) in
    let t := set_yr t (yr t + count) in
    let t := set_day t (day t - count * TYPICAL_DAYS_PER_YEAR) in
    let t := stepMonNoLeapCorrection t in
    let t := set_day t (day t - leapDaysWalkedThroughFrom old t) in
    stepMon t.

Definition fixHr (t : smart_tm) : smart_tm :=
  if hrInLimits t then t
  else
    let count :=
      D2LL (Dfloor (Ddiv (Z2D (hr t - START_HR)) (Z2D HOURS_PER_DAY))) in
    let t := set_day t (day t + count) in
    let t := set_hr t (hr t - count * HOURS_PER_DAY) in
    fixDay t.

Definition fixMin (t : smart_tm) : smart_tm :=
  if minInLimits t then t
  else
    let count :=
      D2LL (Dfloor (Ddiv (Z2D (min t - START_MIN)) (Z2D MINUTES_PER_HOUR))) in
    let t := set_hr t (hr t + count) in
    let t := set_min t (min t - count * MINUTES_PER_HOUR) in
    fixHr t.

(** The two closing loops of [fixSec]. *)
Definition fixSec_loops (t : smart_tm) : smart_tm :=
  let t :=
    while_loop (Z.to_nat (sec t))
      (fun t => START_SEC + numSecondsOfMinute t - 1 <? sec t)
      (fun t =>
         let t := set_sec t (sec t - numSecondsOfMinute t) in
         let t := set_min t (min t + 1) in
         fixMin t)
      t in
  while_loop (Z.to_nat (START_SEC - sec t))
    (fun t => sec t <? START_SEC)
    (fun t =>
       let t := set_min t (min t - 1) in
       let t := fixMin t in
       set_sec t (sec t + numSecondsOfMinute t))
    t.

Definition fixSec (t : smart_tm) : smart_tm :=
  if secInLimits t then t
  else
    let addSec := sec t in
    let t := set_sec t 0 in
    let oldEpoch := toEpoch t in
    let count :=
      D2LL (Dfloor (Ddiv (Z2D (addSec - START_SEC))
                         (Z2D TYPICAL_SECONDS_PER_MINUTE))) in
    let t := set_min t (min t + count) in
    let addSec := addSec - count * TYPICAL_SECONDS_PER_MINUTE in
    let t := fixMin t in
    let t := set_sec t addSec in
    let newEpoch := toEpoch t in
    let t :=
      set_sec t
        (sec t - leapSecondsWalkedThroughFrom (leapSecondDeltas st) oldEpoch newEpoch) in
    let t := fixMin t in
    fixSec_loops t.

Definition fixFracSec (t : smart_tm) : smart_tm :=
  if fracSecInLimits t then t
  else
    let count := D2LL (Dfloor (Dsub (fracSec t) START_FRAC_SEC)) in
    let t := set_sec t (sec t + count) in
    let t := set_fracSec t (Dsub (fracSec t) (Z2D count)) in
    fixSec t.

Definition adjust (t : smart_tm) : smart_tm :=
  if isValid t then t
  else
    let t := fixMon t in
    let t := fixDay t in
    let t := fixHr t in
    let t := fixMin t in
    let t := fixSec t in
    fixFracSec t.

(** *** Constructors *)

(** [smart_tm()]. *)
Definition smart_tm_default : smart_tm := epoch st.

(** [smart_tm(const size_t sinceEpoch)]; the [checkInit] diagnostic is
    [checkInit] below. [sec += sinceEpoch] is computed in [size_t] and
    stored in a [long long]. *)
Definition smart_tm_sinceEpoch (sinceEpoch : Z) : smart_tm :=
  let t := epoch st in
  let t := set_sec t (to_signed64 (sec t + sinceEpoch)) in
  adjust t.

(** [smart_tm(const size_t sinceEpoch, const double fracSec)]. *)
Definition smart_tm_sinceEpoch_frac (sinceEpoch : Z) (f : double) : smart_tm :=
  let t := epoch st in
  let t := set_sec t (to_signed64 (sec t + sinceEpoch)) in
  let t := set_fracSec t (Dadd (fracSec t) f) in
  adjust t.

(** [operator-]. *)
Definition tm_minus (lhs rhs : smart_tm) : double :=
  let '(l, lFracSec) := toEpoch_frac lhs in
  let '(r, rFracSec) := toEpoch_frac rhs in
  let integralDiff := to_signed64 (l - r) in
  Dadd (Z2D integralDiff) (Dsub lFracSec rFracSec).

End Members.

(** ** Diagnostics and initialisation *)

(** [std::cerr << msg << std::endl]. *)
Definition emit (st : State) (msg : string) : State :=
  mk_State (leapSecondTMs st) (leapSecondDeltas st) (epoch st) (initialized st)
    (cerr st ++ [msg]).

(** The warning of [checkInit]; the character 10 stands where the source
    writes the first [std::endl]. *)
Definition checkInit_msg : string :=
  "WARN: smart_tm not initialized! This means no leap second handling"
  ++ String "010" "and default epoch of 1900.".

Definition checkInit (st : State) : State :=
  if initialized st then st else emit st checkInit_msg.

Definition is_digit (c : ascii) : bool :=
  let n := Z.of_N (N_of_ascii c) in (48 <=? n) && (n <=? 57).

(** [strLine.substr(0, strLine.find_first_not_of("0123456789"))]. *)
Fixpoint leading_digits (s : string) : string :=
  match s with
  | EmptyString => EmptyString
  | String c s' => if is_digit c then String c (leading_digits s') else EmptyString
  end.

Fixpoint digits_value (s : string) (acc : Z) : Z :=
  match s with
  | EmptyString => acc
  | String c s' => digits_value s' (10 * acc + (Z.of_N (N_of_ascii c) - 48))
  end.

(** [strtoull] on a string of decimal digits: the value, or [ULLONG_MAX]
    when it does not fit. *)
Definition strtoull (s : string) : Z :=
  let v := digits_value s 0 in
  if v <? two64 then v else two64 - 1.

(** [getNextLine] of [FileIO.cpp] at line granularity: the lines a file
    yields are its non-empty lines that do not start with [#]. *)
Definition skipped_line (line : string) : bool :=
  match line with
  | EmptyString => true
  | String c _ => Ascii.eqb c "#"%char
  end.

Definition getLines (file : list string) : list string :=
  filter (fun line => negb (skipped_line line)) file.

(** One iteration of the [while (getNextLine(...))] loop of [init]; the
    second component is [leapSecondsSoFar]. *)
Definition init_step (defaultEpochToNewEpoch : Z) (acc : State * Z)
    (strLine : string) : State * Z :=
  let '(st, leapSecondsSoFar) := acc in
  let defaultEpochToLeapSecond := strtoull (leading_digits strLine) in
  if defaultEpochToNewEpoch <? defaultEpochToLeapSecond then
    let st :=
      mk_State (leapSecondTMs st)
        (leapSecondDeltas st
         ++ [wrap64 (wrap64 (defaultEpochToLeapSecond - defaultEpochToNewEpoch)
                     + leapSecondsSoFar)])
        (epoch st) (initialized st) (cerr st) in
    let tm :=
      smart_tm_sinceEpoch st (wrap64 (defaultEpochToLeapSecond + leapSecondsSoFar)) in
    let tm := set_sec tm (sec tm + 1) in
    (mk_State (leapSecondTMs st ++ [tm]) (leapSecondDeltas st) (epoch st)
       (initialized st) (cerr st),
     wrap64 (leapSecondsSoFar + 1))
  else acc.

(** [smart_tm::init]. [fLeap] is the outcome of opening [leapFile]: [None]
    when the stream is in a failed state, otherwise the lines of the file. *)
Definition init (epochYr : Z) (leapFile : string) (fLeap : option (list string))
    (st : State) : State :=
  match fLeap with
  | None => emit st ("ERROR: Failed to open " ++ leapFile ++ ".")
  | Some file =>
      let st := mk_State [] [] (epoch st) (initialized st) (cerr st) in
      let defaultEpochToNewEpoch :=
        numSecondsBetweenEpochs DEFAULT_EPOCH_YEAR (wrap64 epochYr) in
      let st := mk_State (leapSecondTMs st) (leapSecondDeltas st) (epoch st) true
                  (cerr st) in
      let '(st, _) :=
        fold_left (init_step defaultEpochToNewEpoch) (getLines file) (st, 0) in
      mk_State (leapSecondTMs st) (leapSecondDeltas st)
        (set_yr (epoch st) epochYr) (initialized st) (cerr st)
  end.

(** ** The official leap-second list *)

Definition leap_seconds_list : list string :=
  [ "# leap-seconds.list: NTP seconds, TAI-UTC, date the offset starts";
    "#";
    "2272060800	10	# 1 Jan 1972";
    "2287785600	11	# 1 Jul 1972";
    "2303683200	12	# 1 Jan 1973";
    "2335219200	13	# 1 Jan 1974";
    "2366755200	14	# 1 Jan 1975";
    "2398291200	15	# 1 Jan 1976";
    "2429913600	16	# 1 Jan 1977";
    "2461449600	17	# 1 Jan 1978";
    "2492985600	18	# 1 Jan 1979";
    "2524521600	19	# 1 Jan 1980";
    "2571782400	20	# 1 Jul 1981";
    "2603318400	21	# 1 Jul 1982";
    "2634854400	22	# 1 Jul 1983";
    "2698012800	23	# 1 Jul 1985";
    "2776982400	24	# 1 Jan 1988";
    "2840140800	25	# 1 Jan 1990";
    "2871676800	26	# 1 Jan 1991";
    "2918937600	27	# 1 Jul 1992";
    "2950473600	28	# 1 Jul 1993";
    "2982009600	29	# 1 Jul 1994";
    "3029443200	30	# 1 Jan 1996";
    "3076704000	31	# 1 Jul 1997";
    "3124137600	32	# 1 Jan 1999";
    "3345062400	33	# 1 Jan 2006";
    "3439756800	34	# 1 Jan 2009";
    "3550089600	35	# 1 Jul 2012";
    "3644697600	36	# 1 Jul 2015";
    "" ]%string.

(** * Definitions used by the statements *)

(** Days of the months before month [m], canonical (non-leap) lengths. *)
Definition daysBeforeMonth (m : Z) : Z :=
  fold_right Z.add 0 (firstn (Z.to_nat (m - 1)) days).

(** Lexicographic order on the six integer fields. *)
Fixpoint lex_lt (a b : list Z) : bool :=
  match a, b with
  | x :: a', y :: b' => (x <? y) || ((x =? y) && lex_lt a' b')
  | _, _ => false
  end.

Definition fields6 (t : smart_tm) : list Z :=
  [yr t; mon t; day t; hr t; min t; sec t].

(** [a] is an instant strictly before [b], fractions ignored. *)
Definition before_noFrac (a b : smart_tm) : bool :=
  lex_lt (fields6 a) (fields6 b).

(** Number of recorded leap instants strictly before [t]. *)
Definition leapInstantsBefore (st : State) (t : smart_tm) : Z :=
  Z.of_nat (List.length (filter (fun ls => before_noFrac ls t) (leapSecondTMs st))).

(** The sum the specification gives for [toEpoch]. *)
Definition toEpoch_sum (st : State) (t : smart_tm) : Z :=
  daysBeforeMonth (mon t) * 86400
  + (yr t - yr (epoch st)) * 365 * 86400
  + ((day t - 1) * 86400 + hr t * 3600 + min t * 60)
  + 86400 * leapDaysWalkedThroughFrom (epoch st) t
  + leapInstantsBefore st t
  + sec t.

(** Sum of [n] table entries from index [i] on. *)
Fixpoint days_from (n : nat) (i : Z) : Z :=
  match n with
  | O => 0
  | S n' => days_at i + days_from n' (i + 1)
  end.

(** ** States used as examples *)

(** A first initialisation with epoch year 1990. *)
Definition state_1990 : State :=
  init 1990 "leap-seconds.list" (Some leap_seconds_list) initial_State.

(** A first initialisation with the default epoch year. *)
Definition state_1900 : State :=
  init 1900 "leap-seconds.list" (Some leap_seconds_list) initial_State.

(** A first initialisation with epoch year 2000. *)
Definition state_2000 : State :=
  init 2000 "leap-seconds.list" (Some leap_seconds_list) initial_State.

(** A second initialisation, with epoch year 2000, after [state_1990]. *)
Definition state_1990_2000 : State :=
  init 2000 "leap-seconds.list" (Some leap_seconds_list) state_1990.

(** A second initialisation with the same arguments, after [state_1990]. *)
Definition state_1990_1990 : State :=
  init 1990 "leap-seconds.list" (Some leap_seconds_list) state_1990.

Definition zero_frac : double := S754_zero false.

(** Number of entries of the delta list in the closed interval [lo, hi]. *)
Definition entriesBetween (deltas : list Z) (lo hi : Z) : Z :=
  Z.of_nat (List.length (filter (fun d => (lo <=? d) && (d <=? hi)) deltas)).

(** January 1, 00:00:00.0 of year [y]. *)
Definition january_first (y : Z) : smart_tm :=
  mk_tm y START_MON START_DAY START_HR START_MIN START_SEC START_FRAC_SEC.

(** The year that enters the formula: a leap year is replaced by its
    predecessor. *)
Definition excluding_own_leap_day (y : Z) : Z :=
  if isLeapYear_u y then y - 1 else y.

(** The closed form with floor divisions. *)
Definition leapDaysBefore (y : Z) : Z := y / 4 + y / 400 - y / 100.

(** [configured st y]: the state [st] is reached from the initial statics
    by calls of [init] and [checkInit], and [y] is the epoch year of the
    last successful [init], 1900 if there was none. *)
Inductive configured : State -> Z -> Prop :=
| configured_start : configured initial_State DEFAULT_EPOCH_YEAR
| configured_init (st : State) (y epochYr : Z) (leapFile : string)
    (file : list string) :
    configured st y -> configured (init epochYr leapFile (Some file) st) epochYr
| configured_init_failed (st : State) (y epochYr : Z) (leapFile : string) :
    configured st y -> configured (init epochYr leapFile None st) y
| configured_checkInit (st : State) (y : Z) :
    configured st y -> configured (checkInit st) y.


(** ** Doubles *)

Definition two53 : Z := 2 ^ 53.

(** The mantissa and exponent of the double nearest to a positive integer
    below [2^53]: the integer itself, shifted to 53 bits. *)
Definition mant53 (p : positive) : positive :=
  Z.to_pos (Zpos p * 2 ^ (53 - Zpos (digits2_pos p))).

(** The last step of [binary_round_aux]: renormalisation after rounding. *)
Definition round_finish (s : bool) (m1 e1 : Z) : spec_float :=
  let '(mrs, e) := shr_fexp dprec demax m1 e1 loc_Exact in
  match shr_m mrs with
  | Z0 => S754_zero s
  | Zpos m => if e <=? demax - dprec then S754_finite s m e else S754_infinity s
  | Zneg _ => S754_nan
  end.


(** The double [-2^-60]. *)
Definition minus_two_pow_minus_60 : double :=
  S754_finite true 4503599627370496 (-112).

(** The double [2^-60]. *)
Definition two_pow_minus_60 : double :=
  S754_finite false 4503599627370496 (-112).

(** The rational number a finite double stands for (0 for the others). *)
Definition D2Q (x : double) : Q :=
  match x with
  | S754_finite s m e =>
      if 0 <=? e then inject_Z (cond_Zopp s (Zpos m * 2 ^ e))
      else Qmake (cond_Zopp s (Zpos m)) (Z.to_pos (2 ^ (- e)))
  | _ => 0%Q
  end.

(** The official list up to the line of the leap second of 2012-06-30. *)
Definition leap_seconds_through_2012 : list string := firstn 28 leap_seconds_list.

(** [isLeapMinute] as a function of the table. *)
Definition leapMinuteIn (tms : list smart_tm) (t : smart_tm) : bool :=
  existsb
    (fun leapSecond =>
       (yr t =? yr leapSecond) && (mon t =? mon leapSecond)
       && (day t =? day leapSecond) && (hr t =? hr leapSecond)
       && (min t =? min leapSecond))
    tms.
(** ** Day and minute numbers, consistent tables *)

(** Length of month [m] of year [y]. *)
Definition monthLength (y m : Z) : Z :=
  if (m - 1 =? Feb) && isLeapYear_u y then 29 else days_at (m - 1).

(** Days of year [y] before its month [m]. *)
Definition daysBeforeMonthIn (y m : Z) : Z :=
  daysBeforeMonth m + (if isLeapYear_u y && (3 <=? m) then 1 else 0).

(** Days from the (proleptic) first of January of year 0 of a calendar
    without leap year 0; only differences of day numbers matter. *)
Definition dayNumber (t : smart_tm) : Z :=
  365 * yr t + leapCount (yr t - 1) + daysBeforeMonthIn (yr t) (mon t)
  + (day t - 1).

(** Day number in a calendar without leap days. *)
Definition plainDayNumber (t : smart_tm) : Z :=
  365 * yr t + daysBeforeMonth (mon t) + (day t - 1).

(** Seconds, counting 86400 per day. *)
Definition timeNumber (t : smart_tm) : Z :=
  dayNumber t * 86400 + hr t * 3600 + min t * 60 + sec t.

Definition validDate (t : smart_tm) : Prop :=
  1 <= yr t /\ 1 <= mon t <= 12 /\ 1 <= day t <= monthLength (yr t) (mon t).

Definition validClock (t : smart_tm) : Prop :=
  0 <= hr t <= 23 /\ 0 <= min t <= 59.

(** The fields a day or month carry leaves alone. *)
Definition sameClock (a b : smart_tm) : Prop :=
  hr a = hr b /\ min a = min b /\ sec a = sec b /\ fracSec a = fracSec b.

Definition plainInv (t u : smart_tm) : Prop :=
  1 <= mon u <= 12 /\ plainDayNumber u = plainDayNumber t /\ sameClock u t.

Definition dateInv (t u : smart_tm) : Prop :=
  1 <= yr u /\ 1 <= mon u <= 12 /\ dayNumber u = dayNumber t /\ sameClock u t.

Definition two52 : Z := 2 ^ 52.

(** Number of entries of [us] that are at most [x]. *)
Definition countLe (us : list Z) (x : Z) : Z :=
  Z.of_nat (List.length (filter (fun u => u <=? x) us)).

(** [us] is strictly increasing and above [prev]. *)
Fixpoint increasing (prev : Z) (us : list Z) : Prop :=
  match us with
  | [] => True
  | u :: us' => prev < u /\ increasing u us'
  end.

(** The deltas of the leap instants with offsets [us], the first of them
    preceded by [k] leap seconds. *)
Fixpoint deltas_from (k : Z) (us : list Z) : list Z :=
  match us with
  | [] => []
  | u :: us' => (u + k) :: deltas_from (k + 1) us'
  end.

(** Minutes, counting 1440 per day. *)
Definition minuteNumber (t : smart_tm) : Z :=
  dayNumber t * 1440 + hr t * 60 + min t.

Definition date_lt (a b : smart_tm) : Prop :=
  yr a < yr b
  \/ (yr a = yr b /\ (mon a < mon b \/ (mon a = mon b /\ day a < day b))).

Definition minute_lt (a b : smart_tm) : Prop :=
  date_lt a b
  \/ (yr a = yr b /\ mon a = mon b /\ day a = day b
      /\ (hr a < hr b \/ (hr a = hr b /\ min a < min b))).

Definition same_minute (a b : smart_tm) : Prop :=
  yr a = yr b /\ mon a = mon b /\ day a = day b /\ hr a = hr b /\ min a = min b.

(** Seconds from the Epoch Reference, 86400 per day. *)
Definition offsetOf (st : State) (t : smart_tm) : Z :=
  timeNumber t - timeNumber (epoch st).

(** The same for the start of the minute of [t]. *)
Definition minuteOffset (st : State) (t : smart_tm) : Z :=
  minuteNumber t * 60 - timeNumber (epoch st).

Definition offsets (st : State) : list Z :=
  map (offsetOf st) (leapSecondTMs st).

Definition validDateb (t : smart_tm) : bool :=
  (1 <=? yr t) && (1 <=? mon t) && (mon t <=? 12) && (1 <=? day t)
  && (day t <=? monthLength (yr t) (mon t)).

Definition validClockb (t : smart_tm) : bool :=
  (0 <=? hr t) && (hr t <=? 23) && (0 <=? min t) && (min t <=? 59).

(** A leap instant: second 60 of a minute of a valid date. *)
Definition leapInstant (tm : smart_tm) : Prop :=
  validDate tm /\ validClock tm /\ sec tm = 60.

Definition leapInstantb (tm : smart_tm) : bool :=
  validDateb tm && validClockb tm && (sec tm =? 60).

(** The two tables checked side by side: [prev] is the offset of the
    previous leap instant and [i] the number of leap instants before. *)
Fixpoint tables_from (st : State) (prev i : Z) (tms : list smart_tm)
    (deltas : list Z) : bool :=
  match tms, deltas with
  | [], [] => true
  | tm :: tms', d :: deltas' =>
      leapInstantb tm && (prev <? offsetOf st tm) && (d =? offsetOf st tm + i)
      && tables_from st (offsetOf st tm) (i + 1) tms' deltas'
  | _, _ => false
  end.

(** The tables are consistent: the Epoch Reference is the first instant of
    a year from 1 on; the leap instants are second 60 of minutes of valid
    dates, not before the Epoch Reference, in strictly increasing order;
    the i-th delta (from 0) is the offset of the i-th leap instant plus
    [i]; there are fewer than 2^32 entries. *)
Definition tables_ok (st : State) : bool :=
  (1 <=? yr (epoch st)) && (mon (epoch st) =? 1) && (day (epoch st) =? 1)
  && (hr (epoch st) =? 0) && (min (epoch st) =? 0) && (sec (epoch st) =? 0)
  && fracSecInLimits (epoch st)
  && tables_from st 59 0 (leapSecondTMs st) (leapSecondDeltas st)
  && (Z.of_nat (List.length (leapSecondTMs st)) <? 2 ^ 32).

Record consistent (st : State) : Prop := {
  c_epoch_yr : 1 <= yr (epoch st);
  c_epoch_mon : mon (epoch st) = 1;
  c_epoch_day : day (epoch st) = 1;
  c_epoch_hr : hr (epoch st) = 0;
  c_epoch_min : min (epoch st) = 0;
  c_epoch_sec : sec (epoch st) = 0;
  c_epoch_frac : fracSecInLimits (epoch st) = true;
  c_instants : Forall leapInstant (leapSecondTMs st);
  c_increasing : increasing 59 (offsets st);
  c_deltas : leapSecondDeltas st = deltas_from 0 (offsets st);
  c_length : Z.of_nat (List.length (leapSecondTMs st)) < 2 ^ 32
}.

(** The offset of a timestamp plus the leap instants before its minute:
    the value [toEpoch] gives a normal timestamp. *)
Definition countAt (st : State) (t : smart_tm) : Z :=
  offsetOf st t + countLe (offsets st) (minuteOffset st t).

(** A normal timestamp: valid date and clock, second within the minute. *)
Definition normal (st : State) (t : smart_tm) : Prop :=
  validDate t /\ validClock t /\ 0 <= sec t <= numSecondsOfMinute st t - 1.

(** The [n] years from [from] on. *)
Definition years (n : nat) (from : Z) : list Z :=
  map (fun i => from + Z.of_nat i) (seq 0 n).

(** ** Further notions for the statements *)

(** [x] is a NaN. *)
Definition is_nan (x : double) : bool :=
  match x with S754_nan => true | _ => false end.

(** ** The tables [init] builds *)

(** The number at the start of a line, as [init] reads it. *)
Definition line_value (line : string) : Z := strtoull (leading_digits line).

(** The values of a file that [init] keeps: those after the new epoch. *)
Definition leap_values (d : Z) (file : list string) : list Z :=
  filter (fun v => d <? v) (map line_value (getLines file)).

(** The delta table [init] builds from the kept values: the distance from
    the new epoch plus the number of values kept before. *)
Fixpoint init_deltas (d k : Z) (vals : list Z) : list Z :=
  match vals with
  | [] => []
  | v :: vs => wrap64 (wrap64 (v - d) + k) :: init_deltas d (wrap64 (k + 1)) vs
  end.

(** ** [FileIO.cpp] at character granularity *)

(** The part of a [std::istream] the two functions use: the characters
    still in the stream buffer and the [eofbit]. *)
Record istream : Type := mk_istream {
  rdbuf : string;
  eofbit : bool
}.

(** ['\n'] and ['\r']. *)
Definition LF : ascii := ascii_of_nat 10.

Definition CR : ascii := ascii_of_nat 13.

(** The [for (;;)] loop of [safeGetline]: the characters left, the line,
    and whether the end of the buffer was met with an empty line. *)
Fixpoint safeGetline_loop (buf line : string) : string * string * bool :=
  match buf with
  | EmptyString =>
      (EmptyString, line, match line with EmptyString => true | _ => false end)
  | String c rest =>
      if Ascii.eqb c LF then (rest, line, false)
      else if Ascii.eqb c CR then
        match rest with
        | String c' rest' =>
            if Ascii.eqb c' LF then (rest', line, false) else (rest, line, false)
        | EmptyString => (rest, line, false)
        end
      else safeGetline_loop rest (line ++ String c EmptyString)
  end.

(** [safeGetline]: the stream after the call and the line. The sentry is
    built with [noskipws], so it takes no character; the [failbit] it may
    set is read nowhere. *)
Definition safeGetline (strm : istream) : istream * string :=
  let '(rest, line, at_end) := safeGetline_loop (rdbuf strm) EmptyString in
  (mk_istream rest (eofbit strm || at_end), line).

(** The [while (more)] loop of [getNextLine]; every pass but the last
    takes at least one character, so [fuel] above the number of characters
    is never used up. *)
Fixpoint getNextLine_loop (fuel : nat) (strm : istream) : istream * string * bool :=
  match fuel with
  | O => (strm, EmptyString, false)
  | S fuel' =>
      let '(strm, line) := safeGetline strm in
      if negb (eofbit strm) then
        if skipped_line line then getNextLine_loop fuel' strm
        else (strm, line, true)
      else (strm, EmptyString, false)
  end.

(** [getNextLine]: the stream after the call, the line and the result. *)
Definition getNextLine (strm : istream) : istream * string * bool :=
  getNextLine_loop (S (String.length (rdbuf strm))) strm.

(** The lines a [while (getNextLine(fLeap, strLine))] loop sees, as in [init]. *)
Fixpoint read_lines_loop (fuel : nat) (strm : istream) : list string :=
  match fuel with
  | O => []
  | S fuel' =>
      let '(strm', line, ok) := getNextLine strm in
      if ok then line :: read_lines_loop fuel' strm' else []
  end.

(** All of them, to the end of the stream. *)
Definition read_lines (strm : istream) : list string :=
  read_lines_loop (S (String.length (rdbuf strm))) strm.

(** A freshly opened stream over a text. *)
Definition open_stream (text : string) : istream := mk_istream text false.

(** ** Texts and their line endings *)

(** LF, CR LF and CR. *)
Inductive line_ending : Type := Unix_ending | Dos_ending | Mac_ending.

Definition ending_string (e : line_ending) : string :=
  match e with
  | Unix_ending => String LF EmptyString
  | Dos_ending => String CR (String LF EmptyString)
  | Mac_ending => String CR EmptyString
  end.

(** No line feed and no carriage return in [s]. *)
Fixpoint no_eol (s : string) : bool :=
  match s with
  | EmptyString => true
  | String c s' => negb (Ascii.eqb c LF) && negb (Ascii.eqb c CR) && no_eol s'
  end.

(** The text of lines with their endings, followed by a last line without
    an ending. *)
Fixpoint text_of (lines : list (string * line_ending)) (last : string) : string :=
  match lines with
  | [] => last
  | (l, e) :: lines' => (l ++ ending_string e ++ text_of lines' last)%string
  end.

(** The characters left after a line ending followed by [rest]. *)
Definition after_ending (e : line_ending) (rest : string) : string :=
  match e, rest with
  | Mac_ending, String c rest' => if Ascii.eqb c LF then rest' else rest
  | _, _ => rest
  end.

(** ** A state for the examples *)

(** The header's example: a first initialisation with epoch year 2008. *)
Definition state_2008 : State :=
  init 2008 "leap-seconds.list" (Some leap_seconds_list) initial_State.

(** * Properties *)

(** ** Unsigned arithmetic *)

Lemma two64_pos : 0 < two64.
Proof. reflexivity. Qed.

Lemma wrap64_range (x : Z) : 0 <= wrap64 x < two64.
Proof. apply Z.mod_pos_bound, two64_pos. Qed.

Lemma wrap64_small (x : Z) : 0 <= x < two64 -> wrap64 x = x.
Proof. apply Z.mod_small. Qed.

Lemma wrap64_idem (x : Z) : wrap64 (wrap64 x) = wrap64 x.
Proof. apply Z.mod_mod. discriminate. Qed.

Lemma wrap64_add_l (a b : Z) : wrap64 (wrap64 a + b) = wrap64 (a + b).
Proof. apply Zplus_mod_idemp_l. Qed.

Lemma wrap64_add_r (a b : Z) : wrap64 (a + wrap64 b) = wrap64 (a + b).
Proof. apply Zplus_mod_idemp_r. Qed.

Lemma wrap64_sub_l (a b : Z) : wrap64 (wrap64 a - b) = wrap64 (a - b).
Proof. apply Zminus_mod_idemp_l. Qed.

Lemma wrap64_mul_l (a b : Z) : wrap64 (wrap64 a * b) = wrap64 (a * b).
Proof. apply Zmult_mod_idemp_l. Qed.

Lemma wrap64_add_congr (a a' b b' : Z) :
  wrap64 a = wrap64 a' -> wrap64 b = wrap64 b' -> wrap64 (a + b) = wrap64 (a' + b').
Proof.
  intros Ha Hb. rewrite <- wrap64_add_l, <- wrap64_add_r, Ha, Hb.
  rewrite wrap64_add_l, wrap64_add_r. reflexivity.
Qed.

Lemma wrap64_mul_congr (a a' b : Z) :
  wrap64 a = wrap64 a' -> wrap64 (a * b) = wrap64 (a' * b).
Proof. intros Ha. rewrite <- wrap64_mul_l, Ha, wrap64_mul_l. reflexivity. Qed.

Lemma to_signed64_small (x : Z) : - two63 <= x < two63 -> to_signed64 x = x.
Proof.
  intros H. unfold to_signed64, wrap64, two64, two63 in *.
  destruct (Z.ltb_spec ((x mod 2 ^ 64)) (2 ^ 63)) as [L | L].
  - destruct (Z.lt_ge_cases x 0) as [N | N].
    + rewrite <- (Z.mod_add x 1) in L by discriminate.
      rewrite Z.mod_small in L by lia. lia.
    + apply Z.mod_small. lia.
  - destruct (Z.lt_ge_cases x 0) as [N | N].
    + rewrite <- (Z.mod_add x 1) by discriminate.
      rewrite Z.mod_small by lia. lia.
    + rewrite Z.mod_small in L by lia. lia.
Qed.

(** The signed reading of an unsigned difference is the difference itself
    as long as both operands are below [2^63]. *)
Lemma to_signed64_diff (a b : Z) :
  0 <= a < two63 -> 0 <= b < two63 -> to_signed64 (a - b) = a - b.
Proof. intros Ha Hb. apply to_signed64_small. unfold two63 in *. lia. Qed.

(** ** Facts about binary64 *)

Lemma digits2_pos_bounds (p : positive) :
  2 ^ (Zpos (digits2_pos p) - 1) <= Zpos p < 2 ^ Zpos (digits2_pos p).
Proof.
  induction p as [p IH | p IH |]; cbn [digits2_pos].
  - rewrite Pos2Z.inj_succ, Z.pow_succ_r by lia.
    replace (Z.succ (Zpos (digits2_pos p)) - 1) with (Z.succ (Zpos (digits2_pos p) - 1)) by lia.
    rewrite Z.pow_succ_r by lia. lia.
  - rewrite Pos2Z.inj_succ, Z.pow_succ_r by lia.
    replace (Z.succ (Zpos (digits2_pos p)) - 1) with (Z.succ (Zpos (digits2_pos p) - 1)) by lia.
    rewrite Z.pow_succ_r by lia. lia.
  - simpl. lia.
Qed.

Lemma digits2_pos_unique (p : positive) (d : Z) :
  2 ^ (d - 1) <= Zpos p < 2 ^ d -> Zpos (digits2_pos p) = d.
Proof.
  intros [L U]. pose proof (digits2_pos_bounds p) as [L' U'].
  assert (0 < d).
  { destruct (Z.lt_ge_cases 0 d) as [|N]; [assumption|].
    destruct (Z.eq_dec d 0) as [->|]; [simpl in U; lia|].
    rewrite Z.pow_neg_r in U by lia. lia. }
  assert (d - 1 < Zpos (digits2_pos p)).
  { apply (Z.pow_lt_mono_r_iff 2); lia. }
  assert (Zpos (digits2_pos p) - 1 < d).
  { apply (Z.pow_lt_mono_r_iff 2); lia. }
  lia.
Qed.

(** Rounding a mantissa that is already canonical changes nothing. *)
Lemma binary_round_aux_canonical (s : bool) (m : positive) (e : Z) :
  fexp dprec demax (Zpos (digits2_pos m) + e) = e ->
  e <= demax - dprec ->
  binary_round_aux dprec demax s (Zpos m) e loc_Exact = S754_finite s m e.
Proof.
  intros C B. unfold binary_round_aux, shr_fexp. cbn [Zdigits2 shr_record_of_loc].
  rewrite C, Z.sub_diag. cbn [shr shr_m loc_of_shr_record round_nearest_even].
  cbn [Zdigits2]. rewrite C, Z.sub_diag. cbn [shr shr_m].
  destruct (Z.leb_spec e (demax - dprec)); [reflexivity | lia].
Qed.

Lemma iter_xO (p : positive) (k : positive) :
  Zpos (Pos.iter xO p k) = Zpos p * 2 ^ Zpos k.
Proof.
  revert p. induction k using Pos.peano_ind; intros p.
  - simpl. lia.
  - rewrite Pos.iter_succ, Pos2Z.inj_succ, Z.pow_succ_r by lia.
    rewrite Pos2Z.inj_xO, IHk. lia.
Qed.

Lemma binary_round_small (s : bool) (p : positive) :
  Zpos p < two53 ->
  binary_round dprec demax s p 0
  = S754_finite s (mant53 p) (Zpos (digits2_pos p) - 53).
Proof.
  intros B. pose proof (digits2_pos_bounds p) as [L U].
  set (d := Zpos (digits2_pos p)) in *.
  assert (Hd : 1 <= d <= 53).
  { split; [subst d; lia |].
    destruct (Z.le_gt_cases d 53) as [|G]; [assumption | exfalso].
    assert (2 ^ 53 <= 2 ^ (d - 1)) by (apply Z.pow_le_mono_r; lia).
    unfold two53 in B. lia. }
  unfold binary_round, shl_align.
  assert (F : fexp dprec demax (d + 0) = d - 53).
  { unfold fexp, emin, dprec, demax. lia. }
  fold d. rewrite F.
  assert (M : Zpos (mant53 p) = Zpos p * 2 ^ (53 - d)).
  { unfold mant53. fold d. rewrite Z2Pos.id; [reflexivity |].
    apply Z.mul_pos_pos; [lia | apply Z.pow_pos_nonneg; lia]. }
  assert (DM : Zpos (digits2_pos (mant53 p)) = 53).
  { apply digits2_pos_unique. rewrite M.
    replace (2 ^ (53 - 1)) with (2 ^ (d - 1) * 2 ^ (53 - d))
      by (rewrite <- Z.pow_add_r by lia; f_equal; lia).
    replace (2 ^ 53) with (2 ^ d * 2 ^ (53 - d))
      by (rewrite <- Z.pow_add_r by lia; f_equal; lia).
    assert (0 < 2 ^ (53 - d)) by (apply Z.pow_pos_nonneg; lia).
    split; [apply Z.mul_le_mono_nonneg_r; lia | apply Z.mul_lt_mono_pos_r; lia]. }
  destruct (d - 53 - 0) as [| k | k] eqn:Ek; try lia.
  - (* already 53 bits *)
    assert (d = 53) by lia.
    assert (mant53 p = p) as E.
    { apply Pos2Z.inj. rewrite M. replace (53 - d) with 0 by lia. simpl. lia. }
    rewrite E in *. replace (d - 53) with 0 by lia.
    apply binary_round_aux_canonical.
    + rewrite DM. unfold fexp, emin, dprec, demax. lia.
    + unfold demax, dprec. lia.
  - assert (E : Pos.iter xO p k = mant53 p).
    { apply Pos2Z.inj. rewrite iter_xO, M. f_equal. f_equal. lia. }
    rewrite E. apply binary_round_aux_canonical.
    + rewrite DM. unfold fexp, emin, dprec, demax. lia.
    + unfold demax, dprec. lia.
Qed.

(** [static_cast<double>] of an integer below [2^53] in absolute value. *)
Lemma Z2D_pos (p : positive) :
  Zpos p < two53 ->
  Z2D (Zpos p) = S754_finite false (mant53 p) (Zpos (digits2_pos p) - 53).
Proof. intros B. unfold Z2D, binary_normalize. apply binary_round_small, B. Qed.

Lemma Z2D_neg (p : positive) :
  Zpos p < two53 ->
  Z2D (Zneg p) = S754_finite true (mant53 p) (Zpos (digits2_pos p) - 53).
Proof. intros B. unfold Z2D, binary_normalize. apply binary_round_small, B. Qed.

Lemma mant53_value (p : positive) :
  Zpos p < two53 ->
  Zpos (mant53 p) = Zpos p * 2 ^ (53 - Zpos (digits2_pos p))
  /\ 1 <= Zpos (digits2_pos p) <= 53
  /\ Zpos (digits2_pos (mant53 p)) = 53.
Proof.
  intros B. pose proof (digits2_pos_bounds p) as [L U].
  set (d := Zpos (digits2_pos p)) in *.
  assert (Hd : 1 <= d <= 53).
  { split; [subst d; lia |].
    destruct (Z.le_gt_cases d 53) as [|G]; [assumption | exfalso].
    assert (2 ^ 53 <= 2 ^ (d - 1)) by (apply Z.pow_le_mono_r; lia).
    unfold two53 in B. lia. }
  assert (M : Zpos (mant53 p) = Zpos p * 2 ^ (53 - d)).
  { unfold mant53. fold d. rewrite Z2Pos.id; [reflexivity |].
    apply Z.mul_pos_pos; [lia | apply Z.pow_pos_nonneg; lia]. }
  split; [exact M | split; [exact Hd |]].
  apply digits2_pos_unique. rewrite M.
  replace (2 ^ (53 - 1)) with (2 ^ (d - 1) * 2 ^ (53 - d))
    by (rewrite <- Z.pow_add_r by lia; f_equal; lia).
  replace (2 ^ 53) with (2 ^ d * 2 ^ (53 - d))
    by (rewrite <- Z.pow_add_r by lia; f_equal; lia).
  assert (0 < 2 ^ (53 - d)) by (apply Z.pow_pos_nonneg; lia).
  split; [apply Z.mul_le_mono_nonneg_r; lia | apply Z.mul_lt_mono_pos_r; lia].
Qed.


Lemma D2LL_Z2D (k : Z) : Z.abs k < two53 -> D2LL (Z2D k) = k.
Proof.
  intros B. destruct k as [| p | p].
  - reflexivity.
  - assert (Bp : Zpos p < two53) by lia.
    rewrite Z2D_pos by assumption.
    destruct (mant53_value p Bp) as (M & Hd & _).
    unfold D2LL. rewrite M.
    destruct (Z.leb_spec 0 (Zpos (digits2_pos p) - 53)).
    + replace (Zpos (digits2_pos p) - 53) with 0 by lia.
      replace (53 - Zpos (digits2_pos p)) with 0 by lia. simpl. lia.
    + replace (- (Zpos (digits2_pos p) - 53)) with (53 - Zpos (digits2_pos p)) by lia.
      rewrite Z.div_mul; [reflexivity |]. apply Z.pow_nonzero; lia.
  - assert (Bp : Zpos p < two53) by lia.
    rewrite Z2D_neg by assumption.
    destruct (mant53_value p Bp) as (M & Hd & _).
    unfold D2LL. rewrite M.
    destruct (Z.leb_spec 0 (Zpos (digits2_pos p) - 53)).
    + replace (Zpos (digits2_pos p) - 53) with 0 by lia.
      replace (53 - Zpos (digits2_pos p)) with 0 by lia. simpl. lia.
    + replace (- (Zpos (digits2_pos p) - 53)) with (53 - Zpos (digits2_pos p)) by lia.
      rewrite Z.div_mul; [reflexivity |]. apply Z.pow_nonzero; lia.
Qed.

(** [floor] followed by the cast, on a finite double with a negative
    exponent: the floor of the quotient. *)
Lemma D2LL_Dfloor_finite (s : bool) (m : positive) (e : Z) :
  Zpos m < two53 -> e < 0 ->
  D2LL (Dfloor (S754_finite s m e)) = cond_Zopp s (Zpos m) / 2 ^ (- e).
Proof.
  intros B E. unfold Dfloor.
  destruct (Z.leb_spec 0 e); [lia |].
  set (k := cond_Zopp s (Zpos m) / 2 ^ (- e)).
  destruct (Z.eqb_spec k 0) as [-> | N]; [reflexivity |].
  apply D2LL_Z2D.
  assert (P : 1 <= 2 ^ (- e)) by (apply (Z.pow_le_mono_r 2 0); lia).
  subst k. destruct s; simpl.
  - assert (- Zpos m <= Z.neg m / 2 ^ (- e)).
    { apply Z.div_le_lower_bound; [lia |]. change (Z.neg m) with (- Zpos m). nia. }
    assert (Z.neg m / 2 ^ (- e) < 0)
      by (apply Z.div_lt_upper_bound; lia).
    lia.
  - assert (0 <= Zpos m / 2 ^ (- e)) by (apply Z.div_pos; lia).
    assert (Zpos m / 2 ^ (- e) <= Zpos m).
    { apply Z.div_le_upper_bound; [lia | nia]. }
    lia.
Qed.

(** Comparison of converted integers. *)
Lemma SFcompare_Z2D_pos (a b : positive) :
  Zpos a < two53 -> Zpos b < two53 ->
  SFcompare (Z2D (Zpos a)) (Z2D (Zpos b)) = Some (Zpos a ?= Zpos b).
Proof.
  intros Ba Bb. rewrite !Z2D_pos by assumption.
  destruct (mant53_value a Ba) as (Ma & Hda & _).
  destruct (mant53_value b Bb) as (Mb & Hdb & _).
  pose proof (digits2_pos_bounds a) as [La Ua].
  pose proof (digits2_pos_bounds b) as [Lb Ub].
  set (da := Zpos (digits2_pos a)) in *. set (db := Zpos (digits2_pos b)) in *.
  unfold SFcompare. f_equal.
  destruct (Z.compare_spec (da - 53) (db - 53)) as [E | L | G].
  - assert (da = db) as Ed by lia.
    rewrite Pos.compare_cont_spec. cbn [Pos.switch_Eq].
    assert (C : (mant53 a ?= mant53 b)%positive = (Zpos a ?= Zpos b)).
    { change ((mant53 a ?= mant53 b)%positive) with (Zpos (mant53 a) ?= Zpos (mant53 b)).
      rewrite Ma, Mb, Ed. symmetry. apply Zmult_compare_compat_r.
      apply Z.lt_gt, Z.pow_pos_nonneg; lia. }
    rewrite C. destruct (Zpos a ?= Zpos b); reflexivity.
  - symmetry. apply Z.compare_lt_iff.
    assert (2 ^ da <= 2 ^ (db - 1)) by (apply Z.pow_le_mono_r; lia). lia.
  - symmetry. apply Z.compare_gt_iff.
    assert (2 ^ db <= 2 ^ (da - 1)) by (apply Z.pow_le_mono_r; lia). lia.
Qed.

Lemma Dleb_Z2D (a : Z) (b : positive) :
  Z.abs a < two53 -> Zpos b < two53 ->
  Dleb (Z2D a) (Z2D (Zpos b)) = (a <=? Zpos b).
Proof.
  intros Ba Bb. unfold Dleb, SFleb. destruct a as [| p | p].
  - rewrite Z2D_pos by assumption. reflexivity.
  - rewrite SFcompare_Z2D_pos by (assumption || lia).
    unfold Z.leb. destruct (Zpos p ?= Zpos b); reflexivity.
  - rewrite Z2D_neg by lia. rewrite Z2D_pos by assumption. reflexivity.
Qed.

Lemma sixty_minus_one : Dsub (Z2D 60) (Z2D 1) = Z2D 59.
Proof. vm_compute. reflexivity. Qed.

Lemma sixty_one_minus_one : Dsub (Z2D 61) (Z2D 1) = Z2D 60.
Proof. vm_compute. reflexivity. Qed.




(** ** Division of doubles *)

Lemma div_eucl_div_mod (a b : Z) : Z.div_eucl a b = (a / b, a mod b).
Proof. unfold Z.div, Z.modulo. destruct (Z.div_eucl a b); reflexivity. Qed.

Lemma SFdiv_core_53 (mx my : positive) (ex ey : Z) :
  Zpos (digits2_pos mx) = 53 -> Zpos (digits2_pos my) = 53 ->
  -1000 <= ex - ey <= 1000 ->
  SFdiv_core_binary dprec demax (Zpos mx) ex (Zpos my) ey
  = (Zpos mx * 2 ^ 53 / Zpos my, ex - ey - 53,
     new_location (Zpos my) (Zpos mx * 2 ^ 53 mod Zpos my)).
Proof.
  intros Dx Dy B. unfold SFdiv_core_binary. cbn [Zdigits2]. rewrite Dx, Dy.
  replace (Z.min (fexp dprec demax (53 + ex - (53 + ey))) (ex - ey))
    with (ex - ey - 53) by (unfold fexp, emin, dprec, demax; lia).
  replace (ex - ey - (ex - ey - 53)) with 53 by lia.
  rewrite Z.shiftl_mul_pow2 by lia. rewrite div_eucl_div_mod. reflexivity.
Qed.

Lemma binary_round_aux_split (s : bool) (q e : Z) (loc : location) :
  binary_round_aux dprec demax s q e loc
  = round_finish s
      (round_nearest_even (shr_m (fst (shr_fexp dprec demax q e loc)))
         (loc_of_shr_record (fst (shr_fexp dprec demax q e loc))))
      (snd (shr_fexp dprec demax q e loc)).
Proof.
  unfold binary_round_aux, round_finish.
  destruct (shr_fexp dprec demax q e loc) as [mrs e']. reflexivity.
Qed.

Lemma shr_fexp_53 (q : positive) (e : Z) (loc : location) :
  Zpos (digits2_pos q) = 53 -> -1000 <= e ->
  shr_fexp dprec demax (Zpos q) e loc = (shr_record_of_loc (Zpos q) loc, e).
Proof.
  intros D B. unfold shr_fexp. cbn [Zdigits2]. rewrite D.
  replace (fexp dprec demax (53 + e) - e) with 0
    by (unfold fexp, emin, dprec, demax; lia).
  reflexivity.
Qed.

Lemma shr_fexp_54 (q : positive) (e : Z) (loc : location) :
  Zpos (digits2_pos q) = 54 -> -1000 <= e ->
  shr_fexp dprec demax (Zpos q) e loc = (shr_1 (shr_record_of_loc (Zpos q) loc), e + 1).
Proof.
  intros D B. unfold shr_fexp. cbn [Zdigits2]. rewrite D.
  replace (fexp dprec demax (54 + e) - e) with 1
    by (unfold fexp, emin, dprec, demax; lia).
  reflexivity.
Qed.

Lemma round_finish_normal (s : bool) (m1 e1 : Z) :
  2 ^ 52 <= m1 <= 2 ^ 53 -> -1000 <= e1 <= 900 ->
  exists (m : positive) (j : Z),
    round_finish s m1 e1 = S754_finite s m (e1 + j)
    /\ 0 <= j <= 1 /\ Zpos m * 2 ^ j = m1 /\ Zpos m < two53.
Proof.
  intros B E. destruct m1 as [| p | p]; try lia.
  destruct (Z.eq_dec (Zpos p) (2 ^ 53)) as [T | T].
  - injection T as ->. exists (4503599627370496%positive), 1.
    unfold round_finish. rewrite shr_fexp_54 by (reflexivity || lia).
    cbn [shr_record_of_loc shr_1 shr_m].
    destruct (Z.leb_spec (e1 + 1) (demax - dprec)) as [_ | C];
      [| unfold demax, dprec in C; lia].
    repeat split; try lia.
  - assert (D : Zpos (digits2_pos p) = 53) by (apply digits2_pos_unique; simpl; lia).
    exists p, 0. unfold round_finish. rewrite shr_fexp_53 by (assumption || lia).
    cbn [shr_record_of_loc shr_m].
    destruct (Z.leb_spec e1 (demax - dprec)) as [_ | C];
      [| unfold demax, dprec in C; lia].
    rewrite Z.add_0_r. repeat split; try lia. unfold two53. lia.
Qed.

Lemma loc_of_shr_record_of_loc (m : Z) (loc : location) :
  loc_of_shr_record (shr_record_of_loc m loc) = loc.
Proof. destruct loc as [| []]; reflexivity. Qed.

Lemma shr_m_of_loc (m : Z) (loc : location) : shr_m (shr_record_of_loc m loc) = m.
Proof. destruct loc as [| []]; reflexivity. Qed.

(** Rounding a quotient [q] of 53 or 54 bits, with the position [loc] of
    the exact value inside [[q, q + 1)], to a double: in units of the
    input exponent the result is within one of [q], it is [q - 1] only for
    an exact odd [q], and it is [q] for an exact even [q]. *)
Lemma binary_round_aux_quotient (s : bool) (q e : Z) (loc : location) :
  2 ^ 52 <= q < 2 ^ 54 -> -1000 <= e <= 800 ->
  exists (m : positive) (j : Z),
    binary_round_aux dprec demax s q e loc = S754_finite s m (e + j)
    /\ 0 <= j <= 2 /\ Zpos m < two53
    /\ q - 1 <= Zpos m * 2 ^ j <= q + 1
    /\ (Zpos m * 2 ^ j = q - 1 -> loc = loc_Exact)
    /\ (loc = loc_Exact -> Z.even q = true -> Zpos m * 2 ^ j = q).
Proof.
  intros B E. rewrite binary_round_aux_split.
  destruct q as [| p | p]; try lia.
  destruct (Z.lt_ge_cases (Zpos p) (2 ^ 53)) as [S | L].
  - (* 53 bits: no shift before rounding *)
    assert (D : Zpos (digits2_pos p) = 53) by (apply digits2_pos_unique; simpl; lia).
    rewrite shr_fexp_53 by (assumption || lia). cbn [fst snd].
    rewrite shr_m_of_loc, loc_of_shr_record_of_loc.
    set (m1 := round_nearest_even (Zpos p) loc).
    assert (R : (m1 = Zpos p \/ (m1 = Zpos p + 1 /\ loc <> loc_Exact))).
    { subst m1. destruct loc as [| []]; cbn [round_nearest_even]; auto.
      - destruct (Z.even (Zpos p)); [left; reflexivity | right; split; [reflexivity | discriminate]].
      - right. split; [reflexivity | discriminate]. }
    destruct (round_finish_normal s m1 e) as (m & j & F & J & V & M); [lia | lia |].
    exists m, j. rewrite F. clearbody m1.
    split; [reflexivity |]. split; [lia |]. split; [assumption |].
    split; [lia |]. split.
    + intros C. exfalso. lia.
    + intros -> _. destruct R as [R | [_ R]]; [lia | contradiction].
  - (* 54 bits: one shift before rounding *)
    assert (D : Zpos (digits2_pos p) = 54) by (apply digits2_pos_unique; simpl; lia).
    rewrite shr_fexp_54 by (assumption || lia). cbn [fst snd].
    assert (R : exists m1,
               round_nearest_even (shr_m (shr_1 (shr_record_of_loc (Zpos p) loc)))
                 (loc_of_shr_record (shr_1 (shr_record_of_loc (Zpos p) loc))) = m1
               /\ 2 ^ 52 <= m1 <= 2 ^ 53
               /\ Zpos p - 1 <= m1 * 2 <= Zpos p + 1
               /\ (m1 * 2 = Zpos p - 1 -> loc = loc_Exact)
               /\ (loc = loc_Exact -> Z.even (Zpos p) = true -> m1 * 2 = Zpos p)).
    { destruct p as [p' | p' |]; [| | simpl in L; lia].
      - (* odd quotient *)
        destruct loc as [| []]; cbn [shr_record_of_loc shr_1 shr_m loc_of_shr_record
                                       orb round_nearest_even];
          try (eexists; split; [reflexivity |]; repeat split; try lia; intros; try discriminate; lia).
        destruct (Z.even (Zpos p')); eexists; (split; [reflexivity |]);
          repeat split; try lia; intros; try discriminate; try lia.
      - (* even quotient *)
        destruct loc as [| []]; cbn [shr_record_of_loc shr_1 shr_m loc_of_shr_record
                                       orb round_nearest_even];
          eexists; (split; [reflexivity |]); repeat split; try lia; intros;
          try discriminate; lia. }
    destruct R as (m1 & -> & B1 & V1 & X1 & Y1).
    destruct (round_finish_normal s m1 (e + 1)) as (m & j & F & J & V & M); [lia | lia |].
    exists m, (j + 1). rewrite F.
    rewrite Z.pow_add_r, Z.mul_assoc, V by lia.
    replace (e + 1 + j) with (e + (j + 1)) by lia.
    change (2 ^ 1) with 2.
    repeat split; try lia; assumption.
Qed.


Lemma new_location_exact (n k : Z) : new_location n k = loc_Exact <-> k = 0.
Proof.
  unfold new_location, new_location_even, new_location_odd.
  destruct (Z.even n); destruct (Z.eqb_spec k 0); split; intros H;
    try reflexivity; try assumption; try discriminate; contradiction.
Qed.

(** The arithmetic behind the exactness of the quotient: [K] is the weight
    of the quotient's unit, a power of two above the divisor. *)
Lemma quotient_sandwich (x c K M q : Z) :
  0 < x -> 0 < c -> c < K -> Z.even K = true ->
  q = x * K / c ->
  q - 1 <= M <= q + 1 ->
  (M = q - 1 -> (x * K) mod c = 0) ->
  ((x * K) mod c = 0 -> Z.even q = true -> M = q) ->
  (x mod c = 0 -> M = (x / c) * K)
  /\ (x mod c <> 0 -> (x / c) * K < M < (x / c + 1) * K).
Proof.
  intros Hx Hc HK EK Hq HM Hlow Hex.
  pose proof (Z.div_mod x c ltac:(lia)) as DM.
  pose proof (Z.mod_pos_bound x c Hc) as RB.
  set (a := x / c) in *. set (r := x mod c) in *.
  assert (XK : x * K = a * K * c + r * K) by (rewrite DM at 1; ring).
  assert (Q : q = a * K + r * K / c).
  { rewrite Hq, XK, Z.add_comm, Z.div_add by lia. lia. }
  assert (MD : (x * K) mod c = (r * K) mod c).
  { rewrite XK, Z.add_comm, Z.mod_add by lia. reflexivity. }
  split.
  - intros R0. rewrite R0 in *. simpl in Q, MD. rewrite Z.add_0_r in Q.
    rewrite <- Q. apply Hex.
    + rewrite MD. apply Z.mod_0_l. lia.
    + rewrite Q, Z.even_mul, EK. apply orb_true_r.
  - intros RN.
    assert (1 <= r * K / c).
    { apply Z.div_le_lower_bound; [lia | nia]. }
    assert (r * K / c <= K - 2).
    { assert (r * K / c < K - 1); [| lia].
      apply Z.div_lt_upper_bound; [lia | nia]. }
    split; [| lia].
    destruct (Z.eq_dec M (q - 1)) as [E | NE]; [| lia].
    specialize (Hlow E). rewrite MD in Hlow.
    pose proof (Z.div_mod (r * K) c ltac:(lia)) as DM2. rewrite Hlow in DM2.
    assert (r * K / c <> 1) by nia. lia.
Qed.

(** The quotient of two converted positive integers. *)
Lemma Ddiv_Z2D_finite (sx : bool) (x c : positive) :
  Zpos x < two53 -> 8 <= Zpos c < two53 ->
  exists (m : positive) (e : Z),
    Ddiv (S754_finite sx (mant53 x) (Zpos (digits2_pos x) - 53))
         (S754_finite false (mant53 c) (Zpos (digits2_pos c) - 53))
    = S754_finite sx m e
    /\ e < 0 /\ Zpos m < two53
    /\ Zpos m / 2 ^ (- e) = Zpos x / Zpos c
    /\ (Zpos m mod 2 ^ (- e) = 0 <-> Zpos x mod Zpos c = 0).
Proof.
  intros Bx [Lc Bc].
  destruct (mant53_value x Bx) as (Mx & Hdx & Dx).
  destruct (mant53_value c Bc) as (Mc & Hdc & Dc).
  pose proof (digits2_pos_bounds x) as [Lx Ux].
  pose proof (digits2_pos_bounds c) as [Lc' Uc].
  pose proof (digits2_pos_bounds (mant53 x)) as [Lmx Umx].
  pose proof (digits2_pos_bounds (mant53 c)) as [Lmc Umc].
  rewrite Dx in Lmx, Umx. rewrite Dc in Lmc, Umc.
  set (dx := Zpos (digits2_pos x)) in *. set (dc := Zpos (digits2_pos c)) in *.
  assert (Hdc4 : 4 <= dc).
  { destruct (Z.le_gt_cases 4 dc) as [|G]; [assumption | exfalso].
    assert (2 ^ dc <= 2 ^ 3) by (apply Z.pow_le_mono_r; lia). simpl in *. lia. }
  unfold Ddiv, SFdiv.
  rewrite SFdiv_core_53 by (assumption || lia). rewrite xorb_false_r.
  set (K := 2 ^ (53 + dc - dx)). set (P := 2 ^ (53 - dc)).
  assert (HP : 0 < P) by (apply Z.pow_pos_nonneg; lia).
  assert (HK : 2 ^ dc <= K) by (apply Z.pow_le_mono_r; lia).
  assert (EK : Z.even K = true).
  { unfold K. replace (53 + dc - dx) with (Z.succ (52 + dc - dx)) by lia.
    rewrite Z.pow_succ_r by lia. rewrite Z.even_mul. reflexivity. }
  assert (N : Zpos (mant53 x) * 2 ^ 53 = Zpos x * K * P).
  { rewrite Mx. unfold K, P. rewrite <- !Z.mul_assoc. f_equal.
    rewrite <- !Z.pow_add_r by lia. f_equal. lia. }
  assert (Dn : Zpos (mant53 c) = Zpos c * P) by exact Mc.
  set (q := Zpos (mant53 x) * 2 ^ 53 / Zpos (mant53 c)).
  set (r := Zpos (mant53 x) * 2 ^ 53 mod Zpos (mant53 c)).
  assert (Q : q = Zpos x * K / Zpos c).
  { unfold q. rewrite N, Dn. apply Z.div_mul_cancel_r; lia. }
  assert (R : r = (Zpos x * K) mod Zpos c * P).
  { unfold r. rewrite N, Dn. apply Z.mul_mod_distr_r; lia. }
  assert (Bq : 2 ^ 52 <= q < 2 ^ 54).
  { unfold q. split.
    - apply Z.div_le_lower_bound; [lia |]. change (2 ^ 53) with (2 * 2 ^ 52) in *. nia.
    - apply Z.div_lt_upper_bound; [lia |]. change (2 ^ 54) with (2 * 2 ^ 53) in *.
      change (2 ^ 53) with (2 * 2 ^ 52) in *. nia. }
  destruct (binary_round_aux_quotient sx q (dx - 53 - (dc - 53) - 53)
              (new_location (Zpos (mant53 c)) r) Bq ltac:(lia))
    as (m & j & F & J & Bm & V & Low & Ex).
  exists m, (dx - 53 - (dc - 53) - 53 + j). split; [exact F |].
  split; [lia |]. split; [exact Bm |].
  set (M := Zpos m * 2 ^ j) in *.
  assert (RZ : r = 0 <-> (Zpos x * K) mod Zpos c = 0).
  { rewrite R. split; intros H; [| rewrite H; reflexivity].
    apply Z.mul_eq_0 in H. lia. }
  destruct (quotient_sandwich (Zpos x) (Zpos c) K M q) as [Int Frac];
    try lia; try assumption.
  { intros E. apply RZ. apply (new_location_exact (Zpos (mant53 c))). apply Low, E. }
  { intros E. apply Ex. apply new_location_exact. apply RZ, E. }
  set (K' := 2 ^ (- (dx - 53 - (dc - 53) - 53 + j))).
  assert (HK' : 0 < K') by (apply Z.pow_pos_nonneg; lia).
  assert (KK : K = K' * 2 ^ j).
  { unfold K, K'. rewrite <- Z.pow_add_r by lia. f_equal. lia. }
  assert (H2j : 0 < 2 ^ j) by (apply Z.pow_pos_nonneg; lia).
  destruct (Z.eq_dec (Zpos x mod Zpos c) 0) as [Z0 | NZ].
  - specialize (Int Z0).
    assert (Em : Zpos m = Zpos x / Zpos c * K').
    { apply (Z.mul_reg_r _ _ (2 ^ j)); [lia |]. fold M. rewrite Int, KK. ring. }
    rewrite Em. split.
    + apply Z.div_mul. lia.
    + split; intros _; [assumption | apply Z.mod_mul; lia].
  - specialize (Frac NZ). rewrite KK in Frac. unfold M in Frac.
    assert (Zpos x / Zpos c * K' < Zpos m < (Zpos x / Zpos c + 1) * K')
      by (split; apply (Z.mul_lt_mono_pos_r (2 ^ j)); lia).
    assert (0 <= Zpos x / Zpos c) by (apply Z.div_pos; lia).
    split.
    + symmetry. apply (Z.div_unique _ _ _ (Zpos m - Zpos x / Zpos c * K')); lia.
    + split; intros Hz; [exfalso | contradiction].
      apply Z.mod_divide in Hz; [| lia]. destruct Hz as [k Hk].
      assert (Zpos x / Zpos c < k) by (apply (Z.mul_lt_mono_pos_r K'); lia).
      assert (k < Zpos x / Zpos c + 1) by (apply (Z.mul_lt_mono_pos_r K'); lia).
      lia.
Qed.

(** [static_cast<long long>(floor(static_cast<double>(x) / static_cast<double>(c)))]
    is the floor quotient for integers below [2^53]. *)
Lemma floor_div_double (x c : Z) :
  Z.abs x < two53 -> 8 <= c < two53 ->
  D2LL (Dfloor (Ddiv (Z2D x) (Z2D c))) = x / c.
Proof.
  intros Bx Bc. destruct c as [| c | c]; try lia.
  rewrite (Z2D_pos c) by lia.
  destruct x as [| x | x].
  - reflexivity.
  - rewrite Z2D_pos by lia.
    destruct (Ddiv_Z2D_finite false x c) as (m & e & -> & E & Bm & Q & _); try lia.
    rewrite D2LL_Dfloor_finite by assumption. exact Q.
  - rewrite Z2D_neg by lia.
    destruct (Ddiv_Z2D_finite true x c) as (m & e & -> & E & Bm & Q & R); try lia.
    rewrite D2LL_Dfloor_finite by assumption. cbn [cond_Zopp].
    change (Z.neg x) with (- Zpos x).
    assert (0 < 2 ^ (- e)) by (apply Z.pow_pos_nonneg; lia).
    destruct (Z.eq_dec (Zpos x mod Zpos c) 0) as [Z0 | NZ].
    + rewrite Z.div_opp_l_z, Z.div_opp_l_z by (lia || apply R; assumption). lia.
    + rewrite Z.div_opp_l_nz, Z.div_opp_l_nz; lia.
Qed.

(** Without [floor], the cast truncates the quotient toward zero. *)
Lemma trunc_div_double (x c : Z) :
  Z.abs x < two53 -> 8 <= c < two53 ->
  D2LL (Ddiv (Z2D x) (Z2D c)) = Z.quot x c.
Proof.
  intros Bx Bc. destruct c as [| c | c]; try lia.
  rewrite (Z2D_pos c) by lia.
  destruct x as [| x | x].
  - reflexivity.
  - rewrite Z2D_pos by lia.
    destruct (Ddiv_Z2D_finite false x c) as (m & e & -> & E & Bm & Q & _); try lia.
    unfold D2LL. destruct (Z.leb_spec 0 e); [lia |]. cbn [cond_Zopp].
    rewrite Q. symmetry. apply Z.quot_div_nonneg; lia.
  - rewrite Z2D_neg by lia.
    destruct (Ddiv_Z2D_finite true x c) as (m & e & -> & E & Bm & Q & _); try lia.
    unfold D2LL. destruct (Z.leb_spec 0 e); [lia |]. cbn [cond_Zopp].
    rewrite Q. change (Z.neg x) with (- Zpos x).
    rewrite Z.quot_opp_l by lia. f_equal. symmetry. apply Z.quot_div_nonneg; lia.
Qed.

Example floor_div_check : D2LL (Dfloor (Ddiv (Z2D (-13)) (Z2D 12))) = -2.
Proof. vm_compute. reflexivity. Qed.

(** ** Conversion of large integers *)

Lemma shr_1_m (mrs : shr_record) :
  0 <= shr_m mrs -> shr_m (shr_1 mrs) = shr_m mrs / 2.
Proof.
  destruct mrs as [m r s]. cbn [shr_m]. intros H.
  destruct m as [| [p | p |] | p]; cbn [shr_1 shr_m]; try lia.
  - reflexivity.
  - apply (Z.div_unique _ _ _ 1); lia.
  - apply (Z.div_unique _ _ _ 0); lia.
  - reflexivity.
Qed.

Lemma iter_pos_shr_1_m (k : positive) (mrs : shr_record) :
  0 <= shr_m mrs ->
  shr_m (iter_pos shr_1 k mrs) = shr_m mrs / 2 ^ Zpos k.
Proof.
  revert mrs. induction k as [k IH | k IH |]; intros mrs H; cbn [iter_pos].
  - assert (H1 : 0 <= shr_m (shr_1 mrs)).
    { rewrite shr_1_m by assumption. apply Z.div_pos; lia. }
    assert (H2 : 0 <= shr_m (iter_pos shr_1 k (shr_1 mrs))).
    { rewrite IH by assumption. apply Z.div_pos; [lia | apply Z.pow_pos_nonneg; lia]. }
    rewrite IH, IH, shr_1_m by assumption.
    rewrite !Z.div_div by (try (apply Z.pow_pos_nonneg); lia).
    f_equal.
    assert (E : 2 ^ Zpos k~1 = 2 * (2 ^ Zpos k * 2 ^ Zpos k)).
    { rewrite <- Z.pow_add_r, <- Z.pow_succ_r by lia. f_equal. lia. }
    rewrite E. ring.
  - assert (H2 : 0 <= shr_m (iter_pos shr_1 k mrs)).
    { rewrite IH by assumption. apply Z.div_pos; [lia | apply Z.pow_pos_nonneg; lia]. }
    rewrite IH, IH by assumption.
    rewrite !Z.div_div by (try (apply Z.pow_pos_nonneg); lia).
    f_equal.
    assert (E : 2 ^ Zpos k~0 = 2 ^ Zpos k * 2 ^ Zpos k).
    { rewrite <- Z.pow_add_r by lia. f_equal. lia. }
    rewrite E. ring.
  - apply shr_1_m, H.
Qed.

Lemma round_nearest_even_range (m : Z) (loc : location) :
  m <= round_nearest_even m loc <= m + 1.
Proof.
  destruct loc as [| []]; cbn [round_nearest_even]; try lia.
  destruct (Z.even m); lia.
Qed.

(** Past the exponent range the result is an infinity; otherwise the
    renormalised mantissa keeps the exponent or raises it by one. *)
Lemma round_finish_large (s : bool) (m1 e1 : Z) :
  2 ^ 52 <= m1 <= 2 ^ 53 -> -1000 <= e1 ->
  round_finish s m1 e1 = S754_infinity s
  \/ exists (m : positive) (j : Z),
       round_finish s m1 e1 = S754_finite s m (e1 + j) /\ 0 <= j <= 1.
Proof.
  intros B E. destruct m1 as [| p | p]; try lia.
  destruct (Z.eq_dec (Zpos p) (2 ^ 53)) as [T | T].
  - injection T as ->.
    unfold round_finish. rewrite shr_fexp_54 by (reflexivity || lia).
    cbn [shr_record_of_loc shr_1 shr_m].
    destruct (Z.leb_spec (e1 + 1) (demax - dprec)); [right | left; reflexivity].
    exists (4503599627370496%positive), 1. split; [reflexivity | lia].
  - assert (D : Zpos (digits2_pos p) = 53) by (apply digits2_pos_unique; simpl; lia).
    unfold round_finish. rewrite shr_fexp_53 by (assumption || lia).
    cbn [shr_record_of_loc shr_m].
    destruct (Z.leb_spec e1 (demax - dprec)); [right | left; reflexivity].
    exists p, 0. rewrite Z.add_0_r. split; [reflexivity | lia].
Qed.

(** An integer of more than 53 bits converts to an infinity or to a double
    with a positive exponent. *)
Lemma binary_round_large (s : bool) (p : positive) :
  two53 <= Zpos p ->
  binary_round dprec demax s p 0 = S754_infinity s
  \/ exists (m : positive) (e : Z),
       binary_round dprec demax s p 0 = S754_finite s m e /\ 1 <= e.
Proof.
  intros B. pose proof (digits2_pos_bounds p) as [L U].
  set (d := Zpos (digits2_pos p)) in *.
  assert (Hd : 54 <= d).
  { destruct (Z.le_gt_cases 54 d) as [| G]; [assumption | exfalso].
    assert (2 ^ d <= 2 ^ 53) by (apply Z.pow_le_mono_r; lia).
    unfold two53 in B. lia. }
  unfold binary_round, shl_align. fold d.
  assert (F : fexp dprec demax (d + 0) = d - 53)
    by (unfold fexp, emin, dprec, demax; lia).
  rewrite F. destruct (d - 53 - 0) as [| k | k] eqn:Ek; try lia.
  rewrite binary_round_aux_split.
  assert (S : shr_fexp dprec demax (Zpos p) 0 loc_Exact
              = (iter_pos shr_1 k (shr_record_of_loc (Zpos p) loc_Exact), 0 + Zpos k)).
  { unfold shr_fexp. cbn [Zdigits2]. fold d. rewrite F.
    replace (d - 53 - 0) with (Zpos k) by lia. reflexivity. }
  rewrite S. cbn [fst snd].
  set (mrs := iter_pos shr_1 k (shr_record_of_loc (Zpos p) loc_Exact)).
  assert (M : shr_m mrs = Zpos p / 2 ^ Zpos k).
  { unfold mrs. rewrite iter_pos_shr_1_m; cbn [shr_record_of_loc shr_m]; [reflexivity | lia]. }
  assert (R : 2 ^ 52 <= shr_m mrs < 2 ^ 53).
  { rewrite M. replace (Zpos k) with (d - 53) by lia.
    assert (0 < 2 ^ (d - 53)) by (apply Z.pow_pos_nonneg; lia).
    assert (E1 : 2 ^ (d - 1) = 2 ^ 52 * 2 ^ (d - 53))
      by (rewrite <- Z.pow_add_r by lia; f_equal; lia).
    assert (E2 : 2 ^ d = 2 ^ 53 * 2 ^ (d - 53))
      by (rewrite <- Z.pow_add_r by lia; f_equal; lia).
    split.
    - apply Z.div_le_lower_bound; lia.
    - apply Z.div_lt_upper_bound; lia. }
  pose proof (round_nearest_even_range (shr_m mrs) (loc_of_shr_record mrs)) as RN.
  destruct (round_finish_large s
              (round_nearest_even (shr_m mrs) (loc_of_shr_record mrs)) (0 + Zpos k))
    as [I | (m & j & Fm & J)]; [lia | lia | left; exact I | right].
  exists m, (0 + Zpos k + j). split; [exact Fm | lia].
Qed.

(** Conversion to [double] preserves the comparison with a small positive
    integer, whatever the size of the converted integer. *)
Lemma Dleb_Z2D_any (a : Z) (b : positive) :
  Zpos b < two53 -> Dleb (Z2D a) (Z2D (Zpos b)) = (a <=? Zpos b).
Proof.
  intros Bb. destruct (Z.lt_ge_cases (Z.abs a) two53) as [S | L].
  - apply Dleb_Z2D; assumption.
  - rewrite (Z2D_pos b) by assumption.
    destruct (mant53_value b Bb) as (_ & Hd & _).
    destruct a as [| p | p]; [unfold two53 in L; simpl in L; lia | |].
    + destruct (Z.leb_spec (Zpos p) (Zpos b)) as [C | _]; [lia |].
      unfold Z2D, binary_normalize.
      destruct (binary_round_large false p ltac:(lia)) as [-> | (m & e & -> & E)];
        [reflexivity |].
      unfold Dleb, SFleb, SFcompare.
      destruct (Z.compare_spec e (Zpos (digits2_pos b) - 53));
        solve [lia | reflexivity].
    + destruct (Z.leb_spec (Zneg p) (Zpos b)) as [_ | C]; [| lia].
      unfold Z2D, binary_normalize.
      destruct (binary_round_large true p ltac:(lia)) as [-> | (m & e & -> & E)];
        reflexivity.
Qed.

(** The bound of [secInLimits], computed in [double], is the integer
    bound. *)
Lemma secInLimits_spec (st : State) (t : smart_tm) :
  secInLimits st t = (0 <=? sec t) && (sec t <=? numSecondsOfMinute st t - 1).
Proof.
  unfold secInLimits, START_SEC, numSecondsOfMinute. f_equal.
  destruct (isLeapMinute st t); simpl Z.add.
  - rewrite sixty_one_minus_one. apply Dleb_Z2D_any. reflexivity.
  - rewrite sixty_minus_one. apply Dleb_Z2D_any. reflexivity.
Qed.
(** ** The closed form of [toEpoch] *)

Lemma walked_condition (t ls : smart_tm) :
  tm_gt t ls && negb (equalsNoFrac t ls) = before_noFrac ls t.
Proof.
  destruct t as [y1 m1 d1 h1 n1 s1 f1], ls as [y2 m2 d2 h2 n2 s2 f2].
  unfold tm_gt, tm_lt, equalsNoFrac, before_noFrac. cbn.
  rewrite (Z.eqb_sym y1 y2), (Z.eqb_sym m1 m2), (Z.eqb_sym d1 d2),
    (Z.eqb_sym h1 h2), (Z.eqb_sym n1 n2), (Z.eqb_sym s1 s2).
  destruct (Z.eqb_spec y2 y1);
    [| cbn; rewrite andb_true_r, orb_false_r; reflexivity].
  destruct (Z.eqb_spec m2 m1);
    [| cbn; rewrite andb_true_r, orb_false_r, Z.ltb_antisym;
       destruct (Z.leb_spec y1 y2); cbn; try reflexivity; lia].
  destruct (Z.eqb_spec d2 d1);
    [| cbn; rewrite andb_true_r, orb_false_r, (Z.ltb_antisym y1), (Z.ltb_antisym m1);
       destruct (Z.leb_spec y1 y2), (Z.leb_spec m1 m2); cbn; try reflexivity; lia].
  destruct (Z.eqb_spec h2 h1);
    [| cbn; rewrite andb_true_r, orb_false_r, (Z.ltb_antisym y1), (Z.ltb_antisym m1),
         (Z.ltb_antisym d1);
       destruct (Z.leb_spec y1 y2), (Z.leb_spec m1 m2), (Z.leb_spec d1 d2); cbn;
       try reflexivity; lia].
  destruct (Z.eqb_spec n2 n1);
    [| cbn; rewrite andb_true_r, orb_false_r, (Z.ltb_antisym y1), (Z.ltb_antisym m1),
         (Z.ltb_antisym d1), (Z.ltb_antisym h1);
       destruct (Z.leb_spec y1 y2), (Z.leb_spec m1 m2), (Z.leb_spec d1 d2),
         (Z.leb_spec h1 h2); cbn; try reflexivity; lia].
  destruct (Z.eqb_spec s2 s1);
    [| cbn; rewrite andb_true_r, !orb_false_r, (Z.ltb_antisym y1), (Z.ltb_antisym m1),
         (Z.ltb_antisym d1), (Z.ltb_antisym h1), (Z.ltb_antisym n1);
       destruct (Z.leb_spec y1 y2), (Z.leb_spec m1 m2), (Z.leb_spec d1 d2),
         (Z.leb_spec h1 h2), (Z.leb_spec n1 n2); cbn; try reflexivity; lia].
  cbn. rewrite andb_false_r, !orb_false_r.
  rewrite (Z.ltb_antisym y1), (Z.ltb_antisym m1), (Z.ltb_antisym d1),
    (Z.ltb_antisym h1), (Z.ltb_antisym n1), (Z.ltb_antisym s1).
  destruct (Z.leb_spec y1 y2), (Z.leb_spec m1 m2), (Z.leb_spec d1 d2),
    (Z.leb_spec h1 h2), (Z.leb_spec n1 n2), (Z.leb_spec s1 s2); cbn;
    try reflexivity; lia.
Qed.

Lemma leapSecondsWalkedThroughSinceEpoch_fold (t : smart_tm) (l : list smart_tm) (acc : Z) :
  wrap64
    (fold_left
       (fun ret ls =>
          if tm_gt t ls && negb (equalsNoFrac t ls) then wrap64 (ret + 1) else ret)
       l acc)
  = wrap64 (acc + Z.of_nat (List.length (filter (fun ls => before_noFrac ls t) l))).
Proof.
  revert acc. induction l as [| ls l IH]; intros acc; simpl.
  - f_equal. lia.
  - rewrite IH, walked_condition. destruct (before_noFrac ls t).
    + cbn [List.length]. rewrite wrap64_add_l. f_equal. lia.
    + reflexivity.
Qed.

Lemma leapSecondsWalkedThroughSinceEpoch_count (st : State) (t : smart_tm) :
  wrap64 (leapSecondsWalkedThroughSinceEpoch st t) = wrap64 (leapInstantsBefore st t).
Proof.
  unfold leapSecondsWalkedThroughSinceEpoch, leapInstantsBefore.
  rewrite leapSecondsWalkedThroughSinceEpoch_fold. reflexivity.
Qed.

Lemma toEpoch_months_sum (n : nat) (i sum : Z) :
  wrap64 (toEpoch_months n i sum) = wrap64 (sum + days_from n i * SECONDS_PER_DAY).
Proof.
  revert i sum. induction n as [| n IH]; intros i sum; simpl.
  - f_equal. lia.
  - rewrite IH, wrap64_add_l. f_equal. lia.
Qed.

Lemma days_from_table (m : Z) :
  m <= 13 -> days_from (Z.to_nat (m - 1)) 0 = daysBeforeMonth m.
Proof.
  intros H. unfold daysBeforeMonth.
  destruct (Z.le_gt_cases m 0) as [L | L].
  - replace (Z.to_nat (m - 1)) with O by lia. reflexivity.
  - assert (E : exists k, (k <= 12)%nat /\ Z.to_nat (m - 1) = k)
      by (exists (Z.to_nat (m - 1)); lia).
    destruct E as (k & Hk & ->).
    do 13 (destruct k as [| k]; [reflexivity |]). lia.
Qed.

Lemma toEpoch_wrap (st : State) (t : smart_tm) :
  mon t <= 13 -> toEpoch st t = wrap64 (toEpoch_sum st t).
Proof.
  intros Hm. unfold toEpoch, leapDaysWalkedThroughSinceEpoch.
  unfold START_SEC, START_DAY, START_HR, START_MIN.
  rewrite Z.sub_0_r, wrap64_idem, wrap64_add_l.
  replace (toEpoch_sum st t) with
    (daysBeforeMonth (mon t) * SECONDS_PER_DAY
     + ((yr t - yr (epoch st)) * SECONDS_PER_YEAR + (day t - 1) * SECONDS_PER_DAY
        + (hr t - 0) * SECONDS_PER_HOUR + (min t - 0) * TYPICAL_SECONDS_PER_MINUTE
        + leapDaysWalkedThroughFrom (epoch st) t * SECONDS_PER_DAY
        + leapInstantsBefore st t)
     + sec t)
    by (unfold toEpoch_sum, SECONDS_PER_YEAR, SECONDS_PER_DAY, SECONDS_PER_HOUR,
          TYPICAL_SECONDS_PER_MINUTE; lia).
  apply wrap64_add_congr; [| reflexivity].
  apply wrap64_add_congr.
  - rewrite toEpoch_months_sum, days_from_table by assumption. reflexivity.
  - rewrite wrap64_idem.
    apply wrap64_add_congr; [| apply leapSecondsWalkedThroughSinceEpoch_count].
    rewrite wrap64_idem.
    apply wrap64_add_congr; [| rewrite wrap64_idem; apply wrap64_mul_congr, wrap64_idem].
    rewrite wrap64_idem.
    apply wrap64_add_congr; [| reflexivity].
    rewrite wrap64_idem.
    apply wrap64_add_congr; [| reflexivity].
    rewrite wrap64_idem.
    apply wrap64_add_congr; [| reflexivity].
    apply wrap64_idem.
Qed.

(** C3 as stated fails: the result type is [size_t]. One second before
    the Epoch Reference, after a first initialisation with epoch year 1990,
    the sum is -1 and [toEpoch] returns [2^64 - 1]. *)
Lemma toEpoch_is_sum_counterexample :
  let t := mk_tm 1989 12 31 23 59 59 zero_frac in
  initialized state_1990 = true
  /\ toEpoch_sum state_1990 t = -1
  /\ toEpoch state_1990 t = two64 - 1
  /\ toEpoch state_1990 t <> toEpoch_sum state_1990 t.
Proof.
  split; [vm_compute; reflexivity |]. split; [vm_compute; reflexivity |].
  split; [vm_compute; reflexivity |]. vm_compute. discriminate.
Qed.

(** C3, amended. For every timestamp whose month field is at most 13,
    [toEpoch] is, reduced modulo [2^64] (the result type is a 64-bit
    unsigned integer), the sum of the seconds of the canonical months before
    the month, 365-day years since the epoch year, days, hours and minutes,
    86400 times the leap-day count from the Epoch Reference (timestamp
    overload), the number of recorded leap instants strictly before the
    timestamp, and the second field; it is the sum itself exactly when the
    sum is a 64-bit unsigned value. With a month field above 13 the month
    loop of the source reads past the end of the [days] table. *)
Theorem toEpoch_is_sum (st : State) (t : smart_tm) :
  mon t <= 13 ->
  toEpoch st t = wrap64 (toEpoch_sum st t)
  /\ (toEpoch st t = toEpoch_sum st t <-> 0 <= toEpoch_sum st t < two64).
Proof.
  intros Hm. split; [apply toEpoch_wrap, Hm |]. split.
  - intros E. rewrite <- E. unfold toEpoch. apply wrap64_range.
  - intros R. rewrite toEpoch_wrap by assumption. apply wrap64_small, R.
Qed.

(** The closed form at 2012-07-12 10:51:18 after a first initialisation
    with epoch year 1990. *)
Lemma toEpoch_is_sum_witness :
  mon (mk_tm 2012 7 12 10 51 18 zero_frac) <= 13
  /\ (toEpoch state_1990 (mk_tm 2012 7 12 10 51 18 zero_frac)
      = wrap64 (toEpoch_sum state_1990 (mk_tm 2012 7 12 10 51 18 zero_frac))
      /\ (toEpoch state_1990 (mk_tm 2012 7 12 10 51 18 zero_frac)
          = toEpoch_sum state_1990 (mk_tm 2012 7 12 10 51 18 zero_frac)
          <-> 0 <= toEpoch_sum state_1990 (mk_tm 2012 7 12 10 51 18 zero_frac)
              < two64)).
Proof.
  assert (Hm : mon (mk_tm 2012 7 12 10 51 18 zero_frac) <= 13) by (simpl; lia).
  split; [exact Hm |].
  exact (toEpoch_is_sum state_1990 (mk_tm 2012 7 12 10 51 18 zero_frac) Hm).
Defined.

Example toEpoch_2012_07_12 :
  toEpoch state_1990 (mk_tm 2012 7 12 10 51 18 zero_frac) = 710938288
  /\ toEpoch_sum state_1990 (mk_tm 2012 7 12 10 51 18 zero_frac) = 710938288.
Proof. split; vm_compute; reflexivity. Qed.

(** ** The epoch-offset leap-second counter *)

Lemma count_up_fold (p : Z -> bool) (l : list Z) (acc : Z) :
  fold_left (fun ret d => if p d then ret + 1 else ret) l acc
  = acc + Z.of_nat (List.length (filter p l)).
Proof.
  revert acc. induction l as [| d l IH]; intros acc; simpl; [lia |].
  rewrite IH. destruct (p d); cbn [List.length]; lia.
Qed.

Lemma count_down_fold (p : Z -> bool) (l : list Z) (acc : Z) :
  fold_left (fun ret d => if p d then ret - 1 else ret) l acc
  = acc - Z.of_nat (List.length (filter p l)).
Proof.
  revert acc. induction l as [| d l IH]; intros acc; simpl; [lia |].
  rewrite IH. destruct (p d); cbn [List.length]; lia.
Qed.

Lemma filter_ext_length (p q : Z -> bool) (l : list Z) :
  (forall d, p d = q d) -> List.length (filter p l) = List.length (filter q l).
Proof. intros E. rewrite (filter_ext p q E). reflexivity. Qed.

Lemma leapSecondsWalkedThroughFrom_forward (deltas : list Z) (start end_ : Z) :
  start < end_ ->
  leapSecondsWalkedThroughFrom deltas start end_ = entriesBetween deltas start end_.
Proof.
  intros H. unfold leapSecondsWalkedThroughFrom, entriesBetween.
  destruct (Z.ltb_spec start end_) as [_ | C]; [| lia].
  rewrite (count_up_fold (fun d => (d <=? end_) && (start <=? d))). simpl.
  f_equal. apply filter_ext_length. intros d. apply andb_comm.
Qed.

Lemma leapSecondsWalkedThroughFrom_backward (deltas : list Z) (start end_ : Z) :
  end_ <= start ->
  leapSecondsWalkedThroughFrom deltas start end_ = - entriesBetween deltas end_ start.
Proof.
  intros H. unfold leapSecondsWalkedThroughFrom, entriesBetween.
  destruct (Z.ltb_spec start end_) as [C | _]; [lia |].
  rewrite (count_down_fold (fun d => (d <=? start) && (end_ <=? d))). simpl.
  f_equal. f_equal. apply filter_ext_length. intros d. apply andb_comm.
Qed.

Lemma entriesBetween_point (deltas : list Z) (x : Z) :
  entriesBetween deltas x x = Z.of_nat (count_occ Z.eq_dec deltas x).
Proof.
  unfold entriesBetween. f_equal.
  induction deltas as [| d l IH]; simpl; [reflexivity |].
  destruct (Z.eq_dec d x) as [-> | N].
  - rewrite !Z.leb_refl. simpl. f_equal. exact IH.
  - destruct (Z.leb_spec x d), (Z.leb_spec d x); simpl; try exact IH. lia.
Qed.

(** C4 as stated fails: in the state reached by a first initialisation with
    epoch year 1990, the first delta is 31536000, and the counter applied to
    the zero-length interval at that value is -1, not 0. *)
Lemma leapSecondsWalkedThroughFrom_point_counterexample :
  In 31536000 (leapSecondDeltas state_1990)
  /\ leapSecondsWalkedThroughFrom (leapSecondDeltas state_1990) 31536000 31536000 = -1.
Proof. split; [vm_compute; left; reflexivity | vm_compute; reflexivity]. Qed.

(** C4, amended. The counter returns the number of delta-list entries in
    the closed interval between [start] and [end], positive when
    [end > start] and negated when [end < start]; when [start = end] it
    returns minus the number of entries equal to [start], which is zero
    exactly when [start] is not an entry of the list. *)
Theorem leapSecondsWalkedThroughFrom_counts (deltas : list Z) (start end_ : Z) :
  (start < end_ ->
   leapSecondsWalkedThroughFrom deltas start end_ = entriesBetween deltas start end_)
  /\ (end_ < start ->
      leapSecondsWalkedThroughFrom deltas start end_ = - entriesBetween deltas end_ start)
  /\ (start = end_ ->
      leapSecondsWalkedThroughFrom deltas start end_
      = - Z.of_nat (count_occ Z.eq_dec deltas start)
      /\ (leapSecondsWalkedThroughFrom deltas start end_ = 0 <-> ~ In start deltas)).
Proof.
  split; [apply leapSecondsWalkedThroughFrom_forward |].
  split; [intros H; apply leapSecondsWalkedThroughFrom_backward; lia |].
  intros <-.
  rewrite leapSecondsWalkedThroughFrom_backward, entriesBetween_point by lia.
  split; [reflexivity |].
  rewrite (count_occ_not_In Z.eq_dec). lia.
Qed.

(** ** The two leap-day counters on year boundaries *)

Lemma isLeapYear_u_member (y : Z) :
  0 <= y -> isLeapYear (january_first y) = isLeapYear_u y.
Proof.
  intros H. unfold isLeapYear, isLeapYear_u. simpl.
  rewrite !Z.rem_mod_nonneg by lia. reflexivity.
Qed.

Lemma to_signed64_wrap64 (x : Z) : to_signed64 (wrap64 x) = to_signed64 x.
Proof. unfold to_signed64. rewrite wrap64_idem. reflexivity. Qed.

Lemma calcYr_year_overload (y : Z) :
  0 <= y < two63 ->
  to_signed64 (if isLeapYear_u y then wrap64 (y - 1) else y)
  = excluding_own_leap_day y.
Proof.
  intros H. unfold excluding_own_leap_day. destruct (isLeapYear_u y).
  - rewrite to_signed64_wrap64. apply to_signed64_small. unfold two63 in *. lia.
  - apply to_signed64_small. unfold two63 in *. lia.
Qed.

Lemma calcYr_of_january_first (y : Z) :
  0 <= y -> calcYr_of (january_first y) = excluding_own_leap_day y.
Proof.
  intros H. unfold calcYr_of, excluding_own_leap_day.
  rewrite isLeapYear_u_member by assumption. simpl.
  rewrite andb_true_r. reflexivity.
Qed.

Lemma leapCount_floor (y : Z) : 0 <= y -> leapCount y = leapDaysBefore y.
Proof.
  intros H. unfold leapCount, leapDaysBefore.
  rewrite !Z.quot_div_nonneg by lia. reflexivity.
Qed.

Lemma excluding_own_leap_day_nonneg (y : Z) : 1 <= y -> 0 <= excluding_own_leap_day y.
Proof. intros H. unfold excluding_own_leap_day. destruct (isLeapYear_u y); lia. Qed.

(** C7. On whole-year boundaries the two leap-day counters agree: for
    years [s] and [e] (any non-negative years, in particular the supported
    ones up to 9999) the year overload returns what the timestamp overload
    returns on January 1, 00:00:00.0 of [s] and [e]; the year overload
    replaces a leap year by its predecessor before applying the formula,
    which for years from 1 on is the floor formula y/4 + y/400 - y/100. *)
Theorem leapDaysWalkedThroughFrom_overloads_agree (s e : Z) :
  0 <= s < two63 -> 0 <= e < two63 ->
  leapDaysWalkedThroughFrom_yr s e
  = leapDaysWalkedThroughFrom (january_first s) (january_first e)
  /\ leapDaysWalkedThroughFrom_yr s e
     = leapCount (excluding_own_leap_day e) - leapCount (excluding_own_leap_day s)
  /\ (1 <= s -> 1 <= e ->
      leapDaysWalkedThroughFrom_yr s e
      = leapDaysBefore (excluding_own_leap_day e)
        - leapDaysBefore (excluding_own_leap_day s)).
Proof.
  intros Hs He.
  assert (E : leapDaysWalkedThroughFrom_yr s e
              = leapCount (excluding_own_leap_day e)
                - leapCount (excluding_own_leap_day s)).
  { unfold leapDaysWalkedThroughFrom_yr.
    rewrite !calcYr_year_overload by assumption. reflexivity. }
  split; [| split].
  - rewrite E. unfold leapDaysWalkedThroughFrom.
    rewrite !calcYr_of_january_first by lia. reflexivity.
  - exact E.
  - intros Ps Pe. rewrite E.
    rewrite !leapCount_floor by (apply excluding_own_leap_day_nonneg; assumption).
    reflexivity.
Qed.

Lemma leapDaysWalkedThroughFrom_overloads_agree_witness :
  (0 <= 1900 < two63 /\ 0 <= 2012 < two63)
  /\ (leapDaysWalkedThroughFrom_yr 1900 2012
      = leapDaysWalkedThroughFrom (january_first 1900) (january_first 2012)
      /\ leapDaysWalkedThroughFrom_yr 1900 2012
         = leapCount (excluding_own_leap_day 2012)
           - leapCount (excluding_own_leap_day 1900)
      /\ (1 <= 1900 -> 1 <= 2012 ->
          leapDaysWalkedThroughFrom_yr 1900 2012
          = leapDaysBefore (excluding_own_leap_day 2012)
            - leapDaysBefore (excluding_own_leap_day 1900))).
Proof.
  assert (Hs : 0 <= 1900 < two63) by (unfold two63; lia).
  assert (He : 0 <= 2012 < two63) by (unfold two63; lia).
  split; [split; assumption |].
  exact (leapDaysWalkedThroughFrom_overloads_agree 1900 2012 Hs He).
Defined.

Example leapDays_1900_2012 : leapDaysWalkedThroughFrom_yr 1900 2012 = 27.
Proof. reflexivity. Qed.

(** ** Initialisation failure *)

(** C8 as stated fails: when the file cannot be opened after an earlier
    successful initialisation, the tables are not empty and the system is
    still initialized. *)
Lemma init_open_failure_counterexample :
  let st := init 2000 "missing.list" None state_1990 in
  leapSecondTMs st <> [] /\ leapSecondDeltas st <> [] /\ initialized st = true.
Proof. vm_compute. repeat split; discriminate. Qed.

(** C8, amended. If [init] is called with a file that cannot be opened,
    a diagnostic is emitted and nothing else changes: the two tables, the
    Epoch Reference (in particular its year) and the initialized flag are
    exactly what they were before the call, for every prior state. So the
    tables are empty and the system uninitialized after the call exactly
    when they were before it. *)
Theorem init_open_failure (epochYr : Z) (leapFile : string) (st : State) :
  let st' := init epochYr leapFile None st in
  cerr st' = cerr st ++ [("ERROR: Failed to open " ++ leapFile ++ ".")%string]
  /\ leapSecondTMs st' = leapSecondTMs st
  /\ leapSecondDeltas st' = leapSecondDeltas st
  /\ epoch st' = epoch st
  /\ initialized st' = initialized st.
Proof. simpl. repeat split. Qed.

(** ** The default constructor *)

Lemma init_step_epoch (d : Z) (acc : State * Z) (line : string) :
  epoch (fst (init_step d acc line)) = epoch (fst acc).
Proof.
  destruct acc as [st k]. unfold init_step.
  destruct (d <? strtoull (leading_digits line)); reflexivity.
Qed.

Lemma init_loop_epoch (d : Z) (lines : list string) (acc : State * Z) :
  epoch (fst (fold_left (init_step d) lines acc)) = epoch (fst acc).
Proof.
  revert acc. induction lines as [| line lines IH]; intros acc; simpl.
  - reflexivity.
  - rewrite IH. apply init_step_epoch.
Qed.

Lemma init_epoch (epochYr : Z) (leapFile : string) (file : list string) (st : State) :
  epoch (init epochYr leapFile (Some file) st) = set_yr (epoch st) epochYr.
Proof.
  unfold init.
  match goal with
  | |- context [fold_left ?f ?l ?a] =>
      pose proof (init_loop_epoch (numSecondsBetweenEpochs DEFAULT_EPOCH_YEAR
                                     (wrap64 epochYr)) l a) as H;
      destruct (fold_left f l a) as [st' k]
  end.
  simpl in *. rewrite H. reflexivity.
Qed.

Lemma configured_epoch (st : State) (y : Z) :
  configured st y ->
  epoch st = mk_tm y START_MON START_DAY START_HR START_MIN START_SEC START_FRAC_SEC.
Proof.
  induction 1 as [| st y epochYr leapFile file _ IH
                  | st y epochYr leapFile _ IH | st y _ IH].
  - reflexivity.
  - rewrite init_epoch, IH. reflexivity.
  - exact IH.
  - unfold checkInit. destruct (initialized st); exact IH.
Qed.

Lemma isValid_epoch (st : State) (y : Z) :
  epoch st = mk_tm y START_MON START_DAY START_HR START_MIN START_SEC START_FRAC_SEC ->
  isValid st (epoch st) = (y <=? END_YR).
Proof.
  intros E. unfold isValid, yrInLimits, monInLimits, dayInLimits, hrInLimits,
    minInLimits, secInLimits, fracSecInLimits, numDaysOfMonth, numSecondsOfMinute.
  destruct (isLeapMinute st (epoch st)); rewrite E; simpl;
    rewrite Z.leb_refl; simpl; rewrite !andb_true_r; reflexivity.
Qed.

Lemma toEpoch_epoch (st : State) (y : Z) :
  epoch st = mk_tm y START_MON START_DAY START_HR START_MIN START_SEC START_FRAC_SEC ->
  leapInstantsBefore st (epoch st) = 0 ->
  toEpoch st (epoch st) = 0.
Proof.
  intros E L. rewrite toEpoch_wrap by (rewrite E; unfold START_MON; simpl; lia).
  unfold toEpoch_sum, leapDaysWalkedThroughFrom. rewrite L, E. simpl.
  rewrite Z.sub_diag, Z.sub_diag. reflexivity.
Qed.

(** C10 as stated fails: the epoch year is not checked, and after
    [init(10000, ...)] the default-constructed timestamp is not valid. *)
Lemma default_constructor_counterexample :
  let st := init 10000 "leap-seconds.list" (Some leap_seconds_list) initial_State in
  configured st 10000 /\ isValid st (smart_tm_default st) = false.
Proof.
  split.
  - apply (configured_init _ DEFAULT_EPOCH_YEAR), configured_start.
  - vm_compute. reflexivity.
Qed.

(** C10, amended. The default constructor always produces an exact
    fieldwise copy of the Epoch Reference: year equal to the configured
    epoch year (1900 before any successful initialisation), month 1, day 1,
    hour 0, minute 0, second 0, fractional second 0.0. That timestamp is
    valid exactly when the configured epoch year is at most 9999, and its
    [toEpoch] is 0 when no recorded leap instant precedes the Epoch
    Reference. *)
Theorem default_constructor_is_epoch (st : State) (y : Z) :
  configured st y ->
  smart_tm_default st = epoch st
  /\ smart_tm_default st
     = mk_tm y START_MON START_DAY START_HR START_MIN START_SEC START_FRAC_SEC
  /\ isValid st (smart_tm_default st) = (y <=? END_YR)
  /\ (leapInstantsBefore st (epoch st) = 0 -> toEpoch st (smart_tm_default st) = 0).
Proof.
  intros C. pose proof (configured_epoch st y C) as E.
  unfold smart_tm_default. repeat split.
  - exact E.
  - apply isValid_epoch, E.
  - apply (toEpoch_epoch st y E).
Qed.

Lemma default_constructor_is_epoch_witness :
  configured state_1990 1990
  /\ (smart_tm_default state_1990 = epoch state_1990
      /\ smart_tm_default state_1990
         = mk_tm 1990 START_MON START_DAY START_HR START_MIN START_SEC START_FRAC_SEC
      /\ isValid state_1990 (smart_tm_default state_1990) = (1990 <=? END_YR)
      /\ (leapInstantsBefore state_1990 (epoch state_1990) = 0 ->
          toEpoch state_1990 (smart_tm_default state_1990) = 0)).
Proof.
  assert (C : configured state_1990 1990)
    by exact (configured_init initial_State DEFAULT_EPOCH_YEAR 1990
                "leap-seconds.list" leap_seconds_list configured_start).
  split; [exact C |].
  exact (default_constructor_is_epoch state_1990 1990 C).
Defined.

(** ** A leap second is a valid instant *)

Lemma init_TMs (epochYr : Z) (leapFile : string) (file : list string) (st : State) :
  leapSecondTMs (init epochYr leapFile (Some file) st)
  = leapSecondTMs
      (fst (fold_left
              (init_step (numSecondsBetweenEpochs DEFAULT_EPOCH_YEAR (wrap64 epochYr)))
              (getLines file) (mk_State [] [] (epoch st) true (cerr st), 0))).
Proof.
  unfold init. cbn [leapSecondTMs leapSecondDeltas epoch initialized cerr].
  match goal with
  | |- context [fold_left ?f ?l ?a] => destruct (fold_left f l a) as [st' k]
  end.
  reflexivity.
Qed.

Lemma init_step_TMs_grow (d : Z) (acc : State * Z) (line : string) :
  exists more,
    leapSecondTMs (fst (init_step d acc line)) = leapSecondTMs (fst acc) ++ more.
Proof.
  destruct acc as [st k]. unfold init_step.
  destruct (d <? strtoull (leading_digits line)).
  - eexists. reflexivity.
  - exists []. rewrite app_nil_r. reflexivity.
Qed.

Lemma init_loop_TMs_grow (d : Z) (lines : list string) (acc : State * Z) :
  exists more,
    leapSecondTMs (fst (fold_left (init_step d) lines acc))
    = leapSecondTMs (fst acc) ++ more.
Proof.
  revert acc. induction lines as [| line lines IH]; intros acc; simpl.
  - exists []. rewrite app_nil_r. reflexivity.
  - destruct (IH (init_step d acc line)) as [more1 E1].
    destruct (init_step_TMs_grow d acc line) as [more2 E2].
    exists (more2 ++ more1). rewrite E1, E2, app_assoc. reflexivity.
Qed.

Lemma isLeapMinute_table (st : State) (t : smart_tm) :
  isLeapMinute st t = leapMinuteIn (leapSecondTMs st) t.
Proof. reflexivity. Qed.

Lemma leapMinuteIn_app (l more : list smart_tm) (t : smart_tm) :
  leapMinuteIn l t = true -> leapMinuteIn (l ++ more) t = true.
Proof. intros H. unfold leapMinuteIn in *. rewrite existsb_app, H. reflexivity. Qed.

(** After the lines through 2012 have been read with epoch year 1990, the
    minute 2012-06-30 23:59 is in the table. *)
Lemma leap_minute_2012_read :
  leapMinuteIn
    (leapSecondTMs
       (fst (fold_left
               (init_step (numSecondsBetweenEpochs DEFAULT_EPOCH_YEAR (wrap64 1990)))
               (getLines leap_seconds_through_2012)
               (mk_State [] [] (epoch initial_State) true (cerr initial_State), 0))))
    (mk_tm 2012 6 30 23 59 60 zero_frac) = true.
Proof. vm_compute. reflexivity. Qed.

(** A first initialisation records the leap second. Start from the
    process's initial statics and call [init] with
    epoch year 1990 and a leap-second file whose data lines begin with the
    official entries through the one of the 2012-06-30 leap second
    (3550089600), followed by any further lines. Then the timestamp
    (2012, 6, 30, 23, 59, 60, 0.0) is valid and its second field is 60; its
    minute is a leap minute of 61 seconds, the valid second values of that
    minute being exactly 0..60. *)
Theorem leap_second_2012_06_30_is_valid (leapFile : string)
    (file rest : list string) :
  getLines file = getLines leap_seconds_through_2012 ++ rest ->
  let st := init 1990 leapFile (Some file) initial_State in
  let t := mk_tm 2012 6 30 23 59 60 zero_frac in
  isValid st t = true
  /\ sec t = 60
  /\ isLeapMinute st t = true
  /\ numSecondsOfMinute st t = 61
  /\ (forall s : Z, isValid st (set_sec t s) = true <-> 0 <= s <= 60).
Proof.
  intros Hfile st t.
  assert (HE : epoch st
               = mk_tm 1990 START_MON START_DAY START_HR START_MIN START_SEC
                   START_FRAC_SEC)
    by (unfold st; rewrite init_epoch; reflexivity).
  assert (HL : forall s, isLeapMinute st (set_sec t s) = true).
  { intros s. rewrite isLeapMinute_table. unfold st. rewrite init_TMs, Hfile.
    rewrite fold_left_app.
    match goal with
    | |- context [fold_left ?f rest ?a] =>
        destruct (init_loop_TMs_grow
                    (numSecondsBetweenEpochs DEFAULT_EPOCH_YEAR (wrap64 1990)) rest a)
          as [more ->]
    end.
    apply leapMinuteIn_app. exact leap_minute_2012_read. }
  assert (HV : forall s : Z, isValid st (set_sec t s) = true <-> 0 <= s <= 60).
  { intros s. unfold isValid. rewrite secInLimits_spec.
    unfold numSecondsOfMinute. rewrite HL.
    unfold yrInLimits, monInLimits, dayInLimits, hrInLimits, minInLimits,
      fracSecInLimits, numDaysOfMonth. rewrite HE. cbn.
    rewrite andb_true_r.
    destruct (Z.leb_spec 0 s), (Z.leb_spec s 60); cbn; split; intros; try lia;
      try discriminate; reflexivity. }
  pose proof (HL 60) as H60. change (set_sec t 60) with t in H60.
  split; [| split; [| split; [| split]]].
  - exact (proj2 (HV 60) ltac:(lia)).
  - reflexivity.
  - exact H60.
  - unfold numSecondsOfMinute. rewrite H60. reflexivity.
  - exact HV.
Qed.

Lemma leap_second_2012_06_30_is_valid_witness :
  getLines leap_seconds_list
  = getLines leap_seconds_through_2012 ++ ["3644697600	36	# 1 Jul 2015"%string]
  /\ (let st := init 1990 "leap-seconds.list" (Some leap_seconds_list) initial_State in
      let t := mk_tm 2012 6 30 23 59 60 zero_frac in
      isValid st t = true
      /\ sec t = 60
      /\ isLeapMinute st t = true
      /\ numSecondsOfMinute st t = 61
      /\ (forall s : Z, isValid st (set_sec t s) = true <-> 0 <= s <= 60)).
Proof.
  assert (H : getLines leap_seconds_list
              = getLines leap_seconds_through_2012
                ++ ["3644697600	36	# 1 Jul 2015"%string])
    by reflexivity.
  split; [exact H |].
  exact (leap_second_2012_06_30_is_valid "leap-seconds.list" leap_seconds_list
           ["3644697600	36	# 1 Jul 2015"%string] H).
Defined.

(** C6. The claim fails on the code when [init] runs a second time.
    [init] empties both tables, computes the deltas against the new epoch
    year and builds every leap instant with the constructor from an epoch
    offset counted from 1900, but [epoch.yr] is assigned only in its last
    statement: during a second [init(1990, ...)] the constructor counts
    from 1990, and the leap instants are recorded 90 years late. The
    timestamp (2012, 6, 30, 23, 59, 60, 0.0), valid after the first call,
    is then not valid: its minute is not a leap minute and has 60
    seconds. *)
Theorem leap_second_2012_06_30_after_reinit :
  let t := mk_tm 2012 6 30 23 59 60 zero_frac in
  isValid state_1990 t = true
  /\ initialized state_1990_1990 = true
  /\ epoch state_1990_1990 = january_first 1990
  /\ leapSecondDeltas state_1990_1990 = leapSecondDeltas state_1990
  /\ map (fun u => (yr u, mon u, day u)) (leapSecondTMs state_1990)
     = [(1990, 12, 31); (1992, 6, 30); (1993, 6, 30); (1994, 6, 30);
        (1995, 12, 31); (1997, 6, 30); (1998, 12, 31); (2005, 12, 31);
        (2008, 12, 31); (2012, 6, 30); (2015, 6, 30)]
  /\ map (fun u => (yr u, mon u, day u)) (leapSecondTMs state_1990_1990)
     = [(2080, 12, 30); (2082, 6, 30); (2083, 6, 30); (2084, 6, 29);
        (2085, 12, 30); (2087, 6, 30); (2088, 12, 30); (2095, 12, 31);
        (2098, 12, 31); (2102, 7, 1); (2105, 6, 30)]
  /\ isLeapMinute state_1990_1990 t = false
  /\ numSecondsOfMinute state_1990_1990 t = 60
  /\ isValid state_1990_1990 t = false.
Proof. vm_compute. repeat split. Qed.

(** ** Normalisation of a small negative fraction *)

(** C5 fails on the code: after a first initialisation with epoch year
    1990, the timestamp 2000-01-01 00:00:00 with fractional second [-2^-60]
    is normalised to 1999-12-31 23:59:59 with fractional second [1.0]:
    [floor] gives -1 and [-2^-60 + 1] rounds to 1. The result violates the
    bound of the fractional second and is not valid. *)
Theorem adjust_negative_fraction :
  let t := mk_tm 2000 1 1 0 0 0 minus_two_pow_minus_60 in
  adjust state_1990 t = mk_tm 1999 12 31 23 59 59 (Z2D 1)
  /\ fracSecInLimits (adjust state_1990 t) = false
  /\ isValid state_1990 (adjust state_1990 t) = false.
Proof. vm_compute. repeat split. Qed.

(** ** The difference operator *)

Lemma D2Q_finite_integer (s : bool) (m : positive) (e k : Z) :
  e <= 0 -> Zpos m = k * 2 ^ (- e) ->
  (D2Q (S754_finite s m e) == inject_Z (cond_Zopp s k))%Q.
Proof.
  intros E M. unfold D2Q. destruct (Z.leb_spec 0 e).
  - replace e with 0 in * by lia. rewrite M. simpl Z.opp.
    rewrite !Z.pow_0_r, !Z.mul_1_r. reflexivity.
  - assert (P : 0 < 2 ^ (- e)) by (apply Z.pow_pos_nonneg; lia).
    unfold Qeq. cbn [Qnum Qden inject_Z].
    rewrite Z2Pos.id by assumption.
    destruct s; cbn [cond_Zopp]; lia.
Qed.

Lemma D2Q_Z2D (k : Z) : Z.abs k < two53 -> (D2Q (Z2D k) == inject_Z k)%Q.
Proof.
  intros B. destruct k as [| p | p].
  - reflexivity.
  - assert (Bp : Zpos p < two53) by lia.
    rewrite Z2D_pos by assumption.
    destruct (mant53_value p Bp) as (M & Hd & _).
    apply (D2Q_finite_integer false); [lia |].
    rewrite M. f_equal. f_equal. lia.
  - assert (Bp : Zpos p < two53) by lia.
    rewrite Z2D_neg by assumption.
    destruct (mant53_value p Bp) as (M & Hd & _).
    apply (D2Q_finite_integer true _ _ (Zpos p)); [lia |].
    rewrite M. f_equal. f_equal. lia.
Qed.

Lemma toEpoch_range (st : State) (t : smart_tm) : 0 <= toEpoch st t < two64.
Proof. unfold toEpoch. apply wrap64_range. Qed.

(** C9 as stated fails: the result is a double. One second after the
    epoch with fractional second [2^-60] minus the epoch gives exactly 1.0,
    not the real number [1 + 2^-60]. Both timestamps are valid. *)
Lemma tm_minus_counterexample :
  let lhs := mk_tm 1990 1 1 0 0 1 two_pow_minus_60 in
  let rhs := smart_tm_default state_1990 in
  isValid state_1990 lhs = true
  /\ isValid state_1990 rhs = true
  /\ ~ (D2Q (tm_minus state_1990 lhs rhs)
        == (inject_Z (toEpoch state_1990 lhs) + D2Q (fracSec lhs))
           - (inject_Z (toEpoch state_1990 rhs) + D2Q (fracSec rhs)))%Q.
Proof.
  split; [vm_compute; reflexivity |]. split; [vm_compute; reflexivity |].
  vm_compute. discriminate.
Qed.

(** C9, amended. For timestamps whose epoch offsets are below [2^63], the
    difference operator returns the double
    [double(D) + (lhs.fracSec - rhs.fracSec)], where [D] is the integer
    [toEpoch(lhs) - toEpoch(rhs)], negative when [rhs] is later: the
    unsigned subtraction wraps modulo [2^64] and its signed reading is [D].
    The fractions are subtracted from each other and added after the
    integer conversion; the conversion, the subtraction and the addition
    each round to the nearest double. When both fractions are 0.0 and
    [|D| < 2^53] the result is the real number [D] exactly. *)
Theorem tm_minus_value (st : State) (lhs rhs : smart_tm) :
  toEpoch st lhs < two63 -> toEpoch st rhs < two63 ->
  tm_minus st lhs rhs
  = Dadd (Z2D (toEpoch st lhs - toEpoch st rhs)) (Dsub (fracSec lhs) (fracSec rhs))
  /\ (fracSec lhs = zero_frac -> fracSec rhs = zero_frac ->
      Z.abs (toEpoch st lhs - toEpoch st rhs) < two53 ->
      (D2Q (tm_minus st lhs rhs)
       == inject_Z (toEpoch st lhs) - inject_Z (toEpoch st rhs))%Q).
Proof.
  intros Hl Hr.
  pose proof (toEpoch_range st lhs) as Rl. pose proof (toEpoch_range st rhs) as Rr.
  assert (E : tm_minus st lhs rhs
              = Dadd (Z2D (toEpoch st lhs - toEpoch st rhs))
                  (Dsub (fracSec lhs) (fracSec rhs))).
  { unfold tm_minus, toEpoch_frac. rewrite to_signed64_diff by lia. reflexivity. }
  split; [exact E |].
  intros Fl Fr B. rewrite E, Fl, Fr.
  assert (S : Dadd (Z2D (toEpoch st lhs - toEpoch st rhs)) (Dsub zero_frac zero_frac)
              = Z2D (toEpoch st lhs - toEpoch st rhs)).
  { destruct (toEpoch st lhs - toEpoch st rhs) as [| p | p] eqn:D.
    - reflexivity.
    - rewrite Z2D_pos by lia. reflexivity.
    - rewrite Z2D_neg by lia. reflexivity. }
  rewrite S, D2Q_Z2D by assumption.
  unfold Qminus. rewrite <- inject_Z_opp, <- inject_Z_plus. reflexivity.
Qed.

Lemma tm_minus_value_witness :
  (toEpoch state_1990 (mk_tm 2001 1 1 0 0 0 zero_frac) < two63
   /\ toEpoch state_1990 (mk_tm 2012 7 12 10 51 18 zero_frac) < two63)
  /\ (tm_minus state_1990 (mk_tm 2001 1 1 0 0 0 zero_frac)
        (mk_tm 2012 7 12 10 51 18 zero_frac)
      = Dadd (Z2D (toEpoch state_1990 (mk_tm 2001 1 1 0 0 0 zero_frac)
                   - toEpoch state_1990 (mk_tm 2012 7 12 10 51 18 zero_frac)))
          (Dsub zero_frac zero_frac)
      /\ (zero_frac = zero_frac -> zero_frac = zero_frac ->
          Z.abs (toEpoch state_1990 (mk_tm 2001 1 1 0 0 0 zero_frac)
                 - toEpoch state_1990 (mk_tm 2012 7 12 10 51 18 zero_frac)) < two53 ->
          (D2Q (tm_minus state_1990 (mk_tm 2001 1 1 0 0 0 zero_frac)
                  (mk_tm 2012 7 12 10 51 18 zero_frac))
           == inject_Z (toEpoch state_1990 (mk_tm 2001 1 1 0 0 0 zero_frac))
              - inject_Z (toEpoch state_1990 (mk_tm 2012 7 12 10 51 18 zero_frac)))%Q)).
Proof.
  assert (Hl : toEpoch state_1990 (mk_tm 2001 1 1 0 0 0 zero_frac) < two63)
    by (vm_compute; reflexivity).
  assert (Hr : toEpoch state_1990 (mk_tm 2012 7 12 10 51 18 zero_frac) < two63)
    by (vm_compute; reflexivity).
  split; [split; assumption |].
  exact (tm_minus_value state_1990 (mk_tm 2001 1 1 0 0 0 zero_frac)
           (mk_tm 2012 7 12 10 51 18 zero_frac) Hl Hr).
Defined.

Example tm_minus_negative :
  D2LL (tm_minus state_1990 (mk_tm 2001 1 1 0 0 0 zero_frac)
          (mk_tm 2012 7 12 10 51 18 zero_frac)) = -363783081.
Proof. vm_compute. reflexivity. Qed.
(** ** Round trips after a second initialisation *)

(** A second [init] converts the leap entries while the previous epoch
    year is still in place: after [init(1990, ...)] and [init(2000, ...)]
    the leap instants are recorded 90 years late, while the deltas are
    relative to 2000. *)
Example reinit_tables :
  map (fun t => (yr t, mon t, day t)) (leapSecondTMs state_1990_2000)
  = [(2095, 12, 31); (2098, 12, 31); (2102, 7, 1); (2105, 6, 30)]
  /\ map (fun t => (yr t, mon t, day t)) (leapSecondTMs state_2000)
     = [(2005, 12, 31); (2008, 12, 31); (2012, 6, 30); (2015, 6, 30)]
  /\ leapSecondDeltas state_1990_2000 = [189388800; 284083201; 394416002; 489024003]
  /\ leapSecondDeltas state_2000 = leapSecondDeltas state_1990_2000.
Proof. vm_compute. repeat split. Qed.

(** C2. The claim fails on the code when [init] runs a second time. After
    [init(2000, ...)] alone the epoch offset 189388800 is the leap second
    2005-12-31 23:59:60 and comes back from it. After [init(1990, ...)]
    and then [init(2000, ...)] the same offset gives 2005-12-31 23:59:59,
    whose epoch offset is 189388799: [init] built the leap instants while
    [epoch.yr] was still 1990, so the tables disagree. *)
Theorem toEpoch_sinceEpoch_after_reinit :
  smart_tm_sinceEpoch state_2000 189388800 = mk_tm 2005 12 31 23 59 60 zero_frac
  /\ toEpoch state_2000 (smart_tm_sinceEpoch state_2000 189388800) = 189388800
  /\ initialized state_1990_2000 = true
  /\ epoch state_1990_2000 = january_first 2000
  /\ smart_tm_sinceEpoch state_1990_2000 189388800
     = mk_tm 2005 12 31 23 59 59 zero_frac
  /\ toEpoch state_1990_2000 (smart_tm_sinceEpoch state_1990_2000 189388800)
     = 189388799.
Proof. vm_compute. repeat split. Qed.

(** C1. The claim fails on the code when [init] runs a second time. After
    [init(2000, ...)] alone the valid timestamp 2006-01-01 00:00:00 comes
    back from its epoch offset. After [init(1990, ...)] and then
    [init(2000, ...)] it is still valid, and the constructor gives
    2005-12-31 23:59:59 from its epoch offset: [init] built the leap
    instants while [epoch.yr] was still 1990, so the tables disagree. *)
Theorem sinceEpoch_toEpoch_after_reinit :
  let t := mk_tm 2006 1 1 0 0 0 zero_frac in
  isValid state_2000 t = true
  /\ smart_tm_sinceEpoch state_2000 (toEpoch state_2000 t) = t
  /\ initialized state_1990_2000 = true
  /\ epoch state_1990_2000 = january_first 2000
  /\ isValid state_1990_2000 t = true
  /\ smart_tm_sinceEpoch state_1990_2000 (toEpoch state_1990_2000 t)
     = mk_tm 2005 12 31 23 59 59 zero_frac
  /\ equalsNoFrac (smart_tm_sinceEpoch state_1990_2000 (toEpoch state_1990_2000 t)) t
     = false.
Proof. vm_compute. repeat split. Qed.

(** * The calendar *)

(** ** Integer readings of the carries *)

Lemma fixMon_spec (t : smart_tm) :
  Z.abs (mon t - 1) < two53 ->
  fixMon t
  = mk_tm (yr t + (mon t - 1) / 12) ((mon t - 1) mod 12 + 1) (day t) (hr t)
      (min t) (sec t) (fracSec t).
Proof.
  intros B. unfold fixMon, monInLimits, START_MON, END_MON, MONTHS_PER_YEAR.
  destruct t as [y m d h mi s f]; cbn [mon yr day hr min sec fracSec] in *.
  destruct (Z.leb_spec 1 m), (Z.leb_spec m 12); cbn [andb].
  - rewrite Z.div_small, Z.mod_small by lia. f_equal; lia.
  - rewrite floor_div_double by (unfold two53 in *; lia).
    unfold set_yr, set_mon; cbn. f_equal. Z.div_mod_to_equations. lia.
  - rewrite floor_div_double by (unfold two53 in *; lia).
    unfold set_yr, set_mon; cbn. f_equal. Z.div_mod_to_equations. lia.
  - lia.
Qed.

Lemma isLeapYear_nonneg (t : smart_tm) :
  0 <= yr t -> isLeapYear t = isLeapYear_u (yr t).
Proof.
  intros H. unfold isLeapYear, isLeapYear_u.
  rewrite !Z.rem_mod_nonneg by lia. reflexivity.
Qed.

Lemma numDaysOfMonth_spec (t : smart_tm) :
  0 <= yr t -> numDaysOfMonth t = monthLength (yr t) (mon t).
Proof.
  intros H. unfold numDaysOfMonth, monthLength.
  rewrite isLeapYear_nonneg by assumption. reflexivity.
Qed.

(** ** Leap years and the leap-day count *)

Lemma leapCount_succ (y : Z) :
  1 <= y -> leapCount y = leapCount (y - 1) + (if isLeapYear_u y then 1 else 0).
Proof.
  intros H. unfold leapCount, isLeapYear_u.
  rewrite !Z.quot_div_nonneg by lia.
  destruct (Z.eqb_spec (y mod 4) 0), (Z.eqb_spec (y mod 400) 0),
    (Z.eqb_spec (y mod 100) 0); cbn [andb orb negb];
    Z.div_mod_to_equations; lia.
Qed.

Lemma leapCount_nonneg (y : Z) : 0 <= y -> 0 <= leapCount y.
Proof.
  intros H. unfold leapCount. rewrite !Z.quot_div_nonneg by lia.
  Z.div_mod_to_equations. lia.
Qed.

Lemma leapCount_mono (a b : Z) : 0 <= a <= b -> leapCount a <= leapCount b.
Proof.
  intros [Ha Hab]. pattern b. apply (Zlt_lower_bound_ind _ a); [| exact Hab].
  intros x IH Hx. destruct (Z.eq_dec x a) as [-> | N]; [lia |].
  specialize (IH (x - 1) ltac:(lia)).
  rewrite (leapCount_succ x) by lia. destruct (isLeapYear_u x); lia.
Qed.

(** ** Month tables *)

Lemma month_cases (m : Z) :
  1 <= m <= 12 ->
  m = 1 \/ m = 2 \/ m = 3 \/ m = 4 \/ m = 5 \/ m = 6 \/ m = 7 \/ m = 8 \/ m = 9
  \/ m = 10 \/ m = 11 \/ m = 12.
Proof. lia. Qed.

Ltac month_split m H :=
  destruct (month_cases m H) as [?|[?|[?|[?|[?|[?|[?|[?|[?|[?|[?|?]]]]]]]]]]]; subst m.

Ltac table :=
  unfold monthLength, daysBeforeMonthIn;
  repeat match goal with
         | |- context [isLeapYear_u ?y] => destruct (isLeapYear_u y)
         end;
  vm_compute; try reflexivity; intuition discriminate.

Lemma days_at_range (m : Z) : 1 <= m <= 12 -> 28 <= days_at (m - 1) <= 31.
Proof. intros H. month_split m H; table. Qed.

Lemma monthLength_range (y m : Z) : 1 <= m <= 12 -> 28 <= monthLength y m <= 31.
Proof. intros H. month_split m H; table. Qed.

Lemma monthLength_ge (y m : Z) : 1 <= m <= 12 -> days_at (m - 1) <= monthLength y m.
Proof. intros H. month_split m H; table. Qed.

Lemma daysBeforeMonth_next (m : Z) :
  1 <= m <= 12 -> daysBeforeMonth (m + 1) = daysBeforeMonth m + days_at (m - 1).
Proof. intros H. month_split m H; reflexivity. Qed.

Lemma daysBeforeMonthIn_next (y m : Z) :
  1 <= m <= 11 ->
  daysBeforeMonthIn y (m + 1) = daysBeforeMonthIn y m + monthLength y m.
Proof.
  intros H. assert (H' : 1 <= m <= 12) by lia.
  month_split m H'; try lia; table.
Qed.

Lemma daysBeforeMonthIn_december (y : Z) :
  daysBeforeMonthIn y 12 + monthLength y 12
  = 365 + (if isLeapYear_u y then 1 else 0).
Proof. table. Qed.

Lemma daysBeforeMonthIn_range (y m : Z) :
  1 <= m <= 12 ->
  0 <= daysBeforeMonthIn y m
  /\ daysBeforeMonthIn y m + monthLength y m
     <= 365 + (if isLeapYear_u y then 1 else 0).
Proof. intros H. month_split m H; table. Qed.

(** Within a year, earlier months end before later months begin. *)
Lemma daysBeforeMonthIn_mono (y m m' : Z) :
  1 <= m -> m < m' -> m' <= 12 ->
  daysBeforeMonthIn y m + monthLength y m <= daysBeforeMonthIn y m'.
Proof.
  intros H1 H2 H3.
  assert (Hm : 1 <= m <= 12) by lia. assert (Hm' : 1 <= m' <= 12) by lia.
  month_split m Hm; month_split m' Hm'; try lia; table.
Qed.

(** ** Loops *)

(** A loop that preserves [P] and decreases the measure [mu] stops with
    the condition false as soon as the fuel covers the measure. *)
Lemma while_loop_inv (P : smart_tm -> Prop) (mu : smart_tm -> Z)
    (cond : smart_tm -> bool) (body : smart_tm -> smart_tm) :
  (forall t, P t -> cond t = true -> P (body t) /\ mu (body t) < mu t) ->
  (forall t, P t -> cond t = true -> 0 < mu t) ->
  forall (fuel : nat) (t : smart_tm),
    P t -> mu t <= Z.of_nat fuel ->
    P (while_loop fuel cond body t)
    /\ cond (while_loop fuel cond body t) = false.
Proof.
  intros Step Pos fuel. induction fuel as [| fuel IH]; intros t Pt M; cbn [while_loop].
  - split; [exact Pt |]. destruct (cond t) eqn:C; [| reflexivity].
    specialize (Pos t Pt C). lia.
  - destruct (cond t) eqn:C.
    + destruct (Step t Pt C) as [Pb Mb]. apply IH; [exact Pb | lia].
    + split; [exact Pt | exact C].
Qed.

Lemma sameClock_refl (a : smart_tm) : sameClock a a.
Proof. repeat split. Qed.

Lemma sameClock_trans (a b c : smart_tm) :
  sameClock a b -> sameClock b c -> sameClock a c.
Proof. unfold sameClock. intros (?&?&?&?) (?&?&?&?). repeat split; congruence. Qed.

(** One month forward, with the month length [len] taken off the day. *)
Lemma month_forward (t : smart_tm) (len : Z) :
  1 <= mon t <= 12 ->
  let t' := fixMon (set_mon (set_day t (day t - len)) (mon t + 1)) in
  sameClock t' t /\ day t' = day t - len
  /\ ((mon t <= 11 /\ yr t' = yr t /\ mon t' = mon t + 1)
      \/ (mon t = 12 /\ yr t' = yr t + 1 /\ mon t' = 1)).
Proof.
  intros Hm. cbv zeta. rewrite fixMon_spec by (cbn; unfold two53; lia).
  destruct t as [y m d h mi s f]; cbn in *.
  split; [repeat split |]. split; [reflexivity |].
  destruct (Z.eq_dec m 12) as [-> | N]; [right | left]; cbn.
  - repeat split.
  - split; [lia |]. split.
    + rewrite Z.div_small by lia. lia.
    + rewrite Z.mod_small by lia. lia.
Qed.

(** One month backward. *)
Lemma month_backward (t : smart_tm) :
  1 <= mon t <= 12 ->
  let t' := fixMon (set_mon t (mon t - 1)) in
  sameClock t' t /\ day t' = day t
  /\ ((2 <= mon t /\ yr t' = yr t /\ mon t' = mon t - 1)
      \/ (mon t = 1 /\ yr t' = yr t - 1 /\ mon t' = 12)).
Proof.
  intros Hm. cbv zeta. rewrite fixMon_spec by (cbn; unfold two53; lia).
  destruct t as [y m d h mi s f]; cbn in *.
  split; [repeat split |]. split; [reflexivity |].
  destruct (Z.eq_dec m 1) as [-> | N]; [right | left]; cbn.
  - repeat split.
  - split; [lia |]. split.
    + rewrite Z.div_small by lia. lia.
    + rewrite Z.mod_small by lia. lia.
Qed.

(** *** [stepMonNoLeapCorrection] *)

Lemma plain_forward_step (t u : smart_tm) :
  plainInv t u -> days_at (mon u - 1) < day u ->
  plainInv t (fixMon (set_mon (set_day u (day u - days_at (mon u - 1))) (mon u + 1)))
  /\ day (fixMon (set_mon (set_day u (day u - days_at (mon u - 1))) (mon u + 1)))
     < day u.
Proof.
  intros (Hu & Nu & Su) C.
  pose proof (days_at_range (mon u) Hu) as R.
  destruct (month_forward u (days_at (mon u - 1)) Hu) as (S' & D' & Y').
  cbv zeta in S', D', Y'.
  split; [| lia].
  split; [destruct Y' as [(?&?&?) | (?&?&?)]; lia |].
  split; [| exact (sameClock_trans _ _ _ S' Su)].
  rewrite <- Nu. unfold plainDayNumber. rewrite D'.
  destruct Y' as [(L & -> & ->) | (L & -> & ->)].
  + rewrite daysBeforeMonth_next by lia. lia.
  + rewrite L. change (daysBeforeMonth 1) with 0.
    change (daysBeforeMonth 12) with 334. change (days_at (12 - 1)) with 31. lia.
Qed.

Lemma plain_backward_step (t u : smart_tm) :
  plainInv t u -> day u < 1 ->
  let u' := fixMon (set_mon u (mon u - 1)) in
  plainInv t (set_day u' (day u' + days_at (mon u' - 1)))
  /\ day u < day u' + days_at (mon u' - 1) <= days_at (mon u' - 1).
Proof.
  intros (Hu & Nu & Su) C.
  destruct (month_backward u Hu) as (S' & D' & Y'). cbv zeta in S', D', Y'.
  cbv zeta.
  set (u' := fixMon (set_mon u (mon u - 1))) in *. clearbody u'.
  assert (Hu' : 1 <= mon u' <= 12) by (destruct Y' as [(?&?&?) | (?&?&?)]; lia).
  pose proof (days_at_range (mon u') Hu') as R.
  split; [| lia].
  split; [exact Hu' |]. split.
  - rewrite <- Nu. unfold plainDayNumber. cbn [yr mon day set_day].
    destruct Y' as [(L & -> & E) | (L & -> & E)].
    + rewrite E. replace (mon u) with (mon u - 1 + 1) at 3 by lia.
      rewrite daysBeforeMonth_next by lia. lia.
    + rewrite E, L. change (daysBeforeMonth 1) with 0.
      change (daysBeforeMonth 12) with 334. change (days_at (12 - 1)) with 31. lia.
  - unfold sameClock in *. cbn [hr min sec fracSec set_day]. intuition congruence.
Qed.

Lemma stepMonNoLeapCorrection_spec (t : smart_tm) :
  1 <= mon t <= 12 ->
  let t' := stepMonNoLeapCorrection t in
  1 <= mon t' <= 12
  /\ 1 <= day t' <= days_at (mon t' - 1)
  /\ plainDayNumber t' = plainDayNumber t
  /\ sameClock t' t.
Proof.
  intros Hm. cbv zeta. unfold stepMonNoLeapCorrection, START_DAY.
  match goal with
  | |- context [while_loop ?n ?c ?b t] =>
      destruct (while_loop_inv (plainInv t) day c b) with (fuel := n) (t := t)
        as [P1 C1]
  end.
  - intros u Pu C. apply Z.ltb_lt in C.
    exact (plain_forward_step t u Pu ltac:(lia)).
  - intros u (Hu & _) C. apply Z.ltb_lt in C.
    pose proof (days_at_range (mon u) Hu). lia.
  - split; [exact Hm |]. split; [reflexivity | apply sameClock_refl].
  - lia.
  - apply Z.ltb_ge in C1.
    match type of C1 with
    | context [while_loop ?n ?c ?b t] => set (t1 := while_loop n c b t) in *
    end.
    clearbody t1.
    match goal with
    | |- context [while_loop ?n ?c ?b t1] =>
        destruct (while_loop_inv
                    (fun u => plainInv t u /\ day u <= days_at (mon u - 1))
                    (fun u => 1 - day u) c b) with (fuel := n) (t := t1)
          as [P3 C3]
    end.
    + intros u (Pu & Du) C. apply Z.ltb_lt in C.
      destruct (plain_backward_step t u Pu C) as [Q1 Q2]. cbv zeta in Q1, Q2.
      split; [split; [exact Q1 | cbn [day mon set_day]; lia] |].
      cbn [day set_day]. lia.
    + intros u _ C. apply Z.ltb_lt in C. lia.
    + split; [exact P1 | lia].
    + lia.
    + apply Z.ltb_ge in C3.
      destruct P3 as ((H1 & H2 & H3) & H4). repeat split; try lia; apply H3.
Qed.

(** *** [stepMon] *)

Lemma date_forward_step (t u : smart_tm) :
  dateInv t u -> monthLength (yr u) (mon u) < day u ->
  dateInv t (fixMon (set_mon (set_day u (day u - numDaysOfMonth u)) (mon u + 1)))
  /\ day (fixMon (set_mon (set_day u (day u - numDaysOfMonth u)) (mon u + 1)))
     < day u.
Proof.
  intros (Yu & Hu & Nu & Su) C.
  rewrite numDaysOfMonth_spec by lia.
  pose proof (monthLength_range (yr u) (mon u) Hu) as R.
  destruct (month_forward u (monthLength (yr u) (mon u)) Hu) as (S' & D' & Y').
  cbv zeta in S', D', Y'.
  split; [| lia].
  split; [destruct Y' as [(?&?&?) | (?&?&?)]; lia |].
  split; [destruct Y' as [(?&?&?) | (?&?&?)]; lia |].
  split; [| exact (sameClock_trans _ _ _ S' Su)].
  rewrite <- Nu. unfold dayNumber. rewrite D'.
  destruct Y' as [(L & -> & ->) | (L & -> & ->)].
  - rewrite daysBeforeMonthIn_next by lia. lia.
  - replace (yr u + 1 - 1) with (yr u) by lia.
    rewrite (leapCount_succ (yr u)) by lia.
    pose proof (daysBeforeMonthIn_december (yr u)) as Dec.
    rewrite L in *. change (daysBeforeMonthIn (yr u + 1) 1) with
      (0 + (if isLeapYear_u (yr u + 1) && false then 1 else 0)).
    rewrite andb_false_r. lia.
Qed.

Lemma date_backward_step (t u : smart_tm) :
  dateInv t u -> 365 <= dayNumber t -> day u < 1 ->
  let u' := fixMon (set_mon u (mon u - 1)) in
  dateInv t (set_day u' (day u' + numDaysOfMonth u'))
  /\ day u < day u' + numDaysOfMonth u'
  /\ day u' + numDaysOfMonth u' <= monthLength (yr u') (mon u').
Proof.
  intros (Yu & Hu & Nu & Su) N C.
  destruct (month_backward u Hu) as (S' & D' & Y'). cbv zeta in S', D', Y'.
  cbv zeta.
  set (u' := fixMon (set_mon u (mon u - 1))) in *. clearbody u'.
  assert (Hu' : 1 <= mon u' <= 12) by (destruct Y' as [(?&?&?) | (?&?&?)]; lia).
  assert (Y2 : mon u = 1 -> 2 <= yr u).
  { intros M1. destruct (Z.le_gt_cases 2 (yr u)) as [| G]; [assumption | exfalso].
    assert (yr u = 1) as Y1 by lia.
    rewrite <- Nu in N. unfold dayNumber in N. rewrite M1, Y1 in N.
    change (leapCount (1 - 1)) with 0 in N.
    change (daysBeforeMonthIn 1 1) with 0 in N. lia. }
  assert (Yu' : 1 <= yr u') by (destruct Y' as [(?&?&?) | (?&?&?)]; lia).
  rewrite numDaysOfMonth_spec by lia.
  pose proof (monthLength_range (yr u') (mon u') Hu') as R.
  split; [| lia].
  split; [exact Yu' |]. split; [exact Hu' |]. split.
  - rewrite <- Nu. unfold dayNumber. cbn [yr mon day set_day].
    destruct Y' as [(L & Ey & Em) | (L & Ey & Em)]; rewrite Ey, Em.
    + replace (mon u) with (mon u - 1 + 1) at 3 by lia.
      rewrite daysBeforeMonthIn_next by lia. lia.
    + rewrite L. specialize (Y2 L).
      replace (yr u - 1) with (yr u - 1 - 1 + 1) at 1 by lia.
      rewrite (leapCount_succ (yr u - 1)) by lia.
      pose proof (daysBeforeMonthIn_december (yr u - 1)) as Dec.
      change (daysBeforeMonthIn (yr u) 1) with
        (0 + (if isLeapYear_u (yr u) && false then 1 else 0)).
      rewrite andb_false_r.
      replace (yr u - 1 - 1 + 1) with (yr u - 1) by lia. lia.
  - unfold sameClock in *. cbn [hr min sec fracSec set_day]. intuition congruence.
Qed.

Lemma stepMon_spec (t : smart_tm) :
  1 <= yr t -> 1 <= mon t <= 12 -> 365 <= dayNumber t ->
  let t' := stepMon t in
  validDate t' /\ dayNumber t' = dayNumber t /\ sameClock t' t.
Proof.
  intros Hy Hm N. cbv zeta. unfold stepMon, START_DAY.
  match goal with
  | |- context [while_loop ?n ?c ?b t] =>
      destruct (while_loop_inv (dateInv t) day c b) with (fuel := n) (t := t)
        as [P1 C1]
  end.
  - intros u Pu C. apply Z.ltb_lt in C.
    assert (C' : monthLength (yr u) (mon u) < day u).
    { rewrite <- numDaysOfMonth_spec by (destruct Pu; lia). lia. }
    exact (date_forward_step t u Pu C').
  - intros u (Yu & Hu & _) C. apply Z.ltb_lt in C.
    rewrite numDaysOfMonth_spec in C by lia.
    pose proof (monthLength_range (yr u) (mon u) Hu). lia.
  - split; [exact Hy |]. split; [exact Hm |]. split; [reflexivity | apply sameClock_refl].
  - lia.
  - apply Z.ltb_ge in C1.
    match type of C1 with
    | context [while_loop ?n ?c ?b t] => set (t1 := while_loop n c b t) in *
    end.
    clearbody t1.
    match goal with
    | |- context [while_loop ?n ?c ?b t1] =>
        destruct (while_loop_inv
                    (fun u => dateInv t u /\ day u <= monthLength (yr u) (mon u))
                    (fun u => 1 - day u) c b) with (fuel := n) (t := t1)
          as [P3 C3]
    end.
    + intros u (Pu & Du) C. apply Z.ltb_lt in C.
      destruct (date_backward_step t u Pu N C) as (Q1 & Q2 & Q3).
      cbv zeta in Q1, Q2, Q3.
      split; [split; [exact Q1 | exact Q3] |].
      cbn [day set_day]. lia.
    + intros u _ C. apply Z.ltb_lt in C. lia.
    + split; [exact P1 |].
      rewrite <- numDaysOfMonth_spec by (destruct P1; lia). lia.
    + lia.
    + apply Z.ltb_ge in C3.
      destruct P3 as ((H1 & H2 & H3 & H4) & H5).
      split; [| split; assumption].
      unfold validDate. lia.
Qed.

(** ** [fixDay] *)

Lemma leapCount_calcYr (t : smart_tm) :
  1 <= yr t -> 1 <= mon t <= 12 -> (mon t = 2 -> day t <= 29) ->
  leapCount (calcYr_of t)
  = leapCount (yr t - 1) + (if isLeapYear_u (yr t) && (3 <=? mon t) then 1 else 0).
Proof.
  intros Hy Hm Hd. unfold calcYr_of, Feb, Jan.
  rewrite isLeapYear_nonneg by lia.
  pose proof (leapCount_succ (yr t) Hy) as K.
  destruct (isLeapYear_u (yr t)); cbn [andb].
  - destruct (Z.eqb_spec (mon t - 1) 1), (Z.leb_spec (day t) 29),
      (Z.eqb_spec (mon t - 1) 0), (Z.leb_spec 3 (mon t)); cbn [andb orb]; lia.
  - lia.
Qed.

Lemma dayNumber_plain (t : smart_tm) :
  1 <= yr t -> 1 <= mon t <= 12 -> (mon t = 2 -> day t <= 29) ->
  dayNumber t = plainDayNumber t + leapCount (calcYr_of t).
Proof.
  intros Hy Hm Hd. rewrite leapCount_calcYr by assumption.
  unfold dayNumber, plainDayNumber, daysBeforeMonthIn. lia.
Qed.

Lemma plain_year_positive (t : smart_tm) :
  1 <= mon t <= 12 -> 1 <= day t <= days_at (mon t - 1) ->
  365 <= plainDayNumber t -> 1 <= yr t.
Proof.
  intros Hm Hd N. unfold plainDayNumber in N.
  assert (forall m, 1 <= m <= 12 -> daysBeforeMonth m + days_at (m - 1) <= 365) as T.
  { intros m H. month_split m H; vm_compute; intuition discriminate. }
  specialize (T (mon t) Hm). lia.
Qed.

Lemma fixDay_unfold (t : smart_tm) :
  fixDay t
  = if dayInLimits t then t
    else
      let old := mk_tm (yr t) (mon t) 1 0 0 0 START_FRAC_SEC in
      let count := D2LL (Ddiv (Z2D (day t - 1)) (Z2D 365)) in
      let t1 := mk_tm (yr t + count) (mon t) (day t - count * 365) (hr t) (min t)
                  (sec t) (fracSec t) in
      let t2 := stepMonNoLeapCorrection t1 in
      stepMon (set_day t2 (day t2 - leapDaysWalkedThroughFrom old t2)).
Proof. unfold fixDay. destruct (dayInLimits t); reflexivity. Qed.

Lemma dayNumber_shift (y m d d' h mi s : Z) (f : double) :
  dayNumber (mk_tm y m d' h mi s f) = dayNumber (mk_tm y m d h mi s f) + (d' - d).
Proof. unfold dayNumber. cbn. lia. Qed.

Lemma dayNumber_ge_plain (t : smart_tm) :
  1 <= yr t -> plainDayNumber t <= dayNumber t.
Proof.
  intros H. unfold dayNumber, plainDayNumber, daysBeforeMonthIn.
  pose proof (leapCount_nonneg (yr t - 1) ltac:(lia)).
  destruct (isLeapYear_u (yr t) && (3 <=? mon t)); lia.
Qed.

Lemma fixDay_spec (t : smart_tm) :
  1 <= yr t -> 1 <= mon t <= 12 -> Z.abs (day t - 1) < two53 ->
  365 <= plainDayNumber t ->
  let t' := fixDay t in
  validDate t' /\ dayNumber t' = dayNumber t /\ sameClock t' t.
Proof.
  intros Hy Hm Bd Np. cbv zeta.
  pose proof (dayNumber_ge_plain t Hy) as Nd.
  rewrite fixDay_unfold. destruct (dayInLimits t) eqn:L.
  - unfold dayInLimits, START_DAY in L. rewrite numDaysOfMonth_spec in L by lia.
    apply andb_true_iff in L. destruct L as [L1 L2].
    apply Z.leb_le in L1, L2.
    split; [unfold validDate; lia | split; [reflexivity | apply sameClock_refl]].
  - cbv zeta. rewrite trunc_div_double; [| unfold two53 in *; lia | unfold two53; lia].
    set (c := Z.quot (day t - 1) 365). clearbody c.
    set (old := mk_tm (yr t) (mon t) 1 0 0 0 START_FRAC_SEC).
    set (t1 := mk_tm (yr t + c) (mon t) (day t - c * 365) (hr t) (min t) (sec t)
                 (fracSec t)).
    assert (P1 : plainDayNumber t1 = plainDayNumber t)
      by (unfold plainDayNumber, t1; cbn [yr mon day]; lia).
    destruct (stepMonNoLeapCorrection_spec t1 Hm) as (M2 & D2 & P2 & S2).
    cbv zeta in M2, D2, P2, S2.
    set (t2 := stepMonNoLeapCorrection t1) in *. clearbody t2.
    assert (Y2 : 1 <= yr t2) by (apply plain_year_positive; lia).
    assert (F2 : mon t2 = 2 -> day t2 <= 29).
    { intros E. rewrite E in D2. change (days_at (2 - 1)) with 28 in D2. lia. }
    pose proof (dayNumber_plain t2 Y2 M2 F2) as N2.
    assert (No : dayNumber old = plainDayNumber old + leapCount (calcYr_of old))
      by (apply dayNumber_plain; cbn; lia).
    set (t3 := set_day t2 (day t2 - leapDaysWalkedThroughFrom old t2)).
    assert (N3 : dayNumber t3 = dayNumber t).
    { assert (E3 : dayNumber t3
                   = dayNumber t2 - leapDaysWalkedThroughFrom old t2)
        by (unfold dayNumber, t3; cbn [yr mon day set_day]; lia).
      assert (Et : dayNumber t = dayNumber old + (day t - 1))
        by (unfold dayNumber, old; cbn [yr mon day]; lia).
      assert (Ep : plainDayNumber t = plainDayNumber old + (day t - 1))
        by (unfold plainDayNumber, old; cbn [yr mon day]; lia).
      unfold leapDaysWalkedThroughFrom in E3. lia. }
    destruct (stepMon_spec t3) as (V4 & N4 & S4).
    + unfold t3. cbn [yr set_day]. lia.
    + unfold t3. cbn [mon set_day]. lia.
    + rewrite N3. lia.
    + cbv zeta in V4, N4, S4. split; [exact V4 |]. split; [congruence |].
      apply (sameClock_trans _ t3); [exact S4 |].
      apply (sameClock_trans _ t2).
      * unfold t3, sameClock. cbn [hr min sec fracSec set_day]. repeat split.
      * apply (sameClock_trans _ t1); [exact S2 |].
        unfold t1, sameClock. cbn. repeat split.
Qed.

(** ** [fixHr] and [fixMin] *)

Lemma fixHr_unfold (t : smart_tm) :
  fixHr t
  = if hrInLimits t then t
    else
      let count := D2LL (Dfloor (Ddiv (Z2D (hr t - 0)) (Z2D 24))) in
      fixDay (mk_tm (yr t) (mon t) (day t + count) (hr t - count * 24) (min t)
                (sec t) (fracSec t)).
Proof. unfold fixHr. destruct (hrInLimits t); reflexivity. Qed.

Lemma fixMin_unfold (t : smart_tm) :
  fixMin t
  = if minInLimits t then t
    else
      let count := D2LL (Dfloor (Ddiv (Z2D (min t - 0)) (Z2D 60))) in
      fixHr (mk_tm (yr t) (mon t) (day t) (hr t + count) (min t - count * 60)
               (sec t) (fracSec t)).
Proof. unfold fixMin. destruct (minInLimits t); reflexivity. Qed.

Lemma daysBeforeMonth_nonneg (m : Z) : 1 <= m <= 12 -> 0 <= daysBeforeMonth m.
Proof. intros H. month_split m H; vm_compute; discriminate. Qed.

Lemma validDate_plain (t : smart_tm) : validDate t -> 365 <= plainDayNumber t.
Proof.
  intros (Hy & Hm & Hd). unfold plainDayNumber.
  pose proof (daysBeforeMonth_nonneg (mon t) Hm). lia.
Qed.

Lemma fixHr_spec (t : smart_tm) :
  validDate t -> Z.abs (hr t) < two52 ->
  (hr t < 0 -> -24 <= hr t /\ 366 <= plainDayNumber t) ->
  let t' := fixHr t in
  validDate t' /\ 0 <= hr t' <= 23 /\ timeNumber t' = timeNumber t
  /\ min t' = min t /\ sec t' = sec t /\ fracSec t' = fracSec t.
Proof.
  intros V B Neg. cbv zeta. rewrite fixHr_unfold.
  destruct (hrInLimits t) eqn:L.
  - unfold hrInLimits, START_HR, END_HR in L. apply andb_true_iff in L.
    destruct L as [L1 L2]. apply Z.leb_le in L1, L2.
    split; [exact V |]. split; [lia |]. repeat split.
  - cbv zeta. rewrite floor_div_double by (unfold two52, two53 in *; lia).
    rewrite Z.sub_0_r.
    pose proof (validDate_plain t V) as Np.
    destruct V as (Hy & Hm & Hd).
    pose proof (monthLength_range (yr t) (mon t) Hm) as R.
    assert (Hc : Z.abs (hr t / 24) <= Z.abs (hr t))
      by (Z.div_mod_to_equations; lia).
    assert (Hneg : hr t < 0 -> hr t / 24 = -1)
      by (intros H; specialize (Neg H); Z.div_mod_to_equations; lia).
    assert (Hpos : 0 <= hr t -> 0 <= hr t / 24)
      by (intros H; Z.div_mod_to_equations; lia).
    set (c := hr t / 24) in *.
    assert (Hr : 0 <= hr t - c * 24 <= 23)
      by (unfold c; Z.div_mod_to_equations; lia).
    clearbody c.
    set (t1 := mk_tm (yr t) (mon t) (day t + c) (hr t - c * 24) (min t) (sec t)
                 (fracSec t)).
    assert (P1 : plainDayNumber t1 = plainDayNumber t + c)
      by (unfold plainDayNumber, t1; cbn [yr mon day]; lia).
    assert (N1 : dayNumber t1 = dayNumber t + c)
      by (unfold dayNumber, t1; cbn [yr mon day]; lia).
    destruct (fixDay_spec t1) as (V' & N' & S').
    + exact Hy.
    + exact Hm.
    + unfold t1; cbn [day]. unfold two52, two53 in *. lia.
    + rewrite P1. destruct (Z.lt_ge_cases (hr t) 0) as [H | H].
      * specialize (Neg H). specialize (Hneg H). lia.
      * specialize (Hpos H). lia.
    + cbv zeta in V', N', S'. destruct S' as (S1 & S2 & S3 & S4).
      change (hr t1) with (hr t - c * 24) in S1. change (min t1) with (min t) in S2.
      change (sec t1) with (sec t) in S3. change (fracSec t1) with (fracSec t) in S4.
      split; [exact V' |]. split; [lia |]. split.
      * unfold timeNumber. rewrite N', N1, S1, S2, S3. lia.
      * repeat split; assumption.
Qed.

Lemma fixMin_spec (t : smart_tm) :
  validDate t -> 0 <= hr t <= 23 -> Z.abs (min t) < two52 ->
  (min t < 0 -> -60 <= min t /\ (hr t = 0 -> 366 <= plainDayNumber t)) ->
  let t' := fixMin t in
  validDate t' /\ validClock t' /\ timeNumber t' = timeNumber t
  /\ sec t' = sec t /\ fracSec t' = fracSec t.
Proof.
  intros V Hh B Neg. cbv zeta. rewrite fixMin_unfold.
  destruct (minInLimits t) eqn:L.
  - unfold minInLimits, START_MIN, END_MIN in L. apply andb_true_iff in L.
    destruct L as [L1 L2]. apply Z.leb_le in L1, L2.
    split; [exact V |]. split; [unfold validClock; lia |]. repeat split.
  - cbv zeta. rewrite floor_div_double by (unfold two52, two53 in *; lia).
    rewrite Z.sub_0_r.
    assert (Hc : Z.abs (min t / 60) <= Z.abs (min t))
      by (Z.div_mod_to_equations; lia).
    assert (Hneg : min t < 0 -> min t / 60 = -1)
      by (intros H; specialize (Neg H); Z.div_mod_to_equations; lia).
    assert (Hpos : 0 <= min t -> 0 <= min t / 60)
      by (intros H; Z.div_mod_to_equations; lia).
    set (c := min t / 60) in *.
    assert (Hr : 0 <= min t - c * 60 <= 59)
      by (unfold c; Z.div_mod_to_equations; lia).
    clearbody c.
    set (t1 := mk_tm (yr t) (mon t) (day t) (hr t + c) (min t - c * 60) (sec t)
                 (fracSec t)).
    destruct (fixHr_spec t1) as (V' & H' & N' & M' & S' & F').
    + exact V.
    + unfold t1; cbn [hr]. unfold two52 in *. lia.
    + unfold t1; cbn [hr]. intros H.
      assert (min t < 0) as Hm by (destruct (Z.lt_ge_cases (min t) 0); [assumption | specialize (Hpos ltac:(lia)); lia]).
      specialize (Neg Hm). specialize (Hneg Hm).
      split; [lia |]. apply Neg. lia.
    + cbv zeta in V', H', N', M', S', F'.
      change (min t1) with (min t - c * 60) in M'. change (sec t1) with (sec t) in S'.
      change (fracSec t1) with (fracSec t) in F'.
      split; [exact V' |]. split; [unfold validClock; lia |]. split.
      * rewrite N'. unfold timeNumber, dayNumber, t1. cbn [yr mon day hr min sec]. lia.
      * split; assumption.
Qed.

(** * Leap-second tables as lists of offsets *)

Lemma countLe_cons (u : Z) (us : list Z) (x : Z) :
  countLe (u :: us) x = (if u <=? x then 1 else 0) + countLe us x.
Proof.
  unfold countLe. cbn [filter]. destruct (u <=? x); cbn [List.length]; lia.
Qed.

Lemma countLe_nonneg (us : list Z) (x : Z) : 0 <= countLe us x.
Proof. unfold countLe. lia. Qed.

Lemma countLe_length (us : list Z) (x : Z) :
  countLe us x <= Z.of_nat (List.length us).
Proof.
  unfold countLe. pose proof (filter_length_le (fun u => u <=? x) us). lia.
Qed.

Lemma countLe_mono (us : list Z) (x y : Z) :
  x <= y -> countLe us x <= countLe us y.
Proof.
  intros H. induction us as [| u us IH]; [reflexivity |].
  rewrite !countLe_cons.
  destruct (Z.leb_spec u x), (Z.leb_spec u y); lia.
Qed.

Lemma increasing_weaken (p q : Z) (us : list Z) :
  p <= q -> increasing q us -> increasing p us.
Proof. destruct us as [| u us]; cbn; [trivial | intros ? [? ?]; split; [lia | assumption]]. Qed.

Lemma countLe_below (prev : Z) (us : list Z) (x : Z) :
  increasing prev us -> x <= prev -> countLe us x = 0.
Proof.
  revert prev. induction us as [| u us IH]; intros prev I H; [reflexivity |].
  destruct I as [I1 I2]. rewrite countLe_cons, (IH u I2) by lia.
  destruct (Z.leb_spec u x); lia.
Qed.

Lemma existsb_below (prev : Z) (us : list Z) (x : Z) :
  increasing prev us -> x <= prev -> existsb (Z.eqb x) us = false.
Proof.
  revert prev. induction us as [| u us IH]; intros prev I H; [reflexivity |].
  destruct I as [I1 I2]. cbn [existsb]. rewrite (IH u I2) by lia.
  destruct (Z.eqb_spec x u); [lia | reflexivity].
Qed.

(** Between two consecutive multiples of 60 the count changes by the
    membership of the upper one. *)
Lemma countLe_step60 (prev : Z) (us : list Z) (x : Z) :
  increasing prev us -> (forall u, In u us -> u mod 60 = 0) -> x mod 60 = 0 ->
  countLe us (x + 60)
  = countLe us x + (if existsb (Z.eqb (x + 60)) us then 1 else 0).
Proof.
  revert prev. induction us as [| u us IH]; intros prev I M X; [reflexivity |].
  destruct I as [I1 I2]. rewrite !countLe_cons. cbn [existsb].
  assert (Mu : u mod 60 = 0) by (apply M; left; reflexivity).
  assert (M' : forall v, In v us -> v mod 60 = 0) by (intros v Hv; apply M; right; exact Hv).
  destruct (Z.eqb_spec (x + 60) u) as [E | N].
  - (* the entry is [x + 60]: later entries are above *)
    cbn [orb]. rewrite (countLe_below u us) by (assumption || lia).
    rewrite (countLe_below u us) by (assumption || lia).
    destruct (Z.leb_spec u (x + 60)), (Z.leb_spec u x); lia.
  - cbn [orb]. rewrite (IH u I2 M' X).
    destruct (Z.leb_spec u (x + 60)), (Z.leb_spec u x); try lia.
    exfalso. Z.div_mod_to_equations. lia.
Qed.

(** Inside a minute the count does not change. *)
Lemma countLe_within_minute (us : list Z) (x s : Z) :
  (forall u, In u us -> u mod 60 = 0) -> x mod 60 = 0 -> 0 <= s < 60 ->
  countLe us (x + s) = countLe us x.
Proof.
  intros M X S. induction us as [| u us IH]; [reflexivity |].
  rewrite !countLe_cons.
  assert (Mu : u mod 60 = 0) by (apply M; left; reflexivity).
  rewrite IH by (intros v Hv; apply M; right; exact Hv).
  destruct (Z.leb_spec u (x + s)), (Z.leb_spec u x); try lia.
  exfalso. Z.div_mod_to_equations. lia.
Qed.

Lemma entriesBetween_cons (d : Z) (ds : list Z) (lo hi : Z) :
  entriesBetween (d :: ds) lo hi
  = (if (lo <=? d) && (d <=? hi) then 1 else 0) + entriesBetween ds lo hi.
Proof.
  unfold entriesBetween. cbn [filter].
  destruct ((lo <=? d) && (d <=? hi)); cbn [List.length]; lia.
Qed.

Lemma entriesBetween_above (prev : Z) (us : list Z) (k lo hi : Z) :
  increasing prev us -> hi <= prev + k ->
  entriesBetween (deltas_from k us) lo hi = 0.
Proof.
  revert prev k. induction us as [| u us IH]; intros prev k I H; [reflexivity |].
  destruct I as [I1 I2]. cbn [deltas_from]. rewrite entriesBetween_cons.
  rewrite (IH u (k + 1) I2) by lia.
  destruct (Z.leb_spec lo (u + k)), (Z.leb_spec (u + k) hi); cbn [andb]; lia.
Qed.

(** The epoch-offset counter over the deltas recovers the number of leap
    instants up to offset [n]. *)
Lemma entriesBetween_deltas (prev : Z) (us : list Z) (k n : Z) :
  increasing prev us -> 0 <= prev -> 0 <= k ->
  entriesBetween (deltas_from k us) 0 (n + k + countLe us n) = countLe us n.
Proof.
  revert prev k. induction us as [| u us IH]; intros prev k I P K; [reflexivity |].
  destruct I as [I1 I2]. cbn [deltas_from].
  rewrite entriesBetween_cons, countLe_cons.
  destruct (Z.leb_spec u n) as [L | G].
  - replace (n + k + (1 + countLe us n)) with (n + (k + 1) + countLe us n) by lia.
    rewrite (IH u (k + 1) I2) by lia.
    pose proof (countLe_nonneg us n).
    destruct (Z.leb_spec 0 (u + k)), (Z.leb_spec (u + k) (n + (k + 1) + countLe us n));
      cbn [andb]; lia.
  - rewrite (countLe_below u us n) by (assumption || lia).
    rewrite (entriesBetween_above u us (k + 1)) by (assumption || lia).
    destruct (Z.leb_spec 0 (u + k)), (Z.leb_spec (u + k) (n + k + (0 + 0)));
      cbn [andb]; lia.
Qed.

Lemma existsb_eqb_In (x : Z) (us : list Z) :
  existsb (Z.eqb x) us = true <-> In x us.
Proof.
  rewrite existsb_exists. split.
  - intros (u & Hu & E). apply Z.eqb_eq in E. subst. exact Hu.
  - intros H. exists x. split; [exact H | apply Z.eqb_refl].
Qed.

(** * Order of valid timestamps *)

Lemma timeNumber_minute (t : smart_tm) :
  timeNumber t = minuteNumber t * 60 + sec t.
Proof. unfold timeNumber, minuteNumber. lia. Qed.

Lemma dayNumber_lt (a b : smart_tm) :
  validDate a -> validDate b -> date_lt a b -> dayNumber a < dayNumber b.
Proof.
  intros (Ya & Ma & Da) (Yb & Mb & Db) L. unfold dayNumber.
  pose proof (daysBeforeMonthIn_range (yr a) (mon a) Ma) as [Ra1 Ra2].
  pose proof (daysBeforeMonthIn_range (yr b) (mon b) Mb) as [Rb1 Rb2].
  destruct L as [L | [E [L | [E' L]]]].
  - pose proof (leapCount_succ (yr a) Ya) as K.
    pose proof (leapCount_mono (yr a) (yr b - 1) ltac:(lia)) as Mo.
    destruct (isLeapYear_u (yr a)); lia.
  - rewrite E in *.
    pose proof (daysBeforeMonthIn_mono (yr b) (mon a) (mon b) ltac:(lia) L ltac:(lia)).
    lia.
  - rewrite E, E' in *. lia.
Qed.

Lemma minuteNumber_lt (a b : smart_tm) :
  validDate a -> validDate b -> validClock a -> validClock b ->
  minute_lt a b -> minuteNumber a < minuteNumber b.
Proof.
  intros Va Vb (Ha & Ma) (Hb & Mb) L. unfold minuteNumber.
  destruct L as [L | (E1 & E2 & E3 & L)].
  - pose proof (dayNumber_lt a b Va Vb L). lia.
  - assert (dayNumber a = dayNumber b) by (unfold dayNumber; rewrite E1, E2, E3; reflexivity).
    lia.
Qed.

Lemma minute_trichotomy (a b : smart_tm) :
  minute_lt a b \/ same_minute a b \/ minute_lt b a.
Proof. unfold minute_lt, date_lt, same_minute. lia. Qed.

Lemma minuteNumber_inj (a b : smart_tm) :
  validDate a -> validDate b -> validClock a -> validClock b ->
  minuteNumber a = minuteNumber b -> same_minute a b.
Proof.
  intros Va Vb Ca Cb E.
  destruct (minute_trichotomy a b) as [L | [S | L]]; [| exact S |].
  - pose proof (minuteNumber_lt a b Va Vb Ca Cb L). lia.
  - pose proof (minuteNumber_lt b a Vb Va Cb Ca L). lia.
Qed.

Lemma minuteNumber_lt_iff (a b : smart_tm) :
  validDate a -> validDate b -> validClock a -> validClock b ->
  (minute_lt a b <-> minuteNumber a < minuteNumber b).
Proof.
  intros Va Vb Ca Cb. split; [apply minuteNumber_lt; assumption |].
  intros L. destruct (minute_trichotomy a b) as [H | [S | H]]; [exact H | |].
  - exfalso. assert (minuteNumber a = minuteNumber b); [| lia].
    destruct S as (E1 & E2 & E3 & E4 & E5).
    unfold minuteNumber, dayNumber. rewrite E1, E2, E3, E4, E5. reflexivity.
  - pose proof (minuteNumber_lt b a Vb Va Cb Ca H). lia.
Qed.

Lemma same_minute_iff (a b : smart_tm) :
  validDate a -> validDate b -> validClock a -> validClock b ->
  (same_minute a b <-> minuteNumber a = minuteNumber b).
Proof.
  intros Va Vb Ca Cb. split; [| apply minuteNumber_inj; assumption].
  intros (E1 & E2 & E3 & E4 & E5).
  unfold minuteNumber, dayNumber. rewrite E1, E2, E3, E4, E5. reflexivity.
Qed.

(** The code's comparisons, read on the fields. *)
Lemma before_noFrac_leap (tm t : smart_tm) :
  sec tm = 60 -> sec t <= 60 -> (before_noFrac tm t = true <-> minute_lt tm t).
Proof.
  intros S60 S. unfold before_noFrac, fields6, lex_lt, minute_lt, date_lt.
  rewrite !orb_true_iff, !andb_true_iff, !orb_true_iff, !andb_true_iff,
    !orb_true_iff, !andb_true_iff, !orb_true_iff, !andb_true_iff,
    !orb_true_iff, !andb_true_iff, !orb_true_iff, !andb_true_iff.
  rewrite !Z.ltb_lt, !Z.eqb_eq. split; intros H; [| lia].
  intuition (try discriminate; lia).
Qed.

Lemma isLeapMinute_cond (t tm : smart_tm) :
  ((yr t =? yr tm) && (mon t =? mon tm) && (day t =? day tm) && (hr t =? hr tm)
   && (min t =? min tm)) = true <-> same_minute tm t.
Proof.
  unfold same_minute. rewrite !andb_true_iff, !Z.eqb_eq. lia.
Qed.

(** * Consistent tables *)

Lemma validDateb_spec (t : smart_tm) : validDateb t = true -> validDate t.
Proof.
  unfold validDateb, validDate. rewrite !andb_true_iff, !Z.leb_le. lia.
Qed.

Lemma validClockb_spec (t : smart_tm) : validClockb t = true -> validClock t.
Proof.
  unfold validClockb, validClock. rewrite !andb_true_iff, !Z.leb_le. lia.
Qed.

Lemma leapInstantb_spec (tm : smart_tm) : leapInstantb tm = true -> leapInstant tm.
Proof.
  unfold leapInstantb, leapInstant. rewrite !andb_true_iff, Z.eqb_eq.
  intros [[V C] S]. split; [apply validDateb_spec, V |].
  split; [apply validClockb_spec, C | exact S].
Qed.

Lemma tables_from_spec (st : State) (prev i : Z) (tms : list smart_tm)
    (deltas : list Z) :
  tables_from st prev i tms deltas = true ->
  Forall leapInstant tms
  /\ increasing prev (map (offsetOf st) tms)
  /\ deltas = deltas_from i (map (offsetOf st) tms).
Proof.
  revert prev i deltas. induction tms as [| tm tms IH]; intros prev i deltas H.
  - destruct deltas; [| discriminate]. repeat split. constructor.
  - destruct deltas as [| d deltas]; [discriminate |].
    cbn [tables_from] in H. rewrite !andb_true_iff in H.
    destruct H as [[[L P] D] T].
    apply Z.ltb_lt in P. apply Z.eqb_eq in D.
    destruct (IH _ _ _ T) as (F & I & E).
    split; [constructor; [apply leapInstantb_spec, L | exact F] |].
    split; [cbn; split; assumption |].
    cbn [map deltas_from]. rewrite D, E. reflexivity.
Qed.

Lemma tables_ok_consistent (st : State) : tables_ok st = true -> consistent st.
Proof.
  unfold tables_ok. rewrite !andb_true_iff.
  intros [[[[[[[[Y M] D] H] Mi] S] F] T] L].
  destruct (tables_from_spec _ _ _ _ _ T) as (I1 & I2 & I3).
  apply Z.leb_le in Y. apply Z.eqb_eq in M, D, H, Mi, S. apply Z.ltb_lt in L.
  constructor; assumption.
Qed.

Section Consistent.

Variable st : State.
Hypothesis C : consistent st.

Lemma epoch_timeNumber : timeNumber (epoch st) = dayNumber (epoch st) * 86400.
Proof.
  unfold timeNumber. rewrite (c_epoch_hr st C), (c_epoch_min st C), (c_epoch_sec st C).
  lia.
Qed.

Lemma epoch_validDate : validDate (epoch st).
Proof.
  unfold validDate. rewrite (c_epoch_mon st C), (c_epoch_day st C).
  pose proof (c_epoch_yr st C). pose proof (monthLength_range (yr (epoch st)) 1). lia.
Qed.

Lemma epoch_validClock : validClock (epoch st).
Proof. unfold validClock. rewrite (c_epoch_hr st C), (c_epoch_min st C). lia. Qed.

Lemma offsetOf_minute (t : smart_tm) : offsetOf st t = minuteOffset st t + sec t.
Proof. unfold offsetOf, minuteOffset. rewrite timeNumber_minute. lia. Qed.

Lemma minuteOffset_mod (t : smart_tm) : minuteOffset st t mod 60 = 0.
Proof.
  unfold minuteOffset. rewrite epoch_timeNumber.
  replace (minuteNumber t * 60 - dayNumber (epoch st) * 86400)
    with ((minuteNumber t - dayNumber (epoch st) * 1440) * 60) by lia.
  apply Z.mod_mul. lia.
Qed.

Lemma offsets_mod (u : Z) : In u (offsets st) -> u mod 60 = 0.
Proof.
  unfold offsets. rewrite in_map_iff. intros (tm & <- & Hin).
  pose proof (proj1 (Forall_forall _ _) (c_instants st C) tm Hin) as (_ & _ & S).
  rewrite offsetOf_minute, S.
  pose proof (minuteOffset_mod tm). Z.div_mod_to_equations. lia.
Qed.

Lemma filter_map_length (A : Type) (f : A -> Z) (p : A -> bool) (q : Z -> bool)
    (l : list A) :
  (forall x, In x l -> p x = q (f x)) ->
  List.length (filter p l) = List.length (filter q (map f l)).
Proof.
  induction l as [| x l IH]; intros H; [reflexivity |].
  cbn [filter map]. rewrite <- (H x (or_introl eq_refl)).
  pose proof (IH (fun y Hy => H y (or_intror Hy))) as E.
  destruct (p x); cbn [List.length]; rewrite E; reflexivity.
Qed.

Lemma existsb_map_ext (A : Type) (f : A -> Z) (p : A -> bool) (q : Z -> bool)
    (l : list A) :
  (forall x, In x l -> p x = q (f x)) ->
  existsb p l = existsb q (map f l).
Proof.
  induction l as [| x l IH]; intros H; [reflexivity |].
  cbn [existsb map]. rewrite <- (H x (or_introl eq_refl)).
  rewrite (IH (fun y Hy => H y (or_intror Hy))). reflexivity.
Qed.

Lemma bool_eq_iff (a b : bool) : (a = true <-> b = true) -> a = b.
Proof. destruct a, b; intuition congruence. Qed.

(** The leap instants strictly before [t] are those whose offset is at
    most the offset of the start of [t]'s minute. *)
Lemma leapInstantsBefore_count (t : smart_tm) :
  validDate t -> validClock t -> sec t <= 60 ->
  leapInstantsBefore st t = countLe (offsets st) (minuteOffset st t).
Proof.
  intros V K S. unfold leapInstantsBefore, countLe, offsets. f_equal.
  apply filter_map_length. intros tm Hin.
  pose proof (proj1 (Forall_forall _ _) (c_instants st C) tm Hin) as (Vm & Km & Sm).
  apply bool_eq_iff. rewrite before_noFrac_leap by assumption.
  rewrite minuteNumber_lt_iff by assumption.
  rewrite Z.leb_le, offsetOf_minute, Sm. unfold minuteOffset. lia.
Qed.

(** A minute is a leap minute when the offset of its end is in the table. *)
Lemma isLeapMinute_offsets (t : smart_tm) :
  validDate t -> validClock t ->
  isLeapMinute st t = existsb (Z.eqb (minuteOffset st t + 60)) (offsets st).
Proof.
  intros V K. unfold isLeapMinute, offsets.
  apply existsb_map_ext. intros tm Hin.
  pose proof (proj1 (Forall_forall _ _) (c_instants st C) tm Hin) as (Vm & Km & Sm).
  apply bool_eq_iff. rewrite isLeapMinute_cond.
  rewrite same_minute_iff by assumption.
  rewrite Z.eqb_eq, offsetOf_minute, Sm. unfold minuteOffset. lia.
Qed.

(** [toEpoch] of a timestamp with a valid date: the offset plus the leap
    instants before it. *)
Lemma toEpoch_sum_offset (t : smart_tm) :
  validDate t ->
  toEpoch_sum st t = offsetOf st t + leapInstantsBefore st t.
Proof.
  intros V. pose proof epoch_validDate as Ve.
  unfold toEpoch_sum, leapDaysWalkedThroughFrom, offsetOf.
  rewrite epoch_timeNumber. unfold timeNumber.
  destruct V as (Y & M & D). destruct Ve as (Ye & Me & De).
  assert (Ft : mon t = 2 -> day t <= 29).
  { intros E. rewrite E in D. unfold monthLength in D.
    change (days_at (2 - 1)) with 28 in D.
    destruct ((2 - 1 =? Feb) && isLeapYear_u (yr t)); lia. }
  assert (Fe : mon (epoch st) = 2 -> day (epoch st) <= 29)
    by (rewrite (c_epoch_mon st C); lia).
  rewrite (dayNumber_plain t Y M Ft), (dayNumber_plain (epoch st) Ye Me Fe).
  unfold plainDayNumber. rewrite (c_epoch_mon st C), (c_epoch_day st C).
  change (daysBeforeMonth 1) with 0. lia.
Qed.

Lemma toEpoch_sum_count (t : smart_tm) :
  validDate t -> validClock t -> sec t <= 60 ->
  toEpoch_sum st t = offsetOf st t + countLe (offsets st) (minuteOffset st t).
Proof.
  intros V K S. rewrite toEpoch_sum_offset by assumption.
  rewrite leapInstantsBefore_count by assumption. reflexivity.
Qed.

End Consistent.

(** * Normalisation of the second field *)

Lemma while_loop_false (fuel : nat) (cond : smart_tm -> bool)
    (body : smart_tm -> smart_tm) (t : smart_tm) :
  cond t = false -> while_loop fuel cond body t = t.
Proof. intros H. destruct fuel; cbn [while_loop]; [| rewrite H]; reflexivity. Qed.

Lemma plain_after_first_day (t : smart_tm) :
  validDate t -> 365 < dayNumber t -> 366 <= plainDayNumber t.
Proof.
  intros (Y & M & D) N.
  destruct (Z.le_gt_cases 366 (plainDayNumber t)) as [| G]; [assumption | exfalso].
  unfold plainDayNumber in G. pose proof (daysBeforeMonth_nonneg (mon t) M) as P.
  assert (Ey : yr t = 1) by lia.
  assert (Ed : day t = 1) by lia.
  assert (Ec : daysBeforeMonth (mon t) = 0) by lia.
  assert (Em : mon t = 1).
  { assert (forall m, 1 <= m <= 12 -> daysBeforeMonth m = 0 -> m = 1) as T.
    { intros m H. month_split m H; vm_compute; intros; congruence. }
    apply T; assumption. }
  unfold dayNumber in N. rewrite Ey, Ed, Em in N.
  vm_compute in N. discriminate.
Qed.

Lemma numSecondsOfMinute_set_sec (st : State) (t : smart_tm) (s : Z) :
  numSecondsOfMinute st (set_sec t s) = numSecondsOfMinute st t.
Proof. reflexivity. Qed.

Section Seconds.

Variable st : State.
Hypothesis C : consistent st.

Lemma numSecondsOfMinute_offsets (t : smart_tm) :
  validDate t -> validClock t ->
  numSecondsOfMinute st t
  = 60 + (if existsb (Z.eqb (minuteOffset st t + 60)) (offsets st) then 1 else 0).
Proof.
  intros V K. unfold numSecondsOfMinute.
  rewrite (isLeapMinute_offsets st C) by assumption.
  destruct (existsb _ _); reflexivity.
Qed.

Lemma numSecondsOfMinute_range (t : smart_tm) :
  60 <= numSecondsOfMinute st t <= 61.
Proof. unfold numSecondsOfMinute. destruct (isLeapMinute st t); lia. Qed.

Lemma validDate_set_sec (t : smart_tm) (s : Z) : validDate t -> validDate (set_sec t s).
Proof. exact (fun H => H). Qed.

Lemma validDate_set_min (t : smart_tm) (m : Z) : validDate t -> validDate (set_min t m).
Proof. exact (fun H => H). Qed.

(** One pass of the backward loop of [fixSec]. *)
Lemma seconds_backward_step (n : Z) (u : smart_tm) :
  0 <= n -> validDate u -> validClock u -> countAt st u = n -> sec u < 0 ->
  let u2 := fixMin (set_min u (min u - 1)) in
  let u' := set_sec u2 (sec u2 + numSecondsOfMinute st u2) in
  validDate u' /\ validClock u' /\ countAt st u' = n
  /\ sec u < sec u' <= numSecondsOfMinute st u' - 1
  /\ fracSec u' = fracSec u.
Proof.
  intros Hn V K Cn S. cbv zeta.
  pose proof (offsetOf_minute st u) as Ou.
  pose proof (minuteOffset_mod st C u) as Mu.
  assert (Pos : 0 < minuteOffset st u).
  { destruct (Z.lt_ge_cases 0 (minuteOffset st u)) as [| G]; [assumption | exfalso].
    unfold countAt in Cn.
    rewrite (countLe_below 59 (offsets st)) in Cn
      by (try apply (c_increasing st C); lia).
    lia. }
  destruct K as (Kh & Km).
  destruct (fixMin_spec (set_min u (min u - 1))) as (V2 & K2 & T2 & S2 & F2).
  - exact V.
  - exact Kh.
  - cbn [min set_min]. unfold two52. lia.
  - cbn [min hr set_min]. intros Neg. split; [lia |]. intros H0.
    apply plain_after_first_day; [exact V |].
    change (365 < dayNumber u).
    pose proof (epoch_validDate st C) as Ve.
    pose proof (validDate_plain _ Ve) as Pe.
    pose proof (dayNumber_ge_plain (epoch st) (c_epoch_yr st C)) as De.
    unfold minuteOffset in Pos. rewrite (epoch_timeNumber st C) in Pos.
    unfold minuteNumber in Pos. lia.
  - cbv zeta in V2, K2, T2, S2, F2.
    set (u2 := fixMin (set_min u (min u - 1))) in *. clearbody u2.
    change (sec (set_min u (min u - 1))) with (sec u) in S2.
    change (fracSec (set_min u (min u - 1))) with (fracSec u) in F2.
    assert (T2' : timeNumber u2 = timeNumber u - 60)
      by (rewrite T2; unfold timeNumber, dayNumber; cbn [yr mon day hr min sec set_min]; lia).
    assert (M2 : minuteOffset st u2 = minuteOffset st u - 60).
    { unfold minuteOffset. pose proof (timeNumber_minute u2).
      pose proof (timeNumber_minute u). lia. }
    pose proof (numSecondsOfMinute_offsets u2 V2 K2) as L2.
    rewrite M2 in L2. replace (minuteOffset st u - 60 + 60) with (minuteOffset st u) in L2 by lia.
    pose proof (countLe_step60 59 (offsets st) (minuteOffset st u - 60)
                  (c_increasing st C) (offsets_mod st C)) as St.
    replace (minuteOffset st u - 60 + 60) with (minuteOffset st u) in St by lia.
    specialize (St ltac:(Z.div_mod_to_equations; lia)).
    pose proof (numSecondsOfMinute_range u2) as R2.
    split; [exact V2 |]. split; [exact K2 |].
    rewrite numSecondsOfMinute_set_sec.
    split; [| split; [cbn [sec set_sec]; lia | cbn [fracSec set_sec]; exact F2]].
    unfold countAt in *.
    assert (Mu' : minuteOffset st (set_sec u2 (sec u2 + numSecondsOfMinute st u2))
                  = minuteOffset st u2) by reflexivity.
    rewrite (offsetOf_minute st (set_sec u2 _)), Mu', M2. cbn [sec set_sec].
    lia.
Qed.

Lemma fixSec_loops_spec (n : Z) (t : smart_tm) :
  0 <= n -> validDate t -> validClock t -> countAt st t = n -> sec t <= 59 ->
  let r := fixSec_loops st t in
  normal st r /\ countAt st r = n /\ fracSec r = fracSec t.
Proof.
  intros Hn V K Cn S. cbv zeta. unfold fixSec_loops, START_SEC.
  pose proof (numSecondsOfMinute_range t) as R.
  rewrite (while_loop_false _ _ _ t) by (apply Z.ltb_ge; lia).
  match goal with
  | |- context [while_loop ?m ?c ?b t] =>
      destruct (while_loop_inv
                  (fun u => validDate u /\ validClock u /\ countAt st u = n
                            /\ sec u <= numSecondsOfMinute st u - 1
                            /\ fracSec u = fracSec t)
                  (fun u => 0 - sec u) c b) with (fuel := m) (t := t)
        as [P3 C3]
  end.
  - intros u (Vu & Ku & Cu & Su & Fu) Cd. apply Z.ltb_lt in Cd.
    destruct (seconds_backward_step n u Hn Vu Ku Cu Cd) as (V' & K' & C' & S' & F').
    cbv zeta in V', K', C', S', F'.
    split; [| lia].
    split; [exact V' |]. split; [exact K' |]. split; [exact C' |].
    split; [lia | congruence].
  - intros u _ Cd. apply Z.ltb_lt in Cd. lia.
  - repeat split; try assumption; try lia; apply V || apply K.
  - lia.
  - apply Z.ltb_ge in C3. destruct P3 as (V3 & K3 & C3' & S3 & F3).
    split; [| split; assumption]. unfold normal.
    split; [exact V3 |]. split; [exact K3 |]. lia.
Qed.

End Seconds.

(** * The constructor from an epoch offset *)

Lemma fixMon_in_limits (t : smart_tm) : 1 <= mon t <= 12 -> fixMon t = t.
Proof.
  intros H. unfold fixMon, monInLimits, START_MON, END_MON.
  destruct (Z.leb_spec 1 (mon t)), (Z.leb_spec (mon t) 12); try lia. reflexivity.
Qed.

Lemma fixDay_in_limits (t : smart_tm) : validDate t -> fixDay t = t.
Proof.
  intros (Y & M & D). unfold fixDay, dayInLimits, START_DAY.
  rewrite numDaysOfMonth_spec by lia.
  destruct (Z.leb_spec 1 (day t)), (Z.leb_spec (day t) (1 + monthLength (yr t) (mon t) - 1));
    try lia.
  reflexivity.
Qed.

Lemma fixHr_in_limits (t : smart_tm) : 0 <= hr t <= 23 -> fixHr t = t.
Proof.
  intros H. unfold fixHr, hrInLimits, START_HR, END_HR.
  destruct (Z.leb_spec 0 (hr t)), (Z.leb_spec (hr t) 23); try lia. reflexivity.
Qed.

Lemma fixMin_in_limits (t : smart_tm) : 0 <= min t <= 59 -> fixMin t = t.
Proof.
  intros H. unfold fixMin, minInLimits, START_MIN, END_MIN.
  destruct (Z.leb_spec 0 (min t)), (Z.leb_spec (min t) 59); try lia. reflexivity.
Qed.

Lemma fixSec_unfold (st : State) (t : smart_tm) :
  fixSec st t
  = if secInLimits st t then t
    else
      let oldEpoch := toEpoch st (set_sec t 0) in
      let count := D2LL (Dfloor (Ddiv (Z2D (sec t - 0)) (Z2D 60))) in
      let t3 := fixMin (set_min (set_sec t 0) (min t + count)) in
      let t4 := set_sec t3 (sec t - count * 60) in
      let newEpoch := toEpoch st t4 in
      let t5 :=
        set_sec t4
          (sec t4 - leapSecondsWalkedThroughFrom (leapSecondDeltas st) oldEpoch newEpoch) in
      fixSec_loops st (fixMin t5).
Proof. unfold fixSec. destruct (secInLimits st t); reflexivity. Qed.

Section SinceEpoch.

Variable st : State.
Hypothesis C : consistent st.

Lemma countLe_start (x : Z) : x <= 59 -> countLe (offsets st) x = 0.
Proof. intros H. apply (countLe_below 59); [apply (c_increasing st C) | lia]. Qed.

Lemma offsets_length :
  Z.of_nat (List.length (offsets st)) < 2 ^ 32.
Proof. unfold offsets. rewrite length_map. apply (c_length st C). Qed.

(** [toEpoch] of a normal timestamp. *)
Lemma toEpoch_countAt (t : smart_tm) :
  validDate t -> validClock t -> 0 <= sec t <= 60 -> 0 <= minuteOffset st t < two52 ->
  toEpoch st t = countAt st t.
Proof.
  intros V K S M.
  rewrite toEpoch_wrap by (destruct V as (_ & ? & _); lia).
  rewrite (toEpoch_sum_count st C) by (assumption || lia).
  unfold countAt. apply wrap64_small.
  rewrite offsetOf_minute.
  pose proof (countLe_nonneg (offsets st) (minuteOffset st t)).
  pose proof (countLe_length (offsets st) (minuteOffset st t)).
  pose proof offsets_length. unfold two52, two64 in *. lia.
Qed.

(** [fixSec] on a timestamp at the Epoch Reference's minute, with any
    number of seconds from 0 on. *)
Lemma fixSec_from_start (t : smart_tm) :
  validDate t -> validClock t -> minuteOffset st t = 0 -> 0 <= sec t < two52 ->
  let r := fixSec st t in
  normal st r /\ countAt st r = sec t /\ fracSec r = fracSec t.
Proof.
  intros V K M0 Hn. cbv zeta. rewrite fixSec_unfold, secInLimits_spec.
  pose proof (numSecondsOfMinute_range st t) as R0.
  destruct ((0 <=? sec t) && (sec t <=? numSecondsOfMinute st t - 1)) eqn:L.
  - apply andb_true_iff in L. destruct L as [L1 L2]. apply Z.leb_le in L1, L2.
    split; [split; [exact V | split; [exact K | lia]] |].
    split; [| reflexivity].
    unfold countAt. rewrite offsetOf_minute, M0, countLe_start by lia. lia.
  - assert (N60 : 60 <= sec t).
    { apply andb_false_iff in L. destruct L as [L | L]; apply Z.leb_gt in L; lia. }
    clear L. cbv zeta. rewrite floor_div_double by (unfold two52, two53 in *; lia).
    rewrite Z.sub_0_r.
    assert (E0 : toEpoch st (set_sec t 0) = 0).
    { rewrite toEpoch_countAt.
      - unfold countAt. rewrite offsetOf_minute.
        change (minuteOffset st (set_sec t 0)) with (minuteOffset st t).
        rewrite M0, countLe_start by lia. reflexivity.
      - exact V.
      - exact K.
      - cbn [sec set_sec]. lia.
      - change (minuteOffset st (set_sec t 0)) with (minuteOffset st t).
        rewrite M0. unfold two52. lia. }
    rewrite E0.
    assert (Hc : 0 <= sec t / 60 /\ sec t / 60 * 60 <= sec t < sec t / 60 * 60 + 60)
      by (Z.div_mod_to_equations; lia).
    set (c := sec t / 60) in *. clearbody c.
    destruct K as (Kh & Km).
    destruct (fixMin_spec (set_min (set_sec t 0) (min t + c))) as (V3 & K3 & T3 & S3 & F3).
    + exact V.
    + exact Kh.
    + cbn [min set_min]. unfold two52 in *. lia.
    + cbn [min set_min]. intros Neg. exfalso. lia.
    + cbv zeta in V3, K3, T3, S3, F3.
      set (t3 := fixMin (set_min (set_sec t 0) (min t + c))) in *. clearbody t3.
      change (sec (set_min (set_sec t 0) (min t + c))) with 0 in S3.
      change (fracSec (set_min (set_sec t 0) (min t + c))) with (fracSec t) in F3.
      assert (M3 : minuteOffset st t3 = c * 60).
      { pose proof (timeNumber_minute t3) as E3. rewrite S3, T3 in E3.
        unfold minuteOffset in *. unfold timeNumber, minuteNumber in *.
        cbn [yr mon day hr min sec set_min set_sec] in E3.
        change (dayNumber (set_min (set_sec t 0) (min t + c))) with (dayNumber t) in E3.
        lia. }
      pose proof (countLe_within_minute (offsets st) (c * 60) (sec t - c * 60)
                    (offsets_mod st C) ltac:(apply Z.mod_mul; lia) ltac:(lia)) as W.
      replace (c * 60 + (sec t - c * 60)) with (sec t) in W by lia.
      pose proof (countLe_nonneg (offsets st) (sec t)) as P1.
      pose proof (countLe_length (offsets st) (sec t)) as P2.
      pose proof offsets_length as P3.
      assert (E4 : toEpoch st (set_sec t3 (sec t - c * 60))
                   = sec t + countLe (offsets st) (sec t)).
      { rewrite toEpoch_countAt.
        - unfold countAt. rewrite offsetOf_minute.
          change (minuteOffset st (set_sec t3 (sec t - c * 60)))
            with (minuteOffset st t3).
          rewrite M3, <- W. cbn [sec set_sec]. lia.
        - exact V3.
        - exact K3.
        - cbn [sec set_sec]. lia.
        - change (minuteOffset st (set_sec t3 (sec t - c * 60)))
            with (minuteOffset st t3).
          rewrite M3. unfold two52 in *. lia. }
      rewrite E4.
      rewrite leapSecondsWalkedThroughFrom_forward by lia.
      rewrite (c_deltas st C).
      pose proof (entriesBetween_deltas 59 (offsets st) 0 (sec t)
                    (c_increasing st C) ltac:(lia) ltac:(lia)) as B.
      replace (sec t + 0 + countLe (offsets st) (sec t))
        with (sec t + countLe (offsets st) (sec t)) in B by lia.
      rewrite B.
      set (a := countLe (offsets st) (sec t)) in *. clearbody a.
      cbn [sec set_sec].
      rewrite fixMin_in_limits by (cbn [min set_sec]; apply K3).
      destruct (fixSec_loops_spec st C (sec t)
                  (set_sec (set_sec t3 (sec t - c * 60)) (sec t - c * 60 - a)))
        as (Nr & Cr & Fr).
      * lia.
      * exact V3.
      * exact K3.
      * unfold countAt. rewrite offsetOf_minute.
        change (minuteOffset st
                  (set_sec (set_sec t3 (sec t - c * 60)) (sec t - c * 60 - a)))
          with (minuteOffset st t3).
        rewrite M3, W. cbn [sec set_sec]. lia.
      * cbn [sec set_sec]. lia.
      * cbv zeta in Nr, Cr, Fr.
        split; [exact Nr |]. split; [exact Cr |].
        rewrite Fr. exact F3.
Qed.

Lemma fracSecInLimits_ext (a b : smart_tm) :
  fracSec a = fracSec b -> fracSecInLimits a = fracSecInLimits b.
Proof. intros E. unfold fracSecInLimits. rewrite E. reflexivity. Qed.

(** The constructor from an epoch offset gives the normal timestamp at
    that offset. *)
Lemma sinceEpoch_normal (n : Z) :
  0 <= n < two52 ->
  normal st (smart_tm_sinceEpoch st n) /\ countAt st (smart_tm_sinceEpoch st n) = n.
Proof.
  intros Hn. unfold smart_tm_sinceEpoch. cbv zeta.
  rewrite (c_epoch_sec st C), Z.add_0_l.
  rewrite to_signed64_small by (unfold two52, two63 in *; lia).
  pose proof (epoch_validDate st C) as Ve.
  pose proof (epoch_validClock st C) as Ke.
  assert (M0 : minuteOffset st (set_sec (epoch st) n) = 0).
  { change (minuteOffset st (set_sec (epoch st) n)) with (minuteOffset st (epoch st)).
    unfold minuteOffset. rewrite timeNumber_minute, (c_epoch_sec st C). lia. }
  destruct (fixSec_from_start (set_sec (epoch st) n) Ve Ke M0 Hn) as (Nr & Cr & Fr).
  cbv zeta in Nr, Cr, Fr. cbn [sec set_sec fracSec] in Cr, Fr.
  unfold adjust. destruct (isValid st (set_sec (epoch st) n)) eqn:I.
  - unfold isValid in I. rewrite !andb_true_iff in I.
    destruct I as [[_ S] _].
    rewrite fixSec_unfold, S in Nr, Cr. split; assumption.
  - cbv zeta.
    rewrite (fixMon_in_limits (set_sec (epoch st) n)) by apply Ve.
    rewrite (fixDay_in_limits (set_sec (epoch st) n)) by exact Ve.
    rewrite (fixHr_in_limits (set_sec (epoch st) n)) by apply Ke.
    rewrite (fixMin_in_limits (set_sec (epoch st) n)) by apply Ke.
    unfold fixFracSec.
    rewrite (fracSecInLimits_ext _ (epoch st) Fr), (c_epoch_frac st C).
    split; assumption.
Qed.

(** Carrying an epoch offset into a timestamp and back gives the offset. *)
Lemma toEpoch_sinceEpoch_consistent (n : Z) :
  0 <= n < two52 -> toEpoch st (smart_tm_sinceEpoch st n) = n.
Proof.
  intros Hn. destruct (sinceEpoch_normal n Hn) as ((V & K & S) & Cn).
  pose proof (numSecondsOfMinute_range st (smart_tm_sinceEpoch st n)) as R.
  rewrite toEpoch_countAt; try assumption; try lia.
  unfold countAt in Cn. rewrite offsetOf_minute in Cn.
  pose proof (minuteOffset_mod st C (smart_tm_sinceEpoch st n)) as Mm.
  pose proof (countLe_nonneg (offsets st) (minuteOffset st (smart_tm_sinceEpoch st n))) as P.
  destruct (Z.lt_ge_cases (minuteOffset st (smart_tm_sinceEpoch st n)) 0) as [Neg | Pos].
  - rewrite countLe_start in Cn by lia.
    rewrite (numSecondsOfMinute_offsets st C) in S by assumption.
    rewrite (existsb_below 59) in S
      by (try apply (c_increasing st C); Z.div_mod_to_equations; lia).
    exfalso. Z.div_mod_to_equations. lia.
  - lia.
Qed.

End SinceEpoch.

(** * The round trip through the epoch offset *)

Section RoundTrip.

Variable st : State.
Hypothesis C : consistent st.

(** [countAt] is strictly increasing from one minute to a later one. *)
Lemma countAt_minute_lt (a b : smart_tm) :
  normal st a -> normal st b -> minuteOffset st a < minuteOffset st b ->
  countAt st a < countAt st b.
Proof.
  intros (Va & Ka & Sa) (Vb & Kb & Sb) L.
  pose proof (minuteOffset_mod st C a) as Ma.
  pose proof (minuteOffset_mod st C b) as Mb.
  rewrite (numSecondsOfMinute_offsets st C) in Sa by assumption.
  pose proof (countLe_step60 59 (offsets st) (minuteOffset st a)
                (c_increasing st C) (offsets_mod st C) Ma) as St.
  pose proof (countLe_mono (offsets st) (minuteOffset st a + 60) (minuteOffset st b)
                ltac:(Z.div_mod_to_equations; lia)) as Mo.
  assert (G : minuteOffset st a + 60 <= minuteOffset st b)
    by (Z.div_mod_to_equations; lia).
  unfold countAt. rewrite !offsetOf_minute.
  destruct (existsb (Z.eqb (minuteOffset st a + 60)) (offsets st)); lia.
Qed.

(** Two normal timestamps with the same [countAt] agree on the six integer
    fields. *)
Lemma countAt_inj (a b : smart_tm) :
  normal st a -> normal st b -> countAt st a = countAt st b ->
  equalsNoFrac a b = true.
Proof.
  intros Na Nb E.
  destruct (Z.lt_trichotomy (minuteOffset st a) (minuteOffset st b)) as [L | [Q | L]].
  - pose proof (countAt_minute_lt a b Na Nb L). lia.
  - destruct Na as (Va & Ka & Sa), Nb as (Vb & Kb & Sb).
    assert (same_minute a b) as (E1 & E2 & E3 & E4 & E5).
    { apply minuteNumber_inj; try assumption. unfold minuteOffset in Q. lia. }
    unfold countAt in E. rewrite !offsetOf_minute, Q in E.
    unfold equalsNoFrac. rewrite E1, E2, E3, E4, E5, !Z.eqb_refl. cbn [andb].
    apply Z.eqb_eq. lia.
  - pose proof (countAt_minute_lt b a Nb Na L). lia.
Qed.

(** A valid timestamp is normal and its year is between the Epoch
    Reference's and 9999. *)
Lemma isValid_normal (t : smart_tm) :
  isValid st t = true -> normal st t /\ yr (epoch st) <= yr t <= 9999.
Proof.
  unfold isValid. rewrite !andb_true_iff. intros [[[[[[Y M] D] H] Mi] S] F].
  pose proof (c_epoch_yr st C) as Ye.
  unfold yrInLimits, END_YR in Y. apply andb_true_iff in Y.
  destruct Y as [Y1 Y2]. apply Z.leb_le in Y1, Y2.
  unfold monInLimits, START_MON, END_MON in M. apply andb_true_iff in M.
  destruct M as [M1 M2]. apply Z.leb_le in M1, M2.
  unfold dayInLimits, START_DAY in D. rewrite numDaysOfMonth_spec in D by lia.
  apply andb_true_iff in D. destruct D as [D1 D2]. apply Z.leb_le in D1, D2.
  unfold hrInLimits, START_HR, END_HR in H. apply andb_true_iff in H.
  destruct H as [H1 H2]. apply Z.leb_le in H1, H2.
  unfold minInLimits, START_MIN, END_MIN in Mi. apply andb_true_iff in Mi.
  destruct Mi as [Mi1 Mi2]. apply Z.leb_le in Mi1, Mi2.
  rewrite secInLimits_spec in S. apply andb_true_iff in S.
  destruct S as [S1 S2]. apply Z.leb_le in S1, S2.
  split; [| lia]. unfold normal, validDate, validClock. lia.
Qed.

Lemma daysBeforeMonthIn_january (y : Z) : daysBeforeMonthIn y 1 = 0.
Proof. unfold daysBeforeMonthIn. destruct (isLeapYear_u y); reflexivity. Qed.

Lemma minuteOffset_bounds (t : smart_tm) :
  validDate t -> validClock t -> yr (epoch st) <= yr t <= 9999 ->
  0 <= minuteOffset st t < 2 ^ 40.
Proof.
  intros (Y & M & D) (Kh & Km) Yr. unfold minuteOffset.
  rewrite (epoch_timeNumber st C).
  unfold minuteNumber, dayNumber. rewrite (c_epoch_mon st C), (c_epoch_day st C).
  rewrite daysBeforeMonthIn_january.
  pose proof (c_epoch_yr st C) as Ye.
  pose proof (leapCount_mono (yr (epoch st) - 1) (yr t - 1) ltac:(lia)) as L1.
  pose proof (leapCount_mono (yr t - 1) 9998 ltac:(lia)) as L2.
  assert (E : leapCount 9998 = 2424) by reflexivity. rewrite E in L2.
  pose proof (leapCount_nonneg (yr (epoch st) - 1) ltac:(lia)) as L3.
  pose proof (daysBeforeMonthIn_range (yr t) (mon t) M) as [R1 R2].
  destruct (isLeapYear_u (yr t)); lia.
Qed.

(** The epoch offset of a valid timestamp, carried back into a timestamp,
    agrees with it on the six integer fields. *)
Lemma sinceEpoch_toEpoch_consistent (t : smart_tm) :
  isValid st t = true ->
  equalsNoFrac (smart_tm_sinceEpoch st (toEpoch st t)) t = true.
Proof.
  intros I. destruct (isValid_normal t I) as (N & Yr).
  pose proof N as (V & K & S).
  pose proof (numSecondsOfMinute_range st t) as R.
  pose proof (minuteOffset_bounds t V K Yr) as B.
  rewrite (toEpoch_countAt st C) by (try assumption; unfold two52; lia).
  assert (Bn : 0 <= countAt st t < two52).
  { unfold countAt. rewrite offsetOf_minute.
    pose proof (countLe_nonneg (offsets st) (minuteOffset st t)).
    pose proof (countLe_length (offsets st) (minuteOffset st t)).
    pose proof (offsets_length st C). unfold two52. lia. }
  destruct (sinceEpoch_normal st C (countAt st t) Bn) as (Nr & Cr).
  apply countAt_inj; assumption.
Qed.

End RoundTrip.

(** *** The round trips under the consistency check *)

(** The file name only appears in the diagnostic of a failed open. *)
Lemma init_file_name (epochYr : Z) (f1 f2 : string) (file : list string)
    (st : State) :
  init epochYr f1 (Some file) st = init epochYr f2 (Some file) st.
Proof. reflexivity. Qed.

(** A first initialisation from the process's initial statics with the
    leap-second list and an epoch year from 1900 to 2100 leaves consistent
    tables. *)
Lemma first_init_tables_ok (epochYr : Z) (leapFile : string) :
  1900 <= epochYr <= 2100 ->
  tables_ok (init epochYr leapFile (Some leap_seconds_list) initial_State) = true.
Proof.
  intros H.
  assert (A : forallb
                (fun y => tables_ok (init y EmptyString (Some leap_seconds_list)
                                       initial_State))
                (years 201 1900) = true) by (vm_compute; reflexivity).
  rewrite forallb_forall in A.
  rewrite (init_file_name epochYr leapFile EmptyString). apply A.
  unfold years. apply in_map_iff. exists (Z.to_nat (epochYr - 1900)).
  split; [lia | apply in_seq; lia].
Qed.

(** Before any initialisation the tables are empty and consistent. *)
Example initial_tables_ok : tables_ok initial_State = true.
Proof. vm_compute. reflexivity. Qed.

(** X28. In every state whose tables are consistent ([tables_ok]: as
    after a first initialisation, see [first_init_tables_ok]), for every
    valid timestamp [t], the timestamp built by the constructor from
    [toEpoch t] equals [t] in the six integer fields. *)
Theorem sinceEpoch_toEpoch_round_trip (st : State) (t : smart_tm) :
  tables_ok st = true -> isValid st t = true ->
  equalsNoFrac (smart_tm_sinceEpoch st (toEpoch st t)) t = true.
Proof.
  intros T. apply sinceEpoch_toEpoch_consistent, tables_ok_consistent, T.
Qed.

(** The leap second 2012-06-30 23:59:60 after a first initialisation with
    epoch year 1990. *)
Lemma sinceEpoch_toEpoch_round_trip_witness :
  tables_ok state_1990 = true
  /\ isValid state_1990 (mk_tm 2012 6 30 23 59 60 zero_frac) = true
  /\ equalsNoFrac
       (smart_tm_sinceEpoch state_1990
          (toEpoch state_1990 (mk_tm 2012 6 30 23 59 60 zero_frac)))
       (mk_tm 2012 6 30 23 59 60 zero_frac) = true.
Proof.
  assert (T : tables_ok state_1990 = true) by (vm_compute; reflexivity).
  assert (I : isValid state_1990 (mk_tm 2012 6 30 23 59 60 zero_frac) = true)
    by (vm_compute; reflexivity).
  split; [exact T |]. split; [exact I |].
  exact (sinceEpoch_toEpoch_round_trip state_1990
           (mk_tm 2012 6 30 23 59 60 zero_frac) T I).
Defined.

(** X29. In every state whose tables are consistent ([tables_ok]), for
    every epoch offset [n] from 0 to below [2^52], [toEpoch] of the
    timestamp built by the constructor from [n] is [n]. *)
Theorem toEpoch_sinceEpoch_round_trip (st : State) (n : Z) :
  tables_ok st = true -> 0 <= n < two52 ->
  toEpoch st (smart_tm_sinceEpoch st n) = n.
Proof.
  intros T. apply toEpoch_sinceEpoch_consistent, tables_ok_consistent, T.
Qed.

(** The offset of the leap second 2012-06-30 23:59:60 after a first
    initialisation with epoch year 1990. *)
Lemma toEpoch_sinceEpoch_round_trip_witness :
  tables_ok state_1990 = true
  /\ 0 <= 709948809 < two52
  /\ toEpoch state_1990 (smart_tm_sinceEpoch state_1990 709948809) = 709948809.
Proof.
  assert (T : tables_ok state_1990 = true) by (vm_compute; reflexivity).
  assert (B : 0 <= 709948809 < two52) by (unfold two52; lia).
  split; [exact T |]. split; [exact B |].
  exact (toEpoch_sinceEpoch_round_trip state_1990 709948809 T B).
Defined.

(** The timestamp at that offset. *)
Example sinceEpoch_leap_second_2012 :
  smart_tm_sinceEpoch state_1990 709948809 = mk_tm 2012 6 30 23 59 60 zero_frac.
Proof. vm_compute. reflexivity. Qed.

(** * Carries over any distance *)

(** [fixHr] carries whole days in either direction. *)
Lemma fixHr_carry (t : smart_tm) :
  validDate t -> Z.abs (hr t) < two52 ->
  (hr t < 0 -> 365 <= plainDayNumber t + hr t / 24) ->
  let t' := fixHr t in
  validDate t' /\ 0 <= hr t' <= 23 /\ timeNumber t' = timeNumber t
  /\ min t' = min t /\ sec t' = sec t /\ fracSec t' = fracSec t.
Proof.
  intros V B Neg. cbv zeta. rewrite fixHr_unfold.
  destruct (hrInLimits t) eqn:L.
  - unfold hrInLimits, START_HR, END_HR in L. apply andb_true_iff in L.
    destruct L as [L1 L2]. apply Z.leb_le in L1, L2.
    split; [exact V |]. split; [lia |]. repeat split.
  - cbv zeta. rewrite floor_div_double by (unfold two52, two53 in *; lia).
    rewrite Z.sub_0_r.
    pose proof (validDate_plain t V) as Np.
    destruct V as (Hy & Hm & Hd).
    pose proof (monthLength_range (yr t) (mon t) Hm) as R.
    assert (Hc : Z.abs (hr t / 24) <= Z.abs (hr t))
      by (Z.div_mod_to_equations; lia).
    assert (Hpos : 0 <= hr t -> 0 <= hr t / 24)
      by (intros H; Z.div_mod_to_equations; lia).
    set (c := hr t / 24) in *.
    assert (Hr : 0 <= hr t - c * 24 <= 23)
      by (unfold c; Z.div_mod_to_equations; lia).
    clearbody c.
    set (t1 := mk_tm (yr t) (mon t) (day t + c) (hr t - c * 24) (min t) (sec t)
                 (fracSec t)).
    assert (P1 : plainDayNumber t1 = plainDayNumber t + c)
      by (unfold plainDayNumber, t1; cbn [yr mon day]; lia).
    assert (N1 : dayNumber t1 = dayNumber t + c)
      by (unfold dayNumber, t1; cbn [yr mon day]; lia).
    destruct (fixDay_spec t1) as (V' & N' & S').
    + exact Hy.
    + exact Hm.
    + unfold t1; cbn [day]. unfold two52, two53 in *. lia.
    + rewrite P1. destruct (Z.lt_ge_cases (hr t) 0) as [H | H].
      * exact (Neg H).
      * specialize (Hpos H). lia.
    + cbv zeta in V', N', S'. destruct S' as (S1 & S2 & S3 & S4).
      change (hr t1) with (hr t - c * 24) in S1. change (min t1) with (min t) in S2.
      change (sec t1) with (sec t) in S3. change (fracSec t1) with (fracSec t) in S4.
      split; [exact V' |]. split; [lia |]. split.
      * unfold timeNumber. rewrite N', N1, S1, S2, S3. lia.
      * repeat split; assumption.
Qed.

(** [fixMin] carries whole hours in either direction. *)
Lemma fixMin_carry (t : smart_tm) :
  validDate t -> 0 <= hr t <= 23 -> Z.abs (min t) < two52 ->
  (min t < 0 -> 365 <= plainDayNumber t + (hr t + min t / 60) / 24) ->
  let t' := fixMin t in
  validDate t' /\ validClock t' /\ timeNumber t' = timeNumber t
  /\ sec t' = sec t /\ fracSec t' = fracSec t.
Proof.
  intros V Hh B Neg. cbv zeta. rewrite fixMin_unfold.
  destruct (minInLimits t) eqn:L.
  - unfold minInLimits, START_MIN, END_MIN in L. apply andb_true_iff in L.
    destruct L as [L1 L2]. apply Z.leb_le in L1, L2.
    split; [exact V |]. split; [unfold validClock; lia |]. repeat split.
  - cbv zeta. rewrite floor_div_double by (unfold two52, two53 in *; lia).
    rewrite Z.sub_0_r.
    assert (Hc : Z.abs (min t / 60) <= Z.abs (min t))
      by (Z.div_mod_to_equations; lia).
    assert (Hpos : 0 <= min t -> 0 <= min t / 60)
      by (intros H; Z.div_mod_to_equations; lia).
    set (c := min t / 60) in *.
    assert (Hr : 0 <= min t - c * 60 <= 59)
      by (unfold c; Z.div_mod_to_equations; lia).
    clearbody c.
    set (t1 := mk_tm (yr t) (mon t) (day t) (hr t + c) (min t - c * 60) (sec t)
                 (fracSec t)).
    destruct (fixHr_carry t1) as (V' & H' & N' & M' & S' & F').
    + exact V.
    + unfold t1; cbn [hr]. unfold two52 in *. lia.
    + change (hr t1) with (hr t + c). intros H.
      change (plainDayNumber t1) with (plainDayNumber t).
      apply Neg.
      destruct (Z.lt_ge_cases (min t) 0) as [G | G]; [exact G |].
      specialize (Hpos G). lia.
    + cbv zeta in V', H', N', M', S', F'.
      change (min t1) with (min t - c * 60) in M'. change (sec t1) with (sec t) in S'.
      change (fracSec t1) with (fracSec t) in F'.
      split; [exact V' |]. split; [unfold validClock; lia |]. split.
      * rewrite N'. unfold timeNumber, dayNumber, t1. cbn [yr mon day hr min sec]. lia.
      * split; assumption.
Qed.

(** * Delta entries between two epoch offsets *)

Lemma entriesBetween_lower (prev : Z) (us : list Z) (k lo lo' hi : Z) :
  increasing prev us -> lo <= prev + k + 1 -> lo' <= prev + k + 1 ->
  entriesBetween (deltas_from k us) lo hi = entriesBetween (deltas_from k us) lo' hi.
Proof.
  revert prev k. induction us as [| u us IH]; intros prev k I H H'; [reflexivity |].
  destruct I as [I1 I2]. cbn [deltas_from]. rewrite !entriesBetween_cons.
  rewrite (IH u (k + 1) I2) by lia.
  destruct (Z.leb_spec lo (u + k)), (Z.leb_spec lo' (u + k)); lia.
Qed.

(** The deltas between the epoch offsets of two instants are the leap
    instants after the first and up to the second. *)
Lemma entriesBetween_span (prev : Z) (us : list Z) (k x y : Z) :
  increasing prev us -> x <= y ->
  entriesBetween (deltas_from k us) (x + k + countLe us x) (y + k + countLe us y)
  = countLe us y - countLe us x.
Proof.
  revert prev k. induction us as [| u us IH]; intros prev k I H; [reflexivity |].
  destruct I as [I1 I2]. cbn [deltas_from].
  rewrite entriesBetween_cons, !countLe_cons.
  pose proof (countLe_nonneg us x) as Px. pose proof (countLe_nonneg us y) as Py.
  destruct (Z.leb_spec u x) as [Lx | Gx].
  - destruct (Z.leb_spec u y) as [Ly | Gy]; [| lia].
    replace (x + k + (1 + countLe us x)) with (x + (k + 1) + countLe us x) by lia.
    replace (y + k + (1 + countLe us y)) with (y + (k + 1) + countLe us y) by lia.
    rewrite (IH u (k + 1) I2 H).
    destruct (Z.leb_spec (x + (k + 1) + countLe us x) (u + k)); cbn [andb]; lia.
  - rewrite (countLe_below u us x) by (assumption || lia).
    destruct (Z.leb_spec u y) as [Ly | Gy].
    + replace (y + k + (1 + countLe us y)) with (y + (k + 1) + countLe us y) by lia.
      rewrite (entriesBetween_lower u us (k + 1) (x + k + (0 + 0))
                 (x + (k + 1) + countLe us x)) by
        (try assumption; rewrite ?(countLe_below u us x) by (assumption || lia); lia).
      rewrite (IH u (k + 1) I2 H).
      rewrite (countLe_below u us x) by (assumption || lia).
      destruct (Z.leb_spec (x + k + (0 + 0)) (u + k)),
        (Z.leb_spec (u + k) (y + (k + 1) + countLe us y)); cbn [andb]; lia.
    + rewrite (countLe_below u us y) by (assumption || lia).
      rewrite (entriesBetween_above u us (k + 1)) by (assumption || lia).
      destruct (Z.leb_spec (x + k + (0 + 0)) (u + k)),
        (Z.leb_spec (u + k) (y + k + (0 + 0))); cbn [andb]; lia.
Qed.

(** * [fixSec] from any minute *)

Section SecondsAnywhere.

Variable st : State.
Hypothesis C : consistent st.

(** One pass of the forward loop of [fixSec]. *)
Lemma seconds_forward_step (n : Z) (u : smart_tm) :
  validDate u -> validClock u -> countAt st u = n ->
  numSecondsOfMinute st u - 1 < sec u ->
  let u' :=
    fixMin (set_min (set_sec u (sec u - numSecondsOfMinute st u)) (min u + 1)) in
  validDate u' /\ validClock u' /\ countAt st u' = n
  /\ sec u' = sec u - numSecondsOfMinute st u
  /\ fracSec u' = fracSec u.
Proof.
  intros V K Cn S. cbv zeta.
  pose proof (minuteOffset_mod st C u) as Mu.
  pose proof (numSecondsOfMinute_offsets st C u V K) as L.
  pose proof (countLe_step60 59 (offsets st) (minuteOffset st u)
                (c_increasing st C) (offsets_mod st C) Mu) as St.
  set (len := numSecondsOfMinute st u) in *. clearbody len.
  destruct K as (Kh & Km).
  destruct (fixMin_spec (set_min (set_sec u (sec u - len)) (min u + 1)))
    as (V2 & K2 & T2 & S2 & F2).
  - exact V.
  - exact Kh.
  - cbn [min set_min]. unfold two52. lia.
  - cbn [min set_min]. intros Neg. exfalso. lia.
  - cbv zeta in V2, K2, T2, S2, F2.
    set (u2 := fixMin (set_min (set_sec u (sec u - len)) (min u + 1))) in *.
    clearbody u2.
    change (sec (set_min (set_sec u (sec u - len)) (min u + 1)))
      with (sec u - len) in S2.
    change (fracSec (set_min (set_sec u (sec u - len)) (min u + 1)))
      with (fracSec u) in F2.
    assert (M2 : minuteOffset st u2 = minuteOffset st u + 60).
    { pose proof (timeNumber_minute u2) as E2. rewrite T2, S2 in E2.
      unfold minuteOffset. unfold timeNumber, minuteNumber in *.
      cbn [yr mon day hr min sec set_min set_sec] in E2.
      change (dayNumber (set_min (set_sec u (sec u - len)) (min u + 1)))
        with (dayNumber u) in E2.
      lia. }
    split; [exact V2 |]. split; [exact K2 |].
    split; [| split; assumption].
    unfold countAt in *. rewrite offsetOf_minute in *. rewrite M2, S2, St.
    destruct (existsb (Z.eqb (minuteOffset st u + 60)) (offsets st)); lia.
Qed.

(** The closing loops of [fixSec] bring any second field into its minute;
    the epoch offset does not change. *)
Lemma fixSec_loops_carry (n : Z) (t : smart_tm) :
  0 <= n -> validDate t -> validClock t -> countAt st t = n ->
  let r := fixSec_loops st t in
  normal st r /\ countAt st r = n /\ fracSec r = fracSec t.
Proof.
  intros Hn V K Cn. cbv zeta. unfold fixSec_loops.
  match goal with
  | |- context [while_loop ?m ?c ?b t] =>
      set (t1 := while_loop m c b t);
      assert (L1 : validDate t1 /\ validClock t1 /\ countAt st t1 = n
                   /\ fracSec t1 = fracSec t
                   /\ sec t1 <= numSecondsOfMinute st t1 - 1);
      [ destruct (Z.le_gt_cases (sec t) (numSecondsOfMinute st t - 1)) as [In | Out];
        [ assert (E : t1 = t)
            by (apply while_loop_false, Z.ltb_ge; unfold START_SEC; lia);
          rewrite E; repeat split; try assumption; try apply V; try apply K
        | assert (X : (fun u => validDate u /\ validClock u /\ countAt st u = n
                                 /\ fracSec u = fracSec t /\ 0 <= sec u) t1
                       /\ c t1 = false);
          [ apply (while_loop_inv
                     (fun u => validDate u /\ validClock u /\ countAt st u = n
                               /\ fracSec u = fracSec t /\ 0 <= sec u)
                     sec c b) |] ] |]
  end.
  - intros u (Vu & Ku & Cu & Fu & Su) Cd. apply Z.ltb_lt in Cd.
    unfold START_SEC in Cd.
    pose proof (numSecondsOfMinute_range st u) as Ru.
    destruct (seconds_forward_step n u Vu Ku Cu ltac:(lia))
      as (V' & K' & C' & S' & F').
    cbv zeta in V', K', C', S', F'. cbv beta zeta.
    change (min (set_sec u (sec u - numSecondsOfMinute st u))) with (min u).
    split; [| lia].
    split; [exact V' |]. split; [exact K' |]. split; [exact C' |].
    split; [congruence | lia].
  - intros u (_ & _ & _ & _ & Su) Cd. apply Z.ltb_lt in Cd.
    unfold START_SEC in Cd.
    pose proof (numSecondsOfMinute_range st u) as Ru. lia.
  - pose proof (numSecondsOfMinute_range st t) as Rt.
    split; [exact V |]. split; [exact K |]. split; [exact Cn |].
    split; [reflexivity | lia].
  - lia.
  - clearbody t1.
    cbv beta in X. destruct X as ((V1 & K1 & C1' & F1 & S1) & C1).
    apply Z.ltb_ge in C1. unfold START_SEC in C1.
    split; [exact V1 |]. split; [exact K1 |]. split; [exact C1' |].
    split; [exact F1 | lia].
  - clearbody t1. destruct L1 as (V1 & K1 & C1 & F1 & S1).
    destruct (Z.lt_ge_cases (sec t1) 0) as [Neg | Pos].
    + pose proof (fixSec_loops_spec st C n t1 Hn V1 K1 C1 ltac:(lia)) as R.
      cbv zeta in R. unfold fixSec_loops in R.
      rewrite (while_loop_false _ _ _ t1) in R
        by (apply Z.ltb_ge; unfold START_SEC; lia).
      destruct R as (Nr & Cr & Fr).
      split; [exact Nr |]. split; [exact Cr | congruence].
    + rewrite while_loop_false by (apply Z.ltb_ge; unfold START_SEC; lia).
      split; [| split; assumption].
      split; [exact V1 |]. split; [exact K1 | lia].
Qed.

(** [fixSec] carries any number of seconds, in either direction, across
    minutes with and without a leap second. *)
Lemma fixSec_carry (t : smart_tm) :
  validDate t -> validClock t -> Z.abs (sec t) < 2 ^ 51 ->
  0 <= minuteOffset st t < 2 ^ 51 ->
  0 <= minuteOffset st t + 60 * (sec t / 60) ->
  (sec t < 0 ->
   365 <= plainDayNumber t + (hr t + (min t + sec t / 60) / 60) / 24) ->
  let r := fixSec st t in
  normal st r /\ countAt st r = countAt st t /\ fracSec r = fracSec t.
Proof.
  intros V K Bs Bm Bz Neg. cbv zeta. rewrite fixSec_unfold, secInLimits_spec.
  pose proof (numSecondsOfMinute_range st t) as R0.
  destruct ((0 <=? sec t) && (sec t <=? numSecondsOfMinute st t - 1)) eqn:L.
  - apply andb_true_iff in L. destruct L as [L1 L2]. apply Z.leb_le in L1, L2.
    split; [split; [exact V | split; [exact K | lia]] |].
    split; reflexivity.
  - assert (Out : sec t < 0 \/ 60 <= sec t).
    { apply andb_false_iff in L. destruct L as [L | L]; apply Z.leb_gt in L; lia. }
    clear L. cbv zeta. rewrite floor_div_double by (unfold two53 in *; lia).
    rewrite Z.sub_0_r.
    pose proof (minuteOffset_mod st C t) as Mm.
    assert (E0 : toEpoch st (set_sec t 0)
                 = minuteOffset st t + countLe (offsets st) (minuteOffset st t)).
    { rewrite (toEpoch_countAt st C).
      - unfold countAt. rewrite offsetOf_minute.
        change (minuteOffset st (set_sec t 0)) with (minuteOffset st t).
        cbn [sec set_sec]. lia.
      - exact V.
      - exact K.
      - cbn [sec set_sec]. lia.
      - change (minuteOffset st (set_sec t 0)) with (minuteOffset st t).
        unfold two52. lia. }
    rewrite E0.
    assert (Hc : sec t / 60 * 60 <= sec t < sec t / 60 * 60 + 60)
      by (Z.div_mod_to_equations; lia).
    set (c := sec t / 60) in *. clearbody c.
    destruct K as (Kh & Km).
    destruct (fixMin_carry (set_min (set_sec t 0) (min t + c)))
      as (V3 & K3 & T3 & S3 & F3).
    + exact V.
    + exact Kh.
    + cbn [min set_min]. unfold two52 in *. lia.
    + cbn [min hr set_min set_sec]. intros N.
      change (plainDayNumber (set_min (set_sec t 0) (min t + c)))
        with (plainDayNumber t).
      apply Neg. lia.
    + cbv zeta in V3, K3, T3, S3, F3.
      set (t3 := fixMin (set_min (set_sec t 0) (min t + c))) in *. clearbody t3.
      change (sec (set_min (set_sec t 0) (min t + c))) with 0 in S3.
      change (fracSec (set_min (set_sec t 0) (min t + c))) with (fracSec t) in F3.
      assert (M3 : minuteOffset st t3 = minuteOffset st t + c * 60).
      { pose proof (timeNumber_minute t3) as E3. rewrite S3, T3 in E3.
        unfold minuteOffset in *. unfold timeNumber, minuteNumber in *.
        cbn [yr mon day hr min sec set_min set_sec] in E3.
        change (dayNumber (set_min (set_sec t 0) (min t + c))) with (dayNumber t) in E3.
        lia. }
      assert (Ct : countAt st t
                   = minuteOffset st t + sec t
                     + countLe (offsets st) (minuteOffset st t))
        by (unfold countAt; rewrite offsetOf_minute; lia).
      set (m0 := minuteOffset st t) in *. clearbody m0.
      assert (Mm1 : (m0 + c * 60) mod 60 = 0)
        by (rewrite Z.mod_add by lia; exact Mm).
      pose proof (countLe_within_minute (offsets st) (m0 + c * 60) (sec t - c * 60)
                    (offsets_mod st C) Mm1 ltac:(lia)) as W.
      replace (m0 + c * 60 + (sec t - c * 60)) with (m0 + sec t) in W by lia.
      pose proof (countLe_nonneg (offsets st) (m0 + sec t)) as P1.
      pose proof (countLe_length (offsets st) (m0 + sec t)) as P2.
      pose proof (countLe_nonneg (offsets st) m0) as P1'.
      pose proof (countLe_length (offsets st) m0) as P2'.
      pose proof (offsets_length st C) as P3.
      assert (E4 : toEpoch st (set_sec t3 (sec t - c * 60))
                   = m0 + sec t + countLe (offsets st) (m0 + sec t)).
      { rewrite (toEpoch_countAt st C).
        - unfold countAt. rewrite offsetOf_minute.
          change (minuteOffset st (set_sec t3 (sec t - c * 60)))
            with (minuteOffset st t3).
          rewrite M3, <- W. cbn [sec set_sec]. lia.
        - exact V3.
        - exact K3.
        - cbn [sec set_sec]. lia.
        - change (minuteOffset st (set_sec t3 (sec t - c * 60)))
            with (minuteOffset st t3).
          rewrite M3. unfold two52 in *. lia. }
      rewrite E4.
      assert (A : leapSecondsWalkedThroughFrom (leapSecondDeltas st)
                    (m0 + countLe (offsets st) m0)
                    (m0 + sec t + countLe (offsets st) (m0 + sec t))
                  = countLe (offsets st) (m0 + sec t) - countLe (offsets st) m0).
      { rewrite (c_deltas st C). destruct Out as [N | P].
        - pose proof (countLe_mono (offsets st) (m0 + sec t) m0 ltac:(lia)) as Mo.
          rewrite leapSecondsWalkedThroughFrom_backward by lia.
          pose proof (entriesBetween_span 59 (offsets st) 0 (m0 + sec t) m0
                        (c_increasing st C) ltac:(lia)) as B.
          rewrite !Z.add_0_r in B. rewrite B. lia.
        - pose proof (countLe_mono (offsets st) m0 (m0 + sec t) ltac:(lia)) as Mo.
          rewrite leapSecondsWalkedThroughFrom_forward by lia.
          pose proof (entriesBetween_span 59 (offsets st) 0 m0 (m0 + sec t)
                        (c_increasing st C) ltac:(lia)) as B.
          rewrite !Z.add_0_r in B. exact B. }
      rewrite A.
      set (a := countLe (offsets st) (m0 + sec t)) in *. clearbody a.
      set (a0 := countLe (offsets st) m0) in *.
      cbn [sec set_sec].
      rewrite fixMin_in_limits by (cbn [min set_sec]; apply K3).
      destruct (fixSec_loops_carry (m0 + sec t + a0)
                  (set_sec (set_sec t3 (sec t - c * 60)) (sec t - c * 60 - (a - a0))))
        as (Nr & Cr & Fr).
      * lia.
      * exact V3.
      * exact K3.
      * unfold countAt. rewrite offsetOf_minute.
        change (minuteOffset st
                  (set_sec (set_sec t3 (sec t - c * 60)) (sec t - c * 60 - (a - a0))))
          with (minuteOffset st t3).
        rewrite M3, W. cbn [sec set_sec]. lia.
      * cbv zeta in Nr, Cr, Fr.
        split; [exact Nr |]. split.
        -- rewrite Cr, Ct. lia.
        -- rewrite Fr. exact F3.
Qed.

End SecondsAnywhere.

(** * [adjust] after a change of fields *)

Lemma leapSeconds_fold_range (t : smart_tm) (l : list smart_tm) (acc : Z) :
  0 <= acc < two64 ->
  0 <= fold_left
         (fun ret ls =>
            if tm_gt t ls && negb (equalsNoFrac t ls) then wrap64 (ret + 1) else ret)
         l acc < two64.
Proof.
  revert acc. induction l as [| ls l IH]; intros acc H; [exact H |].
  cbn [fold_left]. apply IH.
  destruct (tm_gt t ls && negb (equalsNoFrac t ls)); [apply wrap64_range | exact H].
Qed.

Lemma fixSec_in_limits (st : State) (t : smart_tm) :
  0 <= sec t <= 59 -> fixSec st t = t.
Proof.
  intros H. rewrite fixSec_unfold, secInLimits_spec.
  pose proof (numSecondsOfMinute_range st t) as R.
  destruct (Z.leb_spec 0 (sec t)), (Z.leb_spec (sec t) (numSecondsOfMinute st t - 1));
    try lia.
  reflexivity.
Qed.

Lemma fixFracSec_in_limits (st : State) (t : smart_tm) :
  fracSecInLimits t = true -> fixFracSec st t = t.
Proof. intros H. unfold fixFracSec. rewrite H. reflexivity. Qed.

Lemma validDate_february (t : smart_tm) : validDate t -> mon t = 2 -> day t <= 29.
Proof.
  intros (Y & M & D) E. rewrite E in D. unfold monthLength in D.
  change (days_at (2 - 1)) with 28 in D.
  destruct ((2 - 1 =? Feb) && isLeapYear_u (yr t)); lia.
Qed.

(** A valid date up to year 9999 is at most 2424 leap days behind its day
    number. *)
Lemma plain_lower_bound (t : smart_tm) :
  validDate t -> yr t <= 9999 -> dayNumber t - 2424 <= plainDayNumber t.
Proof.
  intros V Y. pose proof V as (Hy & Hm & Hd).
  rewrite (dayNumber_plain t Hy Hm (validDate_february t V)).
  rewrite (leapCount_calcYr t Hy Hm (validDate_february t V)).
  pose proof (leapCount_succ (yr t) Hy) as K.
  pose proof (leapCount_mono (yr t) 9999 ltac:(lia)) as Mo.
  assert (E : leapCount 9999 = 2424) by reflexivity. rewrite E in Mo.
  destruct (isLeapYear_u (yr t)); destruct (3 <=? mon t); cbn [andb]; lia.
Qed.

Section Adjust.

Variable st : State.
Hypothesis C : consistent st.

Lemma leapSeconds_count (t : smart_tm) :
  validDate t -> validClock t -> sec t <= 60 ->
  leapSecondsWalkedThroughSinceEpoch st t = countLe (offsets st) (minuteOffset st t).
Proof.
  intros V K S.
  pose proof (leapSecondsWalkedThroughSinceEpoch_count st t) as E.
  rewrite (leapInstantsBefore_count st C t V K S) in E.
  rewrite wrap64_small in E
    by (unfold leapSecondsWalkedThroughSinceEpoch; apply leapSeconds_fold_range;
        unfold two64; lia).
  rewrite wrap64_small in E; [exact E |].
  pose proof (countLe_nonneg (offsets st) (minuteOffset st t)).
  pose proof (countLe_length (offsets st) (minuteOffset st t)).
  pose proof (offsets_length st C). unfold two64. lia.
Qed.

Lemma epoch_dayNumber : dayNumber (epoch st) = 365 * yr (epoch st) + leapCount (yr (epoch st) - 1).
Proof.
  unfold dayNumber. rewrite (c_epoch_mon st C), (c_epoch_day st C).
  rewrite daysBeforeMonthIn_january. lia.
Qed.

Lemma epoch_dayNumber_ge : 8 <= yr (epoch st) -> 2921 <= dayNumber (epoch st).
Proof.
  intros H. rewrite epoch_dayNumber.
  pose proof (leapCount_mono 7 (yr (epoch st) - 1) ltac:(lia)) as Mo.
  assert (E : leapCount 7 = 1) by reflexivity. rewrite E in Mo. lia.
Qed.

Lemma normal_minute_nonneg (r : smart_tm) :
  normal st r -> 0 <= countAt st r -> 0 <= minuteOffset st r.
Proof.
  intros (V & K & S) Cn.
  destruct (Z.lt_ge_cases (minuteOffset st r) 0) as [Neg | Pos]; [exfalso | exact Pos].
  pose proof (minuteOffset_mod st C r) as Mm.
  unfold countAt in Cn. rewrite offsetOf_minute in Cn.
  rewrite (countLe_start st C) in Cn by lia.
  rewrite (numSecondsOfMinute_offsets st C) in S by assumption.
  rewrite (existsb_below 59) in S
    by (try apply (c_increasing st C); Z.div_mod_to_equations; lia).
  Z.div_mod_to_equations. lia.
Qed.

Lemma after_epoch_year (r : smart_tm) :
  validDate r -> validClock r -> 0 <= minuteOffset st r -> yr (epoch st) <= yr r.
Proof.
  intros V (Kh & Km) M.
  destruct (Z.le_gt_cases (yr (epoch st)) (yr r)) as [| G]; [assumption | exfalso].
  pose proof (dayNumber_lt r (epoch st) V (epoch_validDate st C)
                ltac:(unfold date_lt; lia)) as L.
  unfold minuteOffset in M. rewrite (epoch_timeNumber st C) in M.
  unfold minuteNumber in M. lia.
Qed.

Lemma normal_isValid (r : smart_tm) :
  normal st r -> yr (epoch st) <= yr r <= 9999 -> fracSecInLimits r = true ->
  isValid st r = true.
Proof.
  intros ((Y & M & D) & (Kh & Km) & S) Yr F.
  unfold isValid. rewrite F, secInLimits_spec.
  unfold yrInLimits, monInLimits, dayInLimits, hrInLimits, minInLimits,
    END_YR, START_MON, END_MON, START_DAY, START_HR, END_HR, START_MIN, END_MIN.
  rewrite numDaysOfMonth_spec by lia.
  repeat (apply andb_true_intro; split); try apply Z.leb_le; lia.
Qed.

(** The carries of [adjust] for a timestamp whose year, month and second
    are in range. *)
Lemma adjust_chain (u : smart_tm) :
  1 <= yr u -> 1 <= mon u <= 12 -> 0 <= sec u <= 59 -> fracSecInLimits u = true ->
  Z.abs (day u - 1) < 2 ^ 50 -> Z.abs (hr u) < 2 ^ 50 -> Z.abs (min u) < 2 ^ 50 ->
  365 <= plainDayNumber u ->
  (hr u < 0 -> 365 <= plainDayNumber (fixDay u) + hr u / 24) ->
  (min u < 0 ->
   365 <= plainDayNumber (fixHr (fixDay u))
          + (hr (fixHr (fixDay u)) + min u / 60) / 24) ->
  let r := adjust st u in
  validDate r /\ validClock r /\ timeNumber r = timeNumber u
  /\ sec r = sec u /\ fracSec r = fracSec u.
Proof.
  intros Hy Hm Hs Hf Bd Bh Bm A1 A2 A3. cbv zeta. unfold adjust.
  destruct (isValid st u) eqn:I.
  - destruct (isValid_normal st C u I) as ((V & K & _) & _).
    repeat split; try apply V; try apply K.
  - cbv zeta. rewrite (fixMon_in_limits u Hm).
    destruct (fixDay_spec u Hy Hm ltac:(unfold two53; lia) A1) as (V2 & N2 & S2).
    cbv zeta in V2, N2, S2. destruct S2 as (S2h & S2m & S2s & S2f).
    set (u2 := fixDay u) in *. clearbody u2.
    destruct (fixHr_carry u2 V2) as (V3 & H3 & T3 & M3 & S3 & F3).
    + rewrite S2h. unfold two52. lia.
    + rewrite S2h. exact A2.
    + cbv zeta in V3, H3, T3, M3, S3, F3.
      set (u3 := fixHr u2) in *. clearbody u3.
      destruct (fixMin_carry u3 V3 H3) as (V4 & K4 & T4 & S4 & F4).
      * rewrite M3, S2m. unfold two52. lia.
      * rewrite M3, S2m. exact A3.
      * cbv zeta in V4, K4, T4, S4, F4.
        set (u4 := fixMin u3) in *. clearbody u4.
        rewrite (fixSec_in_limits st u4) by lia.
        rewrite fixFracSec_in_limits
          by (rewrite (fracSecInLimits_ext u4 u) by congruence; exact Hf).
        split; [exact V4 |]. split; [exact K4 |].
        split; [| split; congruence].
        rewrite T4, T3. unfold timeNumber. rewrite N2, S2h, S2m, S2s. reflexivity.
Qed.

End Adjust.

Lemma isValid_fracSec (st : State) (t : smart_tm) :
  isValid st t = true -> fracSecInLimits t = true.
Proof. unfold isValid. rewrite !andb_true_iff. intros [_ F]. exact F. Qed.

Lemma timeNumber_fields (y m d h mi s : Z) (f : double) (t : smart_tm) (kd kh km : Z) :
  timeNumber (mk_tm (yr t) (mon t) (day t + kd) (hr t + kh) (min t + km) (sec t) f)
  = timeNumber t + 86400 * kd + 3600 * kh + 60 * km.
Proof. unfold timeNumber, dayNumber. cbn [yr mon day hr min sec]. lia. Qed.

Section Shifts.

Variable st : State.
Hypothesis C : consistent st.

Lemma shifted_valid (t r : smart_tm) :
  isValid st t = true ->
  validDate r -> validClock r -> sec r = sec t -> fracSec r = fracSec t ->
  sec t <= 59 -> timeNumber (epoch st) <= timeNumber r ->
  yr r <= 9999 -> isValid st r = true.
Proof.
  intros I V K S F S59 T Y.
  destruct (isValid_normal st C t I) as ((Vt & Kt & St) & Yt).
  pose proof (numSecondsOfMinute_range st r) as R.
  assert (M : 0 <= minuteOffset st r).
  { pose proof (minuteOffset_mod st C r) as Mm.
    unfold minuteOffset in *. rewrite (timeNumber_minute r) in T.
    Z.div_mod_to_equations. lia. }
  apply (normal_isValid st).
  - split; [exact V |]. split; [exact K | lia].
  - split; [apply (after_epoch_year st C); assumption | exact Y].
  - rewrite (fracSecInLimits_ext r t F). apply (isValid_fracSec st), I.
Qed.

Lemma adjust_forward_consistent (t : smart_tm) (kd kh km : Z) :
  isValid st t = true -> sec t <= 59 ->
  0 <= kd < 2 ^ 40 -> 0 <= kh < 2 ^ 40 -> 0 <= km < 2 ^ 40 ->
  let r :=
    adjust st
      (mk_tm (yr t) (mon t) (day t + kd) (hr t + kh) (min t + km) (sec t)
         (fracSec t)) in
  timeNumber r = timeNumber t + 86400 * kd + 3600 * kh + 60 * km
  /\ sec r = sec t /\ fracSec r = fracSec t
  /\ (yr r <= 9999 -> isValid st r = true).
Proof.
  intros I S59 Bd Bh Bm. cbv zeta.
  destruct (isValid_normal st C t I) as ((Vt & Kt & St) & Yt).
  pose proof Vt as (Hy & Hm & Hd). pose proof Kt as (Kh & Km).
  pose proof (monthLength_range (yr t) (mon t) Hm) as Rm.
  pose proof (validDate_plain t Vt) as Np.
  set (u := mk_tm (yr t) (mon t) (day t + kd) (hr t + kh) (min t + km) (sec t)
              (fracSec t)).
  destruct (adjust_chain st C u) as (V & K & T & S & F).
  - exact Hy.
  - exact Hm.
  - cbn [sec u]. lia.
  - rewrite (fracSecInLimits_ext u t eq_refl). apply (isValid_fracSec st), I.
  - cbn [day u]. lia.
  - cbn [hr u]. lia.
  - cbn [min u]. lia.
  - unfold plainDayNumber in *. cbn [yr mon day u]. lia.
  - cbn [hr u]. intros N. exfalso. lia.
  - cbn [min u]. intros N. exfalso. lia.
  - cbv zeta in V, K, T, S, F.
    unfold u in T at 2. rewrite (timeNumber_fields 0 0 0 0 0 0) in T.
    change (sec u) with (sec t) in S. change (fracSec u) with (fracSec t) in F.
    split; [exact T |]. split; [exact S |]. split; [exact F |].
    intros Y. apply (shifted_valid t); try assumption.
    pose proof (minuteOffset_bounds st C t Vt Kt Yt) as B.
    unfold minuteOffset in B. rewrite T.
    pose proof (timeNumber_minute t). lia.
Qed.

Lemma adjust_single_consistent (t : smart_tm) (kd kh km : Z) :
  isValid st t = true -> sec t <= 59 -> 8 <= yr (epoch st) ->
  Z.abs kd < 2 ^ 40 -> Z.abs kh < 2 ^ 40 -> Z.abs km < 2 ^ 40 ->
  (kh = 0 /\ km = 0) \/ (kd = 0 /\ km = 0) \/ (kd = 0 /\ kh = 0) ->
  timeNumber (epoch st) <= timeNumber t + 86400 * kd + 3600 * kh + 60 * km ->
  let r :=
    adjust st
      (mk_tm (yr t) (mon t) (day t + kd) (hr t + kh) (min t + km) (sec t)
         (fracSec t)) in
  timeNumber r = timeNumber t + 86400 * kd + 3600 * kh + 60 * km
  /\ sec r = sec t /\ fracSec r = fracSec t
  /\ (yr r <= 9999 -> isValid st r = true).
Proof.
  intros I S59 E8 Bd Bh Bm One Ep. cbv zeta.
  destruct (isValid_normal st C t I) as ((Vt & Kt & St) & Yt).
  pose proof Vt as (Hy & Hm & Hd). pose proof Kt as (Kh & Km).
  pose proof (monthLength_range (yr t) (mon t) Hm) as Rm.
  pose proof (validDate_plain t Vt) as Np.
  pose proof (plain_lower_bound t Vt ltac:(lia)) as Lb.
  pose proof (epoch_dayNumber_ge st C E8) as Eg.
  rewrite (epoch_timeNumber st C) in Ep.
  assert (T0 : timeNumber t = dayNumber t * 86400 + hr t * 3600 + min t * 60 + sec t)
    by reflexivity.
  set (u := mk_tm (yr t) (mon t) (day t + kd) (hr t + kh) (min t + km) (sec t)
              (fracSec t)).
  assert (Pu : plainDayNumber u = plainDayNumber t + kd)
    by (unfold plainDayNumber; cbn [yr mon day u]; lia).
  destruct (adjust_chain st C u) as (V & K & T & S & F).
  - exact Hy.
  - exact Hm.
  - cbn [sec u]. lia.
  - rewrite (fracSecInLimits_ext u t eq_refl). apply (isValid_fracSec st), I.
  - cbn [day u]. lia.
  - cbn [hr u]. lia.
  - cbn [min u]. lia.
  - rewrite Pu. destruct One as [[-> ->] | [[-> ->] | [-> ->]]]; lia.
  - cbn [hr u]. intros N.
    destruct One as [[-> ->] | [[-> ->] | [-> ->]]]; try lia.
    rewrite fixDay_in_limits by (unfold validDate; cbn [yr mon day u]; lia).
    rewrite Pu. Z.div_mod_to_equations. lia.
  - cbn [min u]. intros N.
    destruct One as [[-> ->] | [[-> ->] | [-> ->]]]; try lia.
    rewrite fixDay_in_limits by (unfold validDate; cbn [yr mon day u]; lia).
    rewrite fixHr_in_limits by (cbn [hr u]; lia).
    rewrite Pu. cbn [hr u]. Z.div_mod_to_equations. lia.
  - cbv zeta in V, K, T, S, F.
    unfold u in T at 2. rewrite (timeNumber_fields 0 0 0 0 0 0) in T.
    change (sec u) with (sec t) in S. change (fracSec u) with (fracSec t) in F.
    split; [exact T |]. split; [exact S |]. split; [exact F |].
    intros Y. apply (shifted_valid t); try assumption.
    rewrite T, (epoch_timeNumber st C). exact Ep.
Qed.

Lemma adjust_seconds_consistent (t : smart_tm) (k : Z) :
  isValid st t = true -> Z.abs k < 2 ^ 50 ->
  leapSecondsWalkedThroughSinceEpoch st t <= toEpoch st t + k ->
  (k < 0 -> 8 <= yr (epoch st)) ->
  let r := adjust st (set_sec t (sec t + k)) in
  toEpoch st r = toEpoch st t + k
  /\ fracSec r = fracSec t
  /\ (yr r <= 9999 -> isValid st r = true).
Proof.
  intros I Bk Hk E8. cbv zeta.
  destruct (isValid_normal st C t I) as ((Vt & Kt & St) & Yt).
  pose proof Vt as (Hy & Hm & Hd). pose proof Kt as (Kh & Km).
  pose proof (numSecondsOfMinute_range st t) as Rt.
  pose proof (minuteOffset_bounds st C t Vt Kt Yt) as B.
  pose proof (minuteOffset_mod st C t) as Mm.
  rewrite (leapSeconds_count st C t Vt Kt ltac:(lia)) in Hk.
  rewrite (toEpoch_countAt st C t Vt Kt ltac:(lia) ltac:(unfold two52; lia)) in *.
  assert (Ct : countAt st t
               = minuteOffset st t + sec t + countLe (offsets st) (minuteOffset st t))
    by (unfold countAt; rewrite offsetOf_minute; lia).
  pose proof (countLe_nonneg (offsets st) (minuteOffset st t)) as P1.
  pose proof (countLe_length (offsets st) (minuteOffset st t)) as P2.
  pose proof (offsets_length st C) as P3.
  set (u := set_sec t (sec t + k)).
  assert (Cu : countAt st u = countAt st t + k).
  { unfold countAt. rewrite !offsetOf_minute.
    change (minuteOffset st u) with (minuteOffset st t). cbn [sec u set_sec]. lia. }
  assert (N : normal st (adjust st u) /\ countAt st (adjust st u) = countAt st t + k
              /\ fracSec (adjust st u) = fracSec t).
  { unfold adjust. destruct (isValid st u) eqn:Iu.
    - destruct (isValid_normal st C u Iu) as (Nu & _).
      split; [exact Nu |]. split; [exact Cu | reflexivity].
    - cbv zeta.
      rewrite (fixMon_in_limits u) by exact Hm.
      rewrite (fixDay_in_limits u) by exact Vt.
      rewrite (fixHr_in_limits u) by exact Kh.
      rewrite (fixMin_in_limits u) by exact Km.
      destruct (fixSec_carry st C u) as (Nr & Cr & Fr).
      + exact Vt.
      + exact Kt.
      + cbn [sec u set_sec]. lia.
      + change (minuteOffset st u) with (minuteOffset st t). lia.
      + change (minuteOffset st u) with (minuteOffset st t). cbn [sec u set_sec].
        Z.div_mod_to_equations. lia.
      + cbn [sec u set_sec hr min]. intros Neg.
        change (plainDayNumber u) with (plainDayNumber t).
        assert (k < 0) as Kn by lia. specialize (E8 Kn).
        pose proof (plain_lower_bound t Vt ltac:(lia)) as Lb.
        pose proof (epoch_dayNumber_ge st C E8) as Eg.
        assert (H0 : 0 <= minuteOffset st t + sec t + k) by lia.
        clear Hk Ct Cu P1 P2 P3 B Mm.
        unfold minuteOffset in H0. rewrite (epoch_timeNumber st C) in H0.
        unfold minuteNumber in H0.
        Z.div_mod_to_equations. lia.
      + cbv zeta in Nr, Cr, Fr.
        rewrite fixFracSec_in_limits.
        * split; [exact Nr |]. split; [congruence | exact Fr].
        * rewrite (fracSecInLimits_ext _ t) by exact Fr.
          apply (isValid_fracSec st), I. }
  destruct N as (Nr & Cr & Fr).
  pose proof (normal_minute_nonneg st C _ Nr ltac:(lia)) as Mr.
  pose proof Nr as (Vr & Kr & Sr).
  pose proof (numSecondsOfMinute_range st (adjust st u)) as Rr.
  pose proof (countLe_nonneg (offsets st) (minuteOffset st (adjust st u))) as Q1.
  assert (Br : minuteOffset st (adjust st u) < two52).
  { pose proof Cr as Cr'. rewrite Ct in Cr'. unfold countAt in Cr'.
    rewrite offsetOf_minute in Cr'. unfold two52. lia. }
  split.
  - rewrite (toEpoch_countAt st C (adjust st u) Vr Kr ltac:(lia) ltac:(lia)). exact Cr.
  - split; [exact Fr |]. intros Y.
    apply (normal_isValid st); [exact Nr | | ].
    + split; [apply (after_epoch_year st C); assumption | exact Y].
    + rewrite (fracSecInLimits_ext _ t) by exact Fr.
      apply (isValid_fracSec st), I.
Qed.

End Shifts.

(** * The comparison operators *)

(** ** [<] and [==] on doubles *)

Lemma Pcompare_Eq (m1 m2 : positive) : Pos.compare_cont Eq m1 m2 = Pos.compare m1 m2.
Proof. reflexivity. Qed.

Lemma Dltb_irrefl (x : double) : Dltb x x = false.
Proof.
  unfold Dltb, SFltb. destruct x as [s | s | | s m e]; cbn.
  - reflexivity.
  - destruct s; reflexivity.
  - reflexivity.
  - destruct s; rewrite Z.compare_refl, Pcompare_Eq, Pos.compare_refl; reflexivity.
Qed.

Lemma finite_compare_trans (e1 e2 e3 : Z) (m1 m2 m3 : positive) :
  match e1 ?= e2 with Lt => Lt | Gt => Gt | Eq => Pos.compare m1 m2 end = Lt ->
  match e2 ?= e3 with Lt => Lt | Gt => Gt | Eq => Pos.compare m2 m3 end = Lt ->
  match e1 ?= e3 with Lt => Lt | Gt => Gt | Eq => Pos.compare m1 m3 end = Lt.
Proof.
  destruct (Z.compare_spec e1 e2), (Z.compare_spec e2 e3), (Z.compare_spec e1 e3);
    intros A B; try lia; try discriminate; try reflexivity; subst.
  apply Pos.compare_lt_iff in A, B. apply Pos.compare_lt_iff.
  exact (Pos.lt_trans _ _ _ A B).
Qed.

Lemma finite_compare_trans_opp (e1 e2 e3 : Z) (m1 m2 m3 : positive) :
  match e1 ?= e2 with Lt => Gt | Gt => Lt | Eq => CompOpp (Pos.compare m1 m2) end = Lt ->
  match e2 ?= e3 with Lt => Gt | Gt => Lt | Eq => CompOpp (Pos.compare m2 m3) end = Lt ->
  match e1 ?= e3 with Lt => Gt | Gt => Lt | Eq => CompOpp (Pos.compare m1 m3) end = Lt.
Proof.
  destruct (Z.compare_spec e1 e2), (Z.compare_spec e2 e3), (Z.compare_spec e1 e3);
    intros A B; try lia; try discriminate; try reflexivity; subst.
  revert A B.
  destruct (Pos.compare_spec m1 m2), (Pos.compare_spec m2 m3), (Pos.compare_spec m1 m3);
    intros A B;
    try discriminate; try reflexivity; lia.
Qed.

Lemma SFcompare_Lt_trans (x y z : double) :
  SFcompare x y = Some Lt -> SFcompare y z = Some Lt -> SFcompare x z = Some Lt.
Proof.
  destruct x as [sx | sx | | sx mx ex], y as [sy | sy | | sy my ey],
    z as [sz | sz | | sz mz ez]; cbn;
    try discriminate; try reflexivity;
    try (destruct sx; discriminate); try (destruct sy; discriminate);
    try (destruct sx, sy; discriminate); try (destruct sy, sz; discriminate);
    try (destruct sx, sy, sz; cbn; (discriminate || reflexivity)).
  destruct sx, sy, sz; cbn; try discriminate; try reflexivity;
    intros A B; injection A as A; injection B as B; f_equal; revert A B.
  - apply finite_compare_trans_opp.
  - apply finite_compare_trans.
Qed.

Lemma Dltb_compare (x y : double) : Dltb x y = true <-> SFcompare x y = Some Lt.
Proof.
  unfold Dltb, SFltb. destruct (SFcompare x y) as [[| |] |]; split; congruence.
Qed.

Lemma Dltb_trans (x y z : double) :
  Dltb x y = true -> Dltb y z = true -> Dltb x z = true.
Proof.
  rewrite !Dltb_compare. apply SFcompare_Lt_trans.
Qed.

Lemma SFcompare_antisym (x y : double) :
  SFcompare y x = option_map CompOpp (SFcompare x y).
Proof.
  destruct x as [sx | sx | | sx mx ex], y as [sy | sy | | sy my ey]; cbn;
    try reflexivity;
    try (destruct sx; reflexivity); try (destruct sy; reflexivity);
    try (destruct sx, sy; reflexivity).
  f_equal. destruct sx, sy; cbn; try reflexivity;
    rewrite (Z.compare_antisym ex ey); destruct (ex ?= ey); cbn; try reflexivity.
  - f_equal. apply Pos.compare_antisym.
  - apply Pos.compare_antisym.
Qed.

Lemma SFcompare_not_nan (x y : double) :
  is_nan x = false -> is_nan y = false -> exists c, SFcompare x y = Some c.
Proof.
  destruct x as [sx | sx | | sx mx ex], y as [sy | sy | | sy my ey]; cbn;
    try discriminate; intros _ _; eexists; reflexivity.
Qed.

(** Without NaN exactly one of [x < y], [x == y], [y < x] holds. *)
Lemma Dltb_trichotomy (x y : double) :
  is_nan x = false -> is_nan y = false ->
  (Dltb x y = true /\ Deqb x y = false /\ Dltb y x = false)
  \/ (Dltb x y = false /\ Deqb x y = true /\ Dltb y x = false)
  \/ (Dltb x y = false /\ Deqb x y = false /\ Dltb y x = true).
Proof.
  intros Nx Ny. destruct (SFcompare_not_nan x y Nx Ny) as [c E].
  unfold Dltb, Deqb, SFltb, SFeqb. rewrite (SFcompare_antisym x y), E.
  destruct c; cbn; tauto.
Qed.

Lemma Dcompare_nan_l (y : double) :
  Dltb S754_nan y = false /\ Deqb S754_nan y = false /\ Dltb y S754_nan = false.
Proof. unfold Dltb, Deqb, SFltb, SFeqb. destruct y as [s | s | | s m e]; cbn; tauto. Qed.

(** ** [operator<] on timestamps *)

Lemma lex_lt_irrefl (a : list Z) : lex_lt a a = false.
Proof.
  induction a as [| x a IH]; [reflexivity |].
  cbn [lex_lt]. rewrite Z.ltb_irrefl, IH, andb_false_r. reflexivity.
Qed.

Lemma lex_lt_trans (a b c : list Z) :
  lex_lt a b = true -> lex_lt b c = true -> lex_lt a c = true.
Proof.
  revert b c. induction a as [| x a IH]; intros [| y b] [| z c]; cbn [lex_lt];
    try discriminate.
  rewrite !orb_true_iff, !andb_true_iff, !Z.ltb_lt, !Z.eqb_eq.
  intros [L1 | [E1 R1]] [L2 | [E2 R2]].
  - left. lia.
  - left. lia.
  - left. lia.
  - right. split; [lia | exact (IH b c R1 R2)].
Qed.

Lemma lex_lt_total (a b : list Z) :
  List.length a = List.length b ->
  (lex_lt a b = true /\ a <> b /\ lex_lt b a = false)
  \/ (lex_lt a b = false /\ a = b /\ lex_lt b a = false)
  \/ (lex_lt a b = false /\ a <> b /\ lex_lt b a = true).
Proof.
  revert b. induction a as [| x a IH]; intros [| y b] L; try discriminate.
  - right. left. repeat split.
  - injection L as L. cbn [lex_lt].
    destruct (Z.ltb_spec x y), (Z.ltb_spec y x), (Z.eqb_spec x y), (Z.eqb_spec y x);
      try lia; cbn [orb andb].
    + left. repeat split. congruence.
    + right. right. repeat split. congruence.
    + subst. destruct (IH b L) as [(A & B & D) | [(A & B & D) | (A & B & D)]].
      * left. repeat split; try assumption. congruence.
      * right. left. repeat split; try assumption. congruence.
      * right. right. repeat split; try assumption. congruence.
Qed.

Lemma equalsNoFrac_fields (a b : smart_tm) :
  equalsNoFrac a b = true <-> fields6 a = fields6 b.
Proof.
  unfold equalsNoFrac, fields6. rewrite !andb_true_iff, !Z.eqb_eq. split.
  - intros [[[[[-> ->] ->] ->] ->] ->]. reflexivity.
  - intros E. injection E as -> -> -> -> -> ->. repeat split.
Qed.

Lemma equalsNoFrac_sym (a b : smart_tm) : equalsNoFrac a b = equalsNoFrac b a.
Proof.
  unfold equalsNoFrac.
  rewrite (Z.eqb_sym (yr a)), (Z.eqb_sym (mon a)), (Z.eqb_sym (day a)),
    (Z.eqb_sym (hr a)), (Z.eqb_sym (min a)), (Z.eqb_sym (sec a)). reflexivity.
Qed.

(** [operator<]: the lexicographic order on the six integer fields, then
    the order of the fractions. *)
Lemma tm_lt_cases (a b : smart_tm) :
  tm_lt a b
  = before_noFrac a b || (equalsNoFrac a b && Dltb (fracSec a) (fracSec b)).
Proof.
  pose proof (walked_condition b a) as W. unfold tm_gt in W.
  rewrite <- W, (equalsNoFrac_sym b a).
  destruct (equalsNoFrac a b) eqn:E; cbn [negb andb].
  - rewrite andb_false_r. cbn [orb].
    unfold equalsNoFrac in E. rewrite !andb_true_iff in E.
    destruct E as [[[[[E1 E2] E3] E4] E5] E6].
    unfold tm_lt. rewrite E1, E2, E3, E4, E5, E6. reflexivity.
  - rewrite andb_true_r, orb_false_r. reflexivity.
Qed.

Lemma tm_lt_trans (a b c : smart_tm) :
  tm_lt a b = true -> tm_lt b c = true -> tm_lt a c = true.
Proof.
  rewrite !tm_lt_cases, !orb_true_iff, !andb_true_iff, !equalsNoFrac_fields.
  unfold before_noFrac.
  intros [L1 | [E1 F1]] [L2 | [E2 F2]].
  - left. exact (lex_lt_trans _ _ _ L1 L2).
  - left. rewrite <- E2. exact L1.
  - left. rewrite E1. exact L2.
  - right. split; [congruence | exact (Dltb_trans _ _ _ F1 F2)].
Qed.

Lemma tm_lt_irrefl (a : smart_tm) : tm_lt a a = false.
Proof.
  rewrite tm_lt_cases. unfold before_noFrac.
  rewrite lex_lt_irrefl, Dltb_irrefl, andb_false_r. reflexivity.
Qed.

Lemma fields6_length (a : smart_tm) : List.length (fields6 a) = 6%nat.
Proof. reflexivity. Qed.

Lemma equalsNoFrac_false (a b : smart_tm) :
  fields6 a <> fields6 b -> equalsNoFrac a b = false.
Proof.
  intros N. destruct (equalsNoFrac a b) eqn:E; [| reflexivity].
  apply equalsNoFrac_fields in E. contradiction.
Qed.

Lemma tm_trichotomy (a b : smart_tm) :
  is_nan (fracSec a) = false -> is_nan (fracSec b) = false ->
  (tm_lt a b = true /\ equalsWithFrac a b = false /\ tm_lt b a = false)
  \/ (tm_lt a b = false /\ equalsWithFrac a b = true /\ tm_lt b a = false)
  \/ (tm_lt a b = false /\ equalsWithFrac a b = false /\ tm_lt b a = true).
Proof.
  intros Na Nb. rewrite !tm_lt_cases.
  change (equalsWithFrac a b)
    with (equalsNoFrac a b && Deqb (fracSec a) (fracSec b)).
  rewrite (equalsNoFrac_sym b a). unfold before_noFrac.
  destruct (lex_lt_total (fields6 a) (fields6 b) eq_refl)
    as [(A & B & D) | [(A & B & D) | (A & B & D)]]; rewrite A, D.
  - rewrite (equalsNoFrac_false a b B). cbn. tauto.
  - rewrite (proj2 (equalsNoFrac_fields a b) B). cbn [orb andb].
    exact (Dltb_trichotomy _ _ Na Nb).
  - rewrite (equalsNoFrac_false a b B). cbn. tauto.
Qed.

Lemma tm_nan_incomparable (a b : smart_tm) :
  equalsNoFrac a b = true -> is_nan (fracSec a) = true ->
  tm_lt a b = false /\ tm_gt a b = false /\ equalsWithFrac a b = false
  /\ tm_le a b = true /\ tm_ge a b = true.
Proof.
  intros E N. unfold tm_le, tm_ge, tm_gt. rewrite !tm_lt_cases.
  change (equalsWithFrac a b)
    with (equalsNoFrac a b && Deqb (fracSec a) (fracSec b)).
  rewrite (equalsNoFrac_sym b a), E. unfold before_noFrac.
  apply equalsNoFrac_fields in E. rewrite E, lex_lt_irrefl.
  destruct (fracSec a); try discriminate.
  destruct (Dcompare_nan_l (fracSec b)) as (A & B & D). rewrite A, B, D.
  repeat split.
Qed.

(** * [toEpoch] and the order of timestamps *)

Lemma before_noFrac_minute (a b : smart_tm) :
  before_noFrac a b = true
  <-> minute_lt a b \/ (same_minute a b /\ sec a < sec b).
Proof.
  unfold before_noFrac, fields6, lex_lt, minute_lt, date_lt, same_minute.
  rewrite !orb_true_iff, !andb_true_iff, !orb_true_iff, !andb_true_iff,
    !orb_true_iff, !andb_true_iff, !orb_true_iff, !andb_true_iff,
    !orb_true_iff, !andb_true_iff, !orb_true_iff, !andb_true_iff.
  rewrite !Z.ltb_lt, !Z.eqb_eq. split; intros H; [| lia].
  intuition (try discriminate; lia).
Qed.

Section Monotone.

Variable st : State.
Hypothesis C : consistent st.

Lemma countAt_order (a b : smart_tm) :
  normal st a -> normal st b ->
  (countAt st a <? countAt st b) = before_noFrac a b.
Proof.
  intros Na Nb. pose proof Na as (Va & Ka & Sa). pose proof Nb as (Vb & Kb & Sb).
  apply bool_eq_iff. rewrite Z.ltb_lt, before_noFrac_minute.
  pose proof (minuteNumber_lt_iff a b Va Vb Ka Kb) as Lab.
  pose proof (minuteNumber_lt_iff b a Vb Va Kb Ka) as Lba.
  pose proof (same_minute_iff a b Va Vb Ka Kb) as Eab.
  destruct (Z.lt_trichotomy (minuteNumber a) (minuteNumber b)) as [L | [E | L]].
  - split; [intros _; left; apply Lab, L |].
    intros _. apply (countAt_minute_lt st C); try assumption.
    unfold minuteOffset. lia.
  - assert (M : minuteOffset st a = minuteOffset st b) by (unfold minuteOffset; lia).
    unfold countAt. rewrite !offsetOf_minute, M. split.
    + intros H. right. split; [apply Eab, E | lia].
    + intros [H | [_ H]]; [apply Lab in H; lia | lia].
  - pose proof (countAt_minute_lt st C b a Nb Na
                  ltac:(unfold minuteOffset; lia)) as G.
    split; [lia |].
    intros [H | [H _]]; [apply Lab in H; lia | apply Eab in H; lia].
Qed.

Lemma toEpoch_order_consistent (a b : smart_tm) :
  isValid st a = true -> isValid st b = true ->
  (toEpoch st a <? toEpoch st b) = tm_lt a b && negb (equalsNoFrac a b).
Proof.
  intros Ia Ib.
  destruct (isValid_normal st C a Ia) as (Na & Ya).
  destruct (isValid_normal st C b Ib) as (Nb & Yb).
  pose proof Na as (Va & Ka & Sa). pose proof Nb as (Vb & Kb & Sb).
  pose proof (numSecondsOfMinute_range st a) as Ra.
  pose proof (numSecondsOfMinute_range st b) as Rb.
  pose proof (minuteOffset_bounds st C a Va Ka Ya) as Ba.
  pose proof (minuteOffset_bounds st C b Vb Kb Yb) as Bb.
  rewrite (toEpoch_countAt st C a Va Ka ltac:(lia) ltac:(unfold two52; lia)).
  rewrite (toEpoch_countAt st C b Vb Kb ltac:(lia) ltac:(unfold two52; lia)).
  rewrite (countAt_order a b Na Nb).
  pose proof (walked_condition b a) as W. unfold tm_gt in W.
  rewrite (equalsNoFrac_sym b a) in W. symmetry. exact W.
Qed.

End Monotone.

(** * The constructors from an epoch offset *)

Lemma wrap64_negative (x : Z) : - two64 <= x < 0 -> wrap64 x = x + two64.
Proof.
  intros H. unfold wrap64. symmetry. apply (Z.mod_unique _ _ (-1)); unfold two64 in *; lia.
Qed.

(** Adding a fraction in range to [+0.0] gives that fraction ([-0.0]
    becomes [+0.0]). *)
Lemma Dadd_zero_l (f : double) :
  Dleb START_FRAC_SEC f = true ->
  Dadd START_FRAC_SEC f = f \/ (f = S754_zero true /\ Dadd START_FRAC_SEC f = S754_zero false).
Proof.
  unfold Dleb, Dadd, START_FRAC_SEC, SFleb, SFadd.
  destruct f as [s | s | | s m e]; cbn.
  - destruct s; [right; split; reflexivity | left; reflexivity].
  - left; reflexivity.
  - discriminate.
  - left; reflexivity.
Qed.

Lemma Dadd_zero_l_limits (f : double) :
  Dleb START_FRAC_SEC f && Dltb f END_FRAC_SEC = true ->
  Dleb START_FRAC_SEC (Dadd START_FRAC_SEC f)
  && Dltb (Dadd START_FRAC_SEC f) END_FRAC_SEC = true
  /\ Deqb (Dadd START_FRAC_SEC f) f = true.
Proof.
  intros H. pose proof H as H'. apply andb_true_iff in H'. destruct H' as [H1 H2].
  destruct (Dadd_zero_l f H1) as [E | [E1 E2]].
  - rewrite E. split; [exact H |]. clear H H2 E.
    unfold Deqb, SFeqb. unfold Dleb, SFleb, START_FRAC_SEC in H1.
    destruct f as [s | s | | s m e]; cbn [SFcompare] in *;
      try discriminate; try reflexivity.
    + destruct s; reflexivity.
    + destruct s; [discriminate |].
      rewrite Z.compare_refl. change (Pos.compare_cont Eq m m) with (Pos.compare m m).
      rewrite Pos.compare_refl. reflexivity.
  - rewrite E2. subst f. split; reflexivity.
Qed.

Section Constructors.

Variable st : State.
Hypothesis C : consistent st.

(** The one-argument constructor gives a valid timestamp. *)
Lemma sinceEpoch_isValid (n : Z) :
  0 <= n < two52 -> yr (smart_tm_sinceEpoch st n) <= 9999 ->
  isValid st (smart_tm_sinceEpoch st n) = true.
Proof.
  intros Hn Y. destruct (sinceEpoch_normal st C n Hn) as (N & Cn).
  pose proof N as (V & K & S).
  apply (normal_isValid st); [exact N | |].
  - split; [| exact Y]. apply (after_epoch_year st C); try assumption.
    apply (normal_minute_nonneg st C); [exact N | lia].
  - assert (F : fracSec (smart_tm_sinceEpoch st n) = fracSec (epoch st)).
    { unfold smart_tm_sinceEpoch. cbv zeta.
      rewrite (c_epoch_sec st C), Z.add_0_l.
      rewrite to_signed64_small by (unfold two52, two63 in *; lia).
      pose proof (epoch_validDate st C) as Ve.
      pose proof (epoch_validClock st C) as Ke.
      assert (M0 : minuteOffset st (set_sec (epoch st) n) = 0).
      { change (minuteOffset st (set_sec (epoch st) n)) with (minuteOffset st (epoch st)).
        unfold minuteOffset. rewrite timeNumber_minute, (c_epoch_sec st C). lia. }
      destruct (fixSec_from_start st C (set_sec (epoch st) n) Ve Ke M0 Hn)
        as (Nr & Cr & Fr).
      cbv zeta in Fr. cbn [fracSec set_sec] in Fr.
      unfold adjust. destruct (isValid st (set_sec (epoch st) n)); [reflexivity |].
      cbv zeta.
      rewrite (fixMon_in_limits (set_sec (epoch st) n)) by apply Ve.
      rewrite (fixDay_in_limits (set_sec (epoch st) n)) by exact Ve.
      rewrite (fixHr_in_limits (set_sec (epoch st) n)) by apply Ke.
      rewrite (fixMin_in_limits (set_sec (epoch st) n)) by apply Ke.
      rewrite fixFracSec_in_limits; [exact Fr |].
      rewrite (fracSecInLimits_ext _ (epoch st) Fr). apply (c_epoch_frac st C). }
    rewrite (fracSecInLimits_ext _ (epoch st) F). apply (c_epoch_frac st C).
Qed.

(** The two-argument constructor with a fraction in range. *)
Lemma sinceEpoch_frac_normal (n : Z) (f : double) :
  0 <= n < two52 -> fracSec (epoch st) = START_FRAC_SEC ->
  Dleb START_FRAC_SEC f && Dltb f END_FRAC_SEC = true ->
  let r := smart_tm_sinceEpoch_frac st n f in
  normal st r /\ countAt st r = n /\ fracSec r = Dadd START_FRAC_SEC f.
Proof.
  intros Hn E0 Hf. cbv zeta. unfold smart_tm_sinceEpoch_frac. cbv zeta.
  rewrite (c_epoch_sec st C), Z.add_0_l.
  rewrite to_signed64_small by (unfold two52, two63 in *; lia).
  change (fracSec (set_sec (epoch st) n)) with (fracSec (epoch st)). rewrite E0.
  set (u := set_fracSec (set_sec (epoch st) n) (Dadd START_FRAC_SEC f)).
  pose proof (epoch_validDate st C) as Ve.
  pose proof (epoch_validClock st C) as Ke.
  assert (M0 : minuteOffset st u = 0).
  { change (minuteOffset st u) with (minuteOffset st (epoch st)).
    unfold minuteOffset. rewrite timeNumber_minute, (c_epoch_sec st C). lia. }
  assert (Fu : fracSecInLimits u = true)
    by (unfold fracSecInLimits; cbn [fracSec u set_fracSec];
        apply (Dadd_zero_l_limits f Hf)).
  destruct (fixSec_from_start st C u Ve Ke M0 Hn) as (Nr & Cr & Fr).
  cbv zeta in Nr, Cr, Fr. cbn [sec fracSec u set_sec set_fracSec] in Cr, Fr.
  unfold adjust. destruct (isValid st u) eqn:I.
  - unfold isValid in I. rewrite !andb_true_iff in I.
    destruct I as [[_ S] _].
    rewrite fixSec_unfold, S in Nr, Cr.
    split; [exact Nr |]. split; [exact Cr | reflexivity].
  - cbv zeta.
    rewrite (fixMon_in_limits u) by apply Ve.
    rewrite (fixDay_in_limits u) by exact Ve.
    rewrite (fixHr_in_limits u) by apply Ke.
    rewrite (fixMin_in_limits u) by apply Ke.
    rewrite fixFracSec_in_limits.
    + split; [exact Nr |]. split; [exact Cr | exact Fr].
    + rewrite (fracSecInLimits_ext _ u) by exact Fr. exact Fu.
Qed.

(** [toEpoch] of a timestamp before the Epoch Reference. *)
Lemma toEpoch_before_epoch_consistent (t : smart_tm) :
  validDate t -> validClock t -> 0 <= sec t <= 59 -> yr (epoch st) <= 9999 ->
  timeNumber t < timeNumber (epoch st) ->
  toEpoch st t = two64 - (timeNumber (epoch st) - timeNumber t).
Proof.
  intros V K S Y L.
  rewrite toEpoch_wrap by (destruct V as (_ & ? & _); lia).
  rewrite (toEpoch_sum_count st C t V K ltac:(lia)).
  assert (M : minuteOffset st t < 0).
  { pose proof (minuteOffset_mod st C t) as Mm.
    unfold minuteOffset in *. rewrite (timeNumber_minute t) in L.
    Z.div_mod_to_equations. lia. }
  rewrite (countLe_start st C) by lia.
  unfold offsetOf. rewrite wrap64_negative; [lia |].
  rewrite (epoch_timeNumber st C), (epoch_dayNumber st C) in *.
  pose proof (c_epoch_yr st C) as Ye.
  pose proof (leapCount_mono (yr (epoch st) - 1) 9998 ltac:(lia)) as Mo.
  assert (E : leapCount 9998 = 2424) by reflexivity. rewrite E in Mo.
  pose proof (leapCount_nonneg (yr (epoch st) - 1) ltac:(lia)) as P.
  destruct V as (Hy & Hm & Hd). destruct K as (Kh & Km).
  pose proof (daysBeforeMonthIn_range (yr t) (mon t) Hm) as [R1 R2].
  pose proof (leapCount_nonneg (yr t - 1) ltac:(lia)) as P'.
  unfold timeNumber, dayNumber in *. unfold two64. lia.
Qed.

End Constructors.

(** * Leap days between years, seconds between epochs *)

Lemma leapDays_yr_value (s e : Z) :
  1 <= s < two63 -> 1 <= e < two63 ->
  leapDaysWalkedThroughFrom_yr s e = leapCount (e - 1) - leapCount (s - 1).
Proof.
  intros Hs He. unfold leapDaysWalkedThroughFrom_yr. cbv zeta.
  rewrite !calcYr_year_overload by lia. unfold excluding_own_leap_day.
  pose proof (leapCount_succ s ltac:(lia)) as Ks.
  pose proof (leapCount_succ e ltac:(lia)) as Ke.
  destruct (isLeapYear_u s), (isLeapYear_u e); lia.
Qed.

Lemma timeNumber_january_first (y : Z) :
  timeNumber (january_first y) = (365 * y + leapCount (y - 1)) * 86400.
Proof.
  unfold timeNumber, dayNumber, january_first.
  cbn [yr mon day hr min sec]. unfold START_MON, START_DAY, START_HR, START_MIN, START_SEC.
  rewrite daysBeforeMonthIn_january. lia.
Qed.

Lemma numSecondsBetweenEpochs_wrap (s e : Z) :
  1 <= s < two63 -> 1 <= e < two63 ->
  numSecondsBetweenEpochs s e
  = wrap64 (timeNumber (january_first e) - timeNumber (january_first s)).
Proof.
  intros Hs He. unfold numSecondsBetweenEpochs, SECONDS_PER_YEAR, SECONDS_PER_DAY.
  rewrite wrap64_mul_l, wrap64_add_l, wrap64_add_r.
  rewrite (leapDays_yr_value s e Hs He), !timeNumber_january_first.
  f_equal. lia.
Qed.

Lemma leapSecondsWalkedThroughFrom_antisym (deltas : list Z) (a b : Z) :
  a <> b ->
  leapSecondsWalkedThroughFrom deltas b a = - leapSecondsWalkedThroughFrom deltas a b.
Proof.
  intros N. destruct (Z.lt_ge_cases a b) as [L | G].
  - rewrite (leapSecondsWalkedThroughFrom_forward deltas a b L).
    rewrite (leapSecondsWalkedThroughFrom_backward deltas b a) by lia. reflexivity.
  - rewrite (leapSecondsWalkedThroughFrom_forward deltas b a) by lia.
    rewrite (leapSecondsWalkedThroughFrom_backward deltas a b) by lia. lia.
Qed.

Lemma entriesBetween_bounds (deltas : list Z) (lo hi : Z) :
  0 <= entriesBetween deltas lo hi <= Z.of_nat (List.length deltas).
Proof.
  unfold entriesBetween.
  pose proof (filter_length_le (fun d => (lo <=? d) && (d <=? hi)) deltas). lia.
Qed.

Lemma days_between (a b : smart_tm) :
  validDate a -> validDate b ->
  dayNumber b - dayNumber a
  = plainDayNumber b - plainDayNumber a + leapDaysWalkedThroughFrom a b.
Proof.
  intros Va Vb. pose proof Va as (Ya & Ma & Da). pose proof Vb as (Yb & Mb & Db).
  rewrite (dayNumber_plain a Ya Ma (validDate_february a Va)).
  rewrite (dayNumber_plain b Yb Mb (validDate_february b Vb)).
  unfold leapDaysWalkedThroughFrom. lia.
Qed.

(** * [init] *)

Lemma init_step_skip (d : Z) (st : State) (k : Z) (line : string) :
  (d <? line_value line) = false -> init_step d (st, k) line = (st, k).
Proof. intros A. unfold init_step. fold (line_value line). rewrite A. reflexivity. Qed.

Lemma init_step_keep (d : Z) (st : State) (k : Z) (line : string) :
  (d <? line_value line) = true ->
  exists tm,
    init_step d (st, k) line
    = (mk_State (leapSecondTMs st ++ [tm])
         (leapSecondDeltas st ++ [wrap64 (wrap64 (line_value line - d) + k)])
         (epoch st) (initialized st) (cerr st),
       wrap64 (k + 1)).
Proof.
  intros A. unfold init_step. fold (line_value line). rewrite A.
  eexists. reflexivity.
Qed.

Lemma init_loop_inv (d : Z) (lines : list string) (st : State) (k : Z) :
  let acc' := fold_left (init_step d) lines (st, k) in
  epoch (fst acc') = epoch st
  /\ initialized (fst acc') = initialized st
  /\ cerr (fst acc') = cerr st
  /\ leapSecondDeltas (fst acc')
     = leapSecondDeltas st
       ++ init_deltas d k (filter (fun v => d <? v) (map line_value lines))
  /\ List.length (leapSecondTMs (fst acc'))
     = Nat.add (List.length (leapSecondTMs st))
         (List.length (filter (fun v => d <? v) (map line_value lines))).
Proof.
  revert st k. induction lines as [| line lines IH]; intros st k; cbv zeta.
  - cbn [fold_left fst map filter init_deltas List.length].
    rewrite app_nil_r, Nat.add_0_r. repeat split.
  - cbn [fold_left map filter].
    destruct (d <? line_value line) eqn:A.
    + destruct (init_step_keep d st k line A) as [tm E]. rewrite E.
      match goal with
      | |- context [fold_left (init_step d) lines (?s, ?k')] =>
          destruct (IH s k') as (E1 & E2 & E3 & E4 & E5)
      end.
      cbv zeta in E1, E2, E3, E4, E5.
      rewrite E1, E2, E3, E4, E5.
      cbn [epoch initialized cerr leapSecondDeltas leapSecondTMs].
      cbn [init_deltas List.length]. rewrite <- app_assoc, length_app.
      cbn [app List.length]. repeat split. lia.
    + rewrite (init_step_skip d st k line A). exact (IH st k).
Qed.

Lemma init_deltas_length (d k : Z) (vals : list Z) :
  List.length (init_deltas d k vals) = List.length vals.
Proof.
  revert k. induction vals as [| v vs IH]; intros k; [reflexivity |].
  cbn [init_deltas List.length]. rewrite IH. reflexivity.
Qed.

Lemma init_success_tables (epochYr : Z) (leapFile : string) (file : list string)
    (st : State) :
  let st' := init epochYr leapFile (Some file) st in
  let d := numSecondsBetweenEpochs DEFAULT_EPOCH_YEAR (wrap64 epochYr) in
  initialized st' = true
  /\ epoch st' = set_yr (epoch st) epochYr
  /\ cerr st' = cerr st
  /\ leapSecondDeltas st' = init_deltas d 0 (leap_values d file)
  /\ List.length (leapSecondTMs st') = List.length (leapSecondDeltas st').
Proof.
  cbv zeta. unfold init. cbn [leapSecondTMs leapSecondDeltas epoch initialized cerr].
  match goal with
  | |- context [fold_left (init_step ?d) ?l (?s, ?k)] =>
      pose proof (init_loop_inv d l s k) as H;
      destruct (fold_left (init_step d) l (s, k)) as [st' k']
  end.
  cbv zeta in H. cbn [fst epoch initialized cerr leapSecondDeltas leapSecondTMs] in H.
  destruct H as (E1 & E2 & E3 & E4 & E5).
  cbn [leapSecondTMs leapSecondDeltas epoch initialized cerr].
  rewrite E1, E2, E3, E4, E5. cbn [app List.length Nat.add].
  unfold leap_values. rewrite init_deltas_length. repeat split.
Qed.

(** The distance from 1900 to an earlier year wraps around to a value
    above [2^63]. *)
Lemma numSecondsBetweenEpochs_before_1900 (epochYr : Z) :
  1 <= epochYr < 1900 ->
  two63 <= numSecondsBetweenEpochs DEFAULT_EPOCH_YEAR (wrap64 epochYr).
Proof.
  intros H. rewrite (wrap64_small epochYr) by (unfold two64; lia).
  unfold DEFAULT_EPOCH_YEAR.
  rewrite numSecondsBetweenEpochs_wrap by (unfold two63; lia).
  rewrite !timeNumber_january_first.
  assert (E : leapCount (1900 - 1) = 460) by reflexivity. rewrite E.
  pose proof (leapCount_nonneg (epochYr - 1) ltac:(lia)) as P.
  pose proof (leapCount_mono (epochYr - 1) 1899 ltac:(lia)) as Mo.
  change (leapCount 1899) with 460 in Mo.
  rewrite wrap64_negative; unfold two64, two63; lia.
Qed.

Lemma filter_none (A : Type) (p : A -> bool) (l : list A) :
  (forall x, In x l -> p x = false) -> filter p l = [].
Proof.
  induction l as [| x l IH]; intros H; [reflexivity |].
  cbn [filter]. rewrite (H x (or_introl eq_refl)).
  apply IH. intros y Hy. apply H. right. exact Hy.
Qed.

Lemma init_before_1900_tables (epochYr : Z) (leapFile : string) (file : list string)
    (st : State) :
  1 <= epochYr < 1900 ->
  (forall line, In line (getLines file) -> line_value line < two63) ->
  leapSecondDeltas (init epochYr leapFile (Some file) st) = []
  /\ leapSecondTMs (init epochYr leapFile (Some file) st) = [].
Proof.
  intros Y B.
  destruct (init_success_tables epochYr leapFile file st) as (_ & _ & _ & E4 & E5).
  cbv zeta in E4, E5.
  pose proof (numSecondsBetweenEpochs_before_1900 epochYr Y) as G.
  assert (V : leap_values (numSecondsBetweenEpochs DEFAULT_EPOCH_YEAR (wrap64 epochYr))
                file = []).
  { unfold leap_values. apply filter_none. intros v Hv.
    apply in_map_iff in Hv. destruct Hv as (line & <- & Hl).
    specialize (B line Hl). apply Z.ltb_ge. lia. }
  rewrite V in E4. cbn [init_deltas] in E4.
  split; [exact E4 |].
  rewrite E4 in E5. cbn [List.length] in E5.
  destruct (leapSecondTMs _); [reflexivity | discriminate].
Qed.

(** * [FileIO.cpp] at character granularity *)

(** ** [safeGetline] *)

Lemma append_assoc (a b c : string) : ((a ++ b) ++ c = a ++ (b ++ c))%string.
Proof. induction a as [| x a IH]; cbn; [reflexivity | rewrite IH; reflexivity]. Qed.

Lemma append_nil_r (a : string) : (a ++ EmptyString)%string = a.
Proof. induction a as [| x a IH]; cbn; [reflexivity | rewrite IH; reflexivity]. Qed.

Lemma append_length (a b : string) :
  String.length (a ++ b) = (String.length a + String.length b)%nat.
Proof. induction a as [| x a IH]; cbn; [reflexivity | rewrite IH; reflexivity]. Qed.

Lemma safeGetline_loop_line (l rest acc : string) :
  no_eol l = true ->
  safeGetline_loop (l ++ rest) acc = safeGetline_loop rest (acc ++ l).
Proof.
  revert acc. induction l as [| c l IH]; intros acc H; cbn [append].
  - rewrite append_nil_r. reflexivity.
  - cbn [no_eol] in H. apply andb_true_iff in H. destruct H as [H Hl].
    apply andb_true_iff in H. destruct H as [H1 H2].
    apply negb_true_iff in H1, H2.
    cbn [safeGetline_loop]. rewrite H1, H2, (IH _ Hl), append_assoc. reflexivity.
Qed.

Lemma safeGetline_loop_ending (e : line_ending) (rest acc : string) :
  safeGetline_loop (ending_string e ++ rest) acc = (after_ending e rest, acc, false).
Proof.
  destruct e; [reflexivity | reflexivity |].
  destruct rest as [| c rest]; [reflexivity |].
  cbn [ending_string append safeGetline_loop after_ending].
  change (Ascii.eqb CR LF) with false. change (Ascii.eqb CR CR) with true.
  cbn iota. destruct (Ascii.eqb c LF); reflexivity.
Qed.

(** [safeGetline] returns the characters before the first line ending and
    takes the ending out of the stream, whichever of the three it is. *)
Lemma safeGetline_line (l : string) (e : line_ending) (rest : string) (b : bool) :
  no_eol l = true ->
  safeGetline (mk_istream (l ++ ending_string e ++ rest) b)
  = (mk_istream (after_ending e rest) b, l).
Proof.
  intros H. unfold safeGetline. cbn [rdbuf eofbit].
  rewrite (safeGetline_loop_line l _ _ H), safeGetline_loop_ending.
  rewrite orb_false_r. reflexivity.
Qed.

(** At the end of the stream: the last line if there are characters left,
    [eofbit] otherwise. *)
Lemma safeGetline_last (l : string) (b : bool) :
  no_eol l = true ->
  safeGetline (mk_istream l b)
  = (mk_istream EmptyString (b || match l with EmptyString => true | _ => false end), l).
Proof.
  intros H. unfold safeGetline. cbn [rdbuf eofbit].
  rewrite <- (append_nil_r l) at 1.
  rewrite (safeGetline_loop_line l _ _ H). cbn. reflexivity.
Qed.

(** ** [getNextLine] *)

Lemma safeGetline_loop_takes (buf acc : string) :
  (String.length (fst (fst (safeGetline_loop buf acc))) <= String.length buf)%nat
  /\ (buf <> EmptyString ->
      (String.length (fst (fst (safeGetline_loop buf acc))) < String.length buf)%nat)
  /\ (buf = EmptyString ->
      snd (safeGetline_loop buf acc)
      = match acc with EmptyString => true | _ => false end).
Proof.
  revert acc. induction buf as [| c buf IH]; intros acc.
  - cbn. repeat split; [lia | congruence].
  - cbn [safeGetline_loop].
    destruct (Ascii.eqb c LF); [cbn; repeat split; try lia; congruence |].
    destruct (Ascii.eqb c CR).
    + destruct buf as [| c' buf']; [cbn; repeat split; try lia; congruence |].
      destruct (Ascii.eqb c' LF); cbn; repeat split; try lia; congruence.
    + destruct (IH (acc ++ String c EmptyString)%string) as (A & B & _).
      cbn [String.length]. repeat split; try lia; congruence.
Qed.

(** A call that leaves [eofbit] clear has taken at least one character. *)
Lemma safeGetline_takes (strm : istream) :
  eofbit (fst (safeGetline strm)) = false ->
  (String.length (rdbuf (fst (safeGetline strm))) < String.length (rdbuf strm))%nat.
Proof.
  unfold safeGetline.
  pose proof (safeGetline_loop_takes (rdbuf strm) EmptyString) as (A & B & D).
  destruct (safeGetline_loop (rdbuf strm) EmptyString) as [[rest line] e].
  cbn [fst snd rdbuf eofbit] in *. intros E.
  apply orb_false_iff in E. destruct E as [_ E].
  apply B. intros Z. rewrite (D Z) in E. discriminate.
Qed.

Lemma getNextLine_loop_fuel (n m : nat) (strm : istream) :
  (String.length (rdbuf strm) < n)%nat -> (String.length (rdbuf strm) < m)%nat ->
  getNextLine_loop n strm = getNextLine_loop m strm.
Proof.
  revert m strm. induction n as [| n IH]; intros m strm Hn Hm; [lia |].
  destruct m as [| m]; [lia |].
  cbn [getNextLine_loop].
  pose proof (safeGetline_takes strm) as T.
  destruct (safeGetline strm) as [strm' line]. cbn [fst] in T.
  destruct (eofbit strm') eqn:E; cbn [negb]; [reflexivity |].
  destruct (skipped_line line); [| reflexivity].
  specialize (T eq_refl). apply IH; lia.
Qed.

(** One pass of [getNextLine]. *)
Lemma getNextLine_unfold (strm : istream) :
  getNextLine strm
  = let '(strm', line) := safeGetline strm in
    if negb (eofbit strm') then
      if skipped_line line then getNextLine strm' else (strm', line, true)
    else (strm', EmptyString, false).
Proof.
  unfold getNextLine at 1. cbn [getNextLine_loop].
  pose proof (safeGetline_takes strm) as T.
  destruct (safeGetline strm) as [strm' line]. cbn [fst] in T.
  destruct (eofbit strm') eqn:E; cbn [negb]; [reflexivity |].
  destruct (skipped_line line); [| reflexivity].
  specialize (T eq_refl). unfold getNextLine. apply getNextLine_loop_fuel; lia.
Qed.

(** A successful call returns a line that is not empty and does not start
    with [#], leaves [eofbit] clear and has taken at least one character. *)
Lemma getNextLine_loop_success (fuel : nat) (strm strm' : istream) (line : string) :
  getNextLine_loop fuel strm = (strm', line, true) ->
  skipped_line line = false /\ eofbit strm' = false
  /\ (String.length (rdbuf strm') < String.length (rdbuf strm))%nat.
Proof.
  revert strm. induction fuel as [| fuel IH]; intros strm H; [discriminate |].
  cbn [getNextLine_loop] in H.
  pose proof (safeGetline_takes strm) as T.
  destruct (safeGetline strm) as [s1 l1]. cbn [fst] in T.
  destruct (eofbit s1) eqn:E; cbn [negb] in H; [discriminate |].
  specialize (T eq_refl).
  destruct (skipped_line l1) eqn:K.
  - destruct (IH s1 H) as (A & B & D). repeat split; try assumption. lia.
  - injection H as <- <-. repeat split; assumption.
Qed.

Lemma getNextLine_loop_failure (fuel : nat) (strm strm' : istream) (line : string) :
  (String.length (rdbuf strm) < fuel)%nat ->
  getNextLine_loop fuel strm = (strm', line, false) ->
  line = EmptyString /\ eofbit strm' = true.
Proof.
  revert strm. induction fuel as [| fuel IH]; intros strm F H; [lia |].
  cbn [getNextLine_loop] in H.
  pose proof (safeGetline_takes strm) as T.
  destruct (safeGetline strm) as [s1 l1]. cbn [fst] in T.
  destruct (eofbit s1) eqn:E; cbn [negb] in H.
  - injection H as <- <-. split; [reflexivity | exact E].
  - specialize (T eq_refl). destruct (skipped_line l1); [| discriminate].
    apply (IH s1); [lia | exact H].
Qed.

(** ** The reading loop *)

Lemma read_lines_loop_fuel (n m : nat) (strm : istream) :
  (String.length (rdbuf strm) < n)%nat -> (String.length (rdbuf strm) < m)%nat ->
  read_lines_loop n strm = read_lines_loop m strm.
Proof.
  revert m strm. induction n as [| n IH]; intros m strm Hn Hm; [lia |].
  destruct m as [| m]; [lia |].
  cbn [read_lines_loop].
  pose proof (getNextLine_loop_success (S (String.length (rdbuf strm))) strm) as T.
  fold (getNextLine strm) in T.
  destruct (getNextLine strm) as [[strm' line] ok].
  destruct ok; [| reflexivity].
  destruct (T strm' line eq_refl) as (_ & _ & L).
  f_equal. apply IH; lia.
Qed.

Lemma read_lines_unfold (strm : istream) :
  read_lines strm
  = let '(strm', line, ok) := getNextLine strm in
    if ok then line :: read_lines strm' else [].
Proof.
  unfold read_lines at 1. cbn [read_lines_loop].
  pose proof (getNextLine_loop_success (S (String.length (rdbuf strm))) strm) as T.
  fold (getNextLine strm) in T.
  destruct (getNextLine strm) as [[strm' line] ok].
  destruct ok; [| reflexivity].
  destruct (T strm' line eq_refl) as (_ & _ & L).
  f_equal. unfold read_lines. apply read_lines_loop_fuel; lia.
Qed.

Lemma getNextLine_at_end (b : bool) :
  getNextLine (mk_istream EmptyString b) = (mk_istream EmptyString true, EmptyString, false).
Proof.
  rewrite getNextLine_unfold, (safeGetline_last EmptyString b eq_refl).
  rewrite orb_true_r. reflexivity.
Qed.

Lemma read_lines_at_end (b : bool) : read_lines (mk_istream EmptyString b) = [].
Proof. rewrite read_lines_unfold, getNextLine_at_end. reflexivity. Qed.

(** A line with its ending: the line is kept unless it is empty or a
    comment, and reading goes on after the ending. *)
Lemma read_lines_line_after (l : string) (e : line_ending) (rest : string) :
  no_eol l = true ->
  read_lines (open_stream (l ++ ending_string e ++ rest))
  = (if skipped_line l then [] else [l])
    ++ read_lines (open_stream (after_ending e rest)).
Proof.
  intros H. unfold open_stream.
  rewrite read_lines_unfold, getNextLine_unfold, (safeGetline_line l e rest false H).
  cbn [eofbit negb].
  destruct (skipped_line l).
  - rewrite <- read_lines_unfold. reflexivity.
  - reflexivity.
Qed.

Lemma read_lines_skip_LF (rest : string) :
  read_lines (open_stream (String LF rest)) = read_lines (open_stream rest).
Proof.
  exact (read_lines_line_after EmptyString Unix_ending rest eq_refl).
Qed.

Lemma read_lines_after_ending (e : line_ending) (rest : string) :
  read_lines (open_stream (after_ending e rest)) = read_lines (open_stream rest).
Proof.
  destruct e; try reflexivity.
  destruct rest as [| c rest]; [reflexivity |].
  cbn [after_ending]. destruct (Ascii.eqb c LF) eqn:E; [| reflexivity].
  apply Ascii.eqb_eq in E. subst c. symmetry. apply read_lines_skip_LF.
Qed.

Lemma read_lines_line (l : string) (e : line_ending) (rest : string) :
  no_eol l = true ->
  read_lines (open_stream (l ++ ending_string e ++ rest))
  = (if skipped_line l then [] else [l]) ++ read_lines (open_stream rest).
Proof.
  intros H. rewrite (read_lines_line_after l e rest H), read_lines_after_ending.
  reflexivity.
Qed.

Lemma read_lines_last (l : string) :
  no_eol l = true ->
  read_lines (open_stream l) = if skipped_line l then [] else [l].
Proof.
  intros H. unfold open_stream.
  rewrite read_lines_unfold, getNextLine_unfold, (safeGetline_last l false H).
  destruct l as [| c l]; [reflexivity |].
  cbn [orb eofbit negb].
  destruct (skipped_line (String c l)).
  - rewrite getNextLine_at_end. reflexivity.
  - rewrite read_lines_at_end. reflexivity.
Qed.

Lemma getLines_cons (l : string) (file : list string) :
  getLines (l :: file) = (if skipped_line l then [] else [l]) ++ getLines file.
Proof. unfold getLines. cbn [filter]. destruct (skipped_line l); reflexivity. Qed.

Lemma read_lines_text (lines : list (string * line_ending)) (last : string) :
  forallb (fun le => no_eol (fst le)) lines = true -> no_eol last = true ->
  read_lines (open_stream (text_of lines last))
  = getLines (map fst lines ++ [last]).
Proof.
  intros H Hl. induction lines as [| [l e] lines IH].
  - cbn [text_of map app]. rewrite (read_lines_last last Hl), getLines_cons.
    unfold getLines. cbn [filter]. rewrite app_nil_r. reflexivity.
  - cbn [forallb fst] in H. apply andb_true_iff in H. destruct H as [H1 H2].
    cbn [text_of map app fst].
    rewrite (read_lines_line l e _ H1), (IH H2), getLines_cons. reflexivity.
Qed.

(** * Further properties of the code *)

(** A hypothesis at a concrete input, by evaluation. *)
Ltac by_evaluation :=
  first
    [ reflexivity
    | vm_compute; repeat split; intros; first [reflexivity | discriminate] ].

(** ** The limits of the second field *)

(** X1. [secInLimits] compares in [double], yet for every value of the
    second field it is the integer test: [0 <= sec <= 59], or [<= 60] in a
    leap minute. *)
Theorem secInLimits_exact (st : State) (t : smart_tm) :
  secInLimits st t
  = (0 <=? sec t) && (sec t <=? (if isLeapMinute st t then 60 else 59)).
Proof.
  rewrite secInLimits_spec. unfold numSecondsOfMinute.
  destruct (isLeapMinute st t); reflexivity.
Qed.

(** ** The carries, one function at a time *)

(** X2. [fixMon] brings the month into 1..12 and moves whole years into
    the year field: the month count [12 * yr + mon] and the other fields do
    not change. *)
Theorem fixMon_carries_years (t : smart_tm) :
  Z.abs (mon t - 1) < two53 ->
  let r := fixMon t in
  1 <= mon r <= 12 /\ 12 * yr r + mon r = 12 * yr t + mon t
  /\ day r = day t /\ hr r = hr t /\ min r = min t /\ sec r = sec t
  /\ fracSec r = fracSec t.
Proof.
  intros B. cbv zeta. rewrite (fixMon_spec t B). cbn [yr mon day hr min sec fracSec].
  repeat split; Z.div_mod_to_equations; lia.
Qed.

(** Month -14 of 2012 is October 2010. *)
Lemma fixMon_carries_years_witness :
  Z.abs (mon (mk_tm 2012 (-14) 31 0 0 0 zero_frac) - 1) < two53
  /\ (1 <= mon (fixMon (mk_tm 2012 (-14) 31 0 0 0 zero_frac)) <= 12
      /\ 12 * yr (fixMon (mk_tm 2012 (-14) 31 0 0 0 zero_frac))
         + mon (fixMon (mk_tm 2012 (-14) 31 0 0 0 zero_frac))
         = 12 * yr (mk_tm 2012 (-14) 31 0 0 0 zero_frac)
           + mon (mk_tm 2012 (-14) 31 0 0 0 zero_frac)
      /\ day (fixMon (mk_tm 2012 (-14) 31 0 0 0 zero_frac))
         = day (mk_tm 2012 (-14) 31 0 0 0 zero_frac)
      /\ hr (fixMon (mk_tm 2012 (-14) 31 0 0 0 zero_frac))
         = hr (mk_tm 2012 (-14) 31 0 0 0 zero_frac)
      /\ min (fixMon (mk_tm 2012 (-14) 31 0 0 0 zero_frac))
         = min (mk_tm 2012 (-14) 31 0 0 0 zero_frac)
      /\ sec (fixMon (mk_tm 2012 (-14) 31 0 0 0 zero_frac))
         = sec (mk_tm 2012 (-14) 31 0 0 0 zero_frac)
      /\ fracSec (fixMon (mk_tm 2012 (-14) 31 0 0 0 zero_frac))
         = fracSec (mk_tm 2012 (-14) 31 0 0 0 zero_frac)).
Proof.
  assert (B : Z.abs (mon (mk_tm 2012 (-14) 31 0 0 0 zero_frac) - 1) < two53)
    by by_evaluation.
  split; [exact B |].
  exact (fixMon_carries_years (mk_tm 2012 (-14) 31 0 0 0 zero_frac) B).
Defined.

(** X3. [stepMonNoLeapCorrection] brings the day into the canonical
    (non-leap) length of its month by stepping months; the day number in a
    calendar without leap days and the clock fields do not change. *)
Theorem stepMonNoLeapCorrection_normalises (t : smart_tm) :
  1 <= mon t <= 12 ->
  let r := stepMonNoLeapCorrection t in
  1 <= mon r <= 12 /\ 1 <= day r <= days_at (mon r - 1)
  /\ plainDayNumber r = plainDayNumber t
  /\ hr r = hr t /\ min r = min t /\ sec r = sec t /\ fracSec r = fracSec t.
Proof.
  intros M. destruct (stepMonNoLeapCorrection_spec t M) as (A & B & D & E).
  cbv zeta in *. split; [exact A |]. split; [exact B |]. split; [exact D | exact E].
Qed.

(** Day 400 of January 2013 is 4 February 2014 when no year is a leap
    year. *)
Lemma stepMonNoLeapCorrection_normalises_witness :
  1 <= mon (mk_tm 2013 1 400 7 8 9 zero_frac) <= 12
  /\ (1 <= mon (stepMonNoLeapCorrection (mk_tm 2013 1 400 7 8 9 zero_frac)) <= 12
      /\ 1 <= day (stepMonNoLeapCorrection (mk_tm 2013 1 400 7 8 9 zero_frac))
         <= days_at (mon (stepMonNoLeapCorrection (mk_tm 2013 1 400 7 8 9 zero_frac)) - 1)
      /\ plainDayNumber (stepMonNoLeapCorrection (mk_tm 2013 1 400 7 8 9 zero_frac))
         = plainDayNumber (mk_tm 2013 1 400 7 8 9 zero_frac)
      /\ hr (stepMonNoLeapCorrection (mk_tm 2013 1 400 7 8 9 zero_frac))
         = hr (mk_tm 2013 1 400 7 8 9 zero_frac)
      /\ min (stepMonNoLeapCorrection (mk_tm 2013 1 400 7 8 9 zero_frac))
         = min (mk_tm 2013 1 400 7 8 9 zero_frac)
      /\ sec (stepMonNoLeapCorrection (mk_tm 2013 1 400 7 8 9 zero_frac))
         = sec (mk_tm 2013 1 400 7 8 9 zero_frac)
      /\ fracSec (stepMonNoLeapCorrection (mk_tm 2013 1 400 7 8 9 zero_frac))
         = fracSec (mk_tm 2013 1 400 7 8 9 zero_frac)).
Proof.
  assert (M : 1 <= mon (mk_tm 2013 1 400 7 8 9 zero_frac) <= 12) by by_evaluation.
  split; [exact M |].
  exact (stepMonNoLeapCorrection_normalises (mk_tm 2013 1 400 7 8 9 zero_frac) M).
Defined.

(** X4. [stepMon] brings the day into the true length of its month (29
    days for February of a leap year) by stepping months; the day number
    and the clock fields do not change. *)
Theorem stepMon_normalises (t : smart_tm) :
  1 <= yr t -> 1 <= mon t <= 12 -> 365 <= dayNumber t ->
  let r := stepMon t in
  validDate r /\ dayNumber r = dayNumber t
  /\ hr r = hr t /\ min r = min t /\ sec r = sec t /\ fracSec r = fracSec t.
Proof.
  intros Y M N. destruct (stepMon_spec t Y M N) as (A & B & D).
  cbv zeta in *. split; [exact A |]. split; [exact B | exact D].
Qed.

(** Day 0 of March 2012 is 29 February 2012. *)
Lemma stepMon_normalises_witness :
  1 <= yr (mk_tm 2012 3 0 7 8 9 zero_frac)
  /\ 1 <= mon (mk_tm 2012 3 0 7 8 9 zero_frac) <= 12
  /\ 365 <= dayNumber (mk_tm 2012 3 0 7 8 9 zero_frac)
  /\ (validDate (stepMon (mk_tm 2012 3 0 7 8 9 zero_frac))
      /\ dayNumber (stepMon (mk_tm 2012 3 0 7 8 9 zero_frac))
         = dayNumber (mk_tm 2012 3 0 7 8 9 zero_frac)
      /\ hr (stepMon (mk_tm 2012 3 0 7 8 9 zero_frac))
         = hr (mk_tm 2012 3 0 7 8 9 zero_frac)
      /\ min (stepMon (mk_tm 2012 3 0 7 8 9 zero_frac))
         = min (mk_tm 2012 3 0 7 8 9 zero_frac)
      /\ sec (stepMon (mk_tm 2012 3 0 7 8 9 zero_frac))
         = sec (mk_tm 2012 3 0 7 8 9 zero_frac)
      /\ fracSec (stepMon (mk_tm 2012 3 0 7 8 9 zero_frac))
         = fracSec (mk_tm 2012 3 0 7 8 9 zero_frac)).
Proof.
  assert (Y : 1 <= yr (mk_tm 2012 3 0 7 8 9 zero_frac)) by by_evaluation.
  assert (M : 1 <= mon (mk_tm 2012 3 0 7 8 9 zero_frac) <= 12) by by_evaluation.
  assert (N : 365 <= dayNumber (mk_tm 2012 3 0 7 8 9 zero_frac)) by by_evaluation.
  split; [exact Y |]. split; [exact M |]. split; [exact N |].
  exact (stepMon_normalises (mk_tm 2012 3 0 7 8 9 zero_frac) Y M N).
Defined.

(** The timestamps the two witnesses above arrive at. *)
Example stepMon_examples :
  stepMonNoLeapCorrection (mk_tm 2013 1 400 7 8 9 zero_frac)
  = mk_tm 2014 2 4 7 8 9 zero_frac
  /\ stepMon (mk_tm 2012 3 0 7 8 9 zero_frac) = mk_tm 2012 2 29 7 8 9 zero_frac.
Proof. split; vm_compute; reflexivity. Qed.

(** X5. [fixDay] turns a day field of any size and sign into a date that
    exists: the day number, counted from the first of the month the
    timestamp names, and the clock fields do not change. The date must lie
    in year 1 or later of the calendar without leap days. *)
Theorem fixDay_normalises (t : smart_tm) :
  1 <= yr t -> 1 <= mon t <= 12 -> Z.abs (day t - 1) < two53 ->
  365 <= plainDayNumber t ->
  let r := fixDay t in
  validDate r /\ dayNumber r = dayNumber t
  /\ hr r = hr t /\ min r = min t /\ sec r = sec t /\ fracSec r = fracSec t.
Proof.
  intros Y M B N. destruct (fixDay_spec t Y M B N) as (A & D & E).
  cbv zeta in *. split; [exact A |]. split; [exact D | exact E].
Qed.

(** Day -400 of March 2013: 401 days before 1 March 2013, across the leap
    day of 2012. *)
Lemma fixDay_normalises_witness :
  1 <= yr (mk_tm 2013 3 (-400) 7 8 9 zero_frac)
  /\ 1 <= mon (mk_tm 2013 3 (-400) 7 8 9 zero_frac) <= 12
  /\ Z.abs (day (mk_tm 2013 3 (-400) 7 8 9 zero_frac) - 1) < two53
  /\ 365 <= plainDayNumber (mk_tm 2013 3 (-400) 7 8 9 zero_frac)
  /\ (validDate (fixDay (mk_tm 2013 3 (-400) 7 8 9 zero_frac))
      /\ dayNumber (fixDay (mk_tm 2013 3 (-400) 7 8 9 zero_frac))
         = dayNumber (mk_tm 2013 3 (-400) 7 8 9 zero_frac)
      /\ hr (fixDay (mk_tm 2013 3 (-400) 7 8 9 zero_frac))
         = hr (mk_tm 2013 3 (-400) 7 8 9 zero_frac)
      /\ min (fixDay (mk_tm 2013 3 (-400) 7 8 9 zero_frac))
         = min (mk_tm 2013 3 (-400) 7 8 9 zero_frac)
      /\ sec (fixDay (mk_tm 2013 3 (-400) 7 8 9 zero_frac))
         = sec (mk_tm 2013 3 (-400) 7 8 9 zero_frac)
      /\ fracSec (fixDay (mk_tm 2013 3 (-400) 7 8 9 zero_frac))
         = fracSec (mk_tm 2013 3 (-400) 7 8 9 zero_frac)).
Proof.
  assert (Y : 1 <= yr (mk_tm 2013 3 (-400) 7 8 9 zero_frac)) by by_evaluation.
  assert (M : 1 <= mon (mk_tm 2013 3 (-400) 7 8 9 zero_frac) <= 12) by by_evaluation.
  assert (B : Z.abs (day (mk_tm 2013 3 (-400) 7 8 9 zero_frac) - 1) < two53)
    by by_evaluation.
  assert (N : 365 <= plainDayNumber (mk_tm 2013 3 (-400) 7 8 9 zero_frac))
    by by_evaluation.
  split; [exact Y |]. split; [exact M |]. split; [exact B |]. split; [exact N |].
  exact (fixDay_normalises (mk_tm 2013 3 (-400) 7 8 9 zero_frac) Y M B N).
Defined.

(** X6. [fixHr] brings the hour into 0..23 and carries whole days, in
    either direction and across month and year ends: the date stays a date
    that exists, the time counted at 86400 seconds per day does not change,
    and minute, second and fraction are untouched. *)
Theorem fixHr_carries_days (t : smart_tm) :
  validDate t -> Z.abs (hr t) < two52 ->
  (hr t < 0 -> 365 <= plainDayNumber t + hr t / 24) ->
  let r := fixHr t in
  validDate r /\ 0 <= hr r <= 23 /\ timeNumber r = timeNumber t
  /\ min r = min t /\ sec r = sec t /\ fracSec r = fracSec t.
Proof. exact (fixHr_carry t). Qed.

(** Hour -1 of 1 March 2012 is 23 h of 29 February 2012. *)
Lemma fixHr_carries_days_witness :
  validDate (mk_tm 2012 3 1 (-1) 8 9 zero_frac)
  /\ Z.abs (hr (mk_tm 2012 3 1 (-1) 8 9 zero_frac)) < two52
  /\ (hr (mk_tm 2012 3 1 (-1) 8 9 zero_frac) < 0 ->
      365 <= plainDayNumber (mk_tm 2012 3 1 (-1) 8 9 zero_frac)
             + hr (mk_tm 2012 3 1 (-1) 8 9 zero_frac) / 24)
  /\ (validDate (fixHr (mk_tm 2012 3 1 (-1) 8 9 zero_frac))
      /\ 0 <= hr (fixHr (mk_tm 2012 3 1 (-1) 8 9 zero_frac)) <= 23
      /\ timeNumber (fixHr (mk_tm 2012 3 1 (-1) 8 9 zero_frac))
         = timeNumber (mk_tm 2012 3 1 (-1) 8 9 zero_frac)
      /\ min (fixHr (mk_tm 2012 3 1 (-1) 8 9 zero_frac))
         = min (mk_tm 2012 3 1 (-1) 8 9 zero_frac)
      /\ sec (fixHr (mk_tm 2012 3 1 (-1) 8 9 zero_frac))
         = sec (mk_tm 2012 3 1 (-1) 8 9 zero_frac)
      /\ fracSec (fixHr (mk_tm 2012 3 1 (-1) 8 9 zero_frac))
         = fracSec (mk_tm 2012 3 1 (-1) 8 9 zero_frac)).
Proof.
  assert (V : validDate (mk_tm 2012 3 1 (-1) 8 9 zero_frac)) by by_evaluation.
  assert (B : Z.abs (hr (mk_tm 2012 3 1 (-1) 8 9 zero_frac)) < two52) by by_evaluation.
  assert (N : hr (mk_tm 2012 3 1 (-1) 8 9 zero_frac) < 0 ->
              365 <= plainDayNumber (mk_tm 2012 3 1 (-1) 8 9 zero_frac)
                     + hr (mk_tm 2012 3 1 (-1) 8 9 zero_frac) / 24)
    by by_evaluation.
  split; [exact V |]. split; [exact B |]. split; [exact N |].
  exact (fixHr_carries_days (mk_tm 2012 3 1 (-1) 8 9 zero_frac) V B N).
Defined.

(** X7. [fixMin] brings the minute into 0..59 and carries whole hours, in
    either direction, through [fixHr] and [fixDay]: date and clock come out
    in range, the time counted at 86400 seconds per day does not change,
    and second and fraction are untouched. *)
Theorem fixMin_carries_hours (t : smart_tm) :
  validDate t -> 0 <= hr t <= 23 -> Z.abs (min t) < two52 ->
  (min t < 0 -> 365 <= plainDayNumber t + (hr t + min t / 60) / 24) ->
  let r := fixMin t in
  validDate r /\ validClock r /\ timeNumber r = timeNumber t
  /\ sec r = sec t /\ fracSec r = fracSec t.
Proof. exact (fixMin_carry t). Qed.

(** Minute 1500 of 31 December 2013, 23 h, is 2 January 2014, 0:00. *)
Lemma fixMin_carries_hours_witness :
  validDate (mk_tm 2013 12 31 23 1500 9 zero_frac)
  /\ 0 <= hr (mk_tm 2013 12 31 23 1500 9 zero_frac) <= 23
  /\ Z.abs (min (mk_tm 2013 12 31 23 1500 9 zero_frac)) < two52
  /\ (min (mk_tm 2013 12 31 23 1500 9 zero_frac) < 0 ->
      365 <= plainDayNumber (mk_tm 2013 12 31 23 1500 9 zero_frac)
             + (hr (mk_tm 2013 12 31 23 1500 9 zero_frac)
                + min (mk_tm 2013 12 31 23 1500 9 zero_frac) / 60) / 24)
  /\ (validDate (fixMin (mk_tm 2013 12 31 23 1500 9 zero_frac))
      /\ validClock (fixMin (mk_tm 2013 12 31 23 1500 9 zero_frac))
      /\ timeNumber (fixMin (mk_tm 2013 12 31 23 1500 9 zero_frac))
         = timeNumber (mk_tm 2013 12 31 23 1500 9 zero_frac)
      /\ sec (fixMin (mk_tm 2013 12 31 23 1500 9 zero_frac))
         = sec (mk_tm 2013 12 31 23 1500 9 zero_frac)
      /\ fracSec (fixMin (mk_tm 2013 12 31 23 1500 9 zero_frac))
         = fracSec (mk_tm 2013 12 31 23 1500 9 zero_frac)).
Proof.
  assert (V : validDate (mk_tm 2013 12 31 23 1500 9 zero_frac)) by by_evaluation.
  assert (H : 0 <= hr (mk_tm 2013 12 31 23 1500 9 zero_frac) <= 23) by by_evaluation.
  assert (B : Z.abs (min (mk_tm 2013 12 31 23 1500 9 zero_frac)) < two52)
    by by_evaluation.
  assert (N : min (mk_tm 2013 12 31 23 1500 9 zero_frac) < 0 ->
              365 <= plainDayNumber (mk_tm 2013 12 31 23 1500 9 zero_frac)
                     + (hr (mk_tm 2013 12 31 23 1500 9 zero_frac)
                        + min (mk_tm 2013 12 31 23 1500 9 zero_frac) / 60) / 24)
    by by_evaluation.
  split; [exact V |]. split; [exact H |]. split; [exact B |]. split; [exact N |].
  exact (fixMin_carries_hours (mk_tm 2013 12 31 23 1500 9 zero_frac) V H B N).
Defined.

(** The timestamps the three witnesses above arrive at. *)
Example carry_examples :
  fixDay (mk_tm 2013 3 (-400) 7 8 9 zero_frac) = mk_tm 2012 1 25 7 8 9 zero_frac
  /\ fixHr (mk_tm 2012 3 1 (-1) 8 9 zero_frac) = mk_tm 2012 2 29 23 8 9 zero_frac
  /\ fixMin (mk_tm 2013 12 31 23 1500 9 zero_frac) = mk_tm 2014 1 2 0 0 9 zero_frac.
Proof. repeat split; vm_compute; reflexivity. Qed.

(** ** [adjust] after a change of fields *)

(** X8. Adding any number of seconds to the second field of a valid
    timestamp and calling [adjust] moves the epoch offset by exactly that
    number, leap seconds included, in either direction; the fraction is
    kept and the result is valid up to year 9999. The target must not lie
    before the Epoch Reference in uniform seconds (the leap seconds before
    the timestamp do not count towards the distance), and going backwards
    needs an epoch year of at least 8. *)
Theorem adjust_add_seconds (st : State) (t : smart_tm) (k : Z) :
  tables_ok st = true -> isValid st t = true -> Z.abs k < 2 ^ 50 ->
  leapSecondsWalkedThroughSinceEpoch st t <= toEpoch st t + k ->
  (k < 0 -> 8 <= yr (epoch st)) ->
  let r := adjust st (set_sec t (sec t + k)) in
  toEpoch st r = toEpoch st t + k
  /\ fracSec r = fracSec t
  /\ (yr r <= 9999 -> isValid st r = true).
Proof.
  intros T. exact (adjust_seconds_consistent st (tables_ok_consistent st T) t k).
Qed.

(** The header's example: 200 seconds after 2012-03-05 14:30:00. *)
Lemma adjust_add_seconds_witness :
  tables_ok state_2008 = true
  /\ isValid state_2008 (mk_tm 2012 3 5 14 30 0 zero_frac) = true
  /\ Z.abs 200 < 2 ^ 50
  /\ leapSecondsWalkedThroughSinceEpoch state_2008 (mk_tm 2012 3 5 14 30 0 zero_frac)
     <= toEpoch state_2008 (mk_tm 2012 3 5 14 30 0 zero_frac) + 200
  /\ (200 < 0 -> 8 <= yr (epoch state_2008))
  /\ (toEpoch state_2008
        (adjust state_2008
           (set_sec (mk_tm 2012 3 5 14 30 0 zero_frac)
              (sec (mk_tm 2012 3 5 14 30 0 zero_frac) + 200)))
      = toEpoch state_2008 (mk_tm 2012 3 5 14 30 0 zero_frac) + 200
      /\ fracSec
           (adjust state_2008
              (set_sec (mk_tm 2012 3 5 14 30 0 zero_frac)
                 (sec (mk_tm 2012 3 5 14 30 0 zero_frac) + 200)))
         = fracSec (mk_tm 2012 3 5 14 30 0 zero_frac)
      /\ (yr (adjust state_2008
                (set_sec (mk_tm 2012 3 5 14 30 0 zero_frac)
                   (sec (mk_tm 2012 3 5 14 30 0 zero_frac) + 200))) <= 9999 ->
          isValid state_2008
            (adjust state_2008
               (set_sec (mk_tm 2012 3 5 14 30 0 zero_frac)
                  (sec (mk_tm 2012 3 5 14 30 0 zero_frac) + 200))) = true)).
Proof.
  assert (T : tables_ok state_2008 = true) by by_evaluation.
  assert (I : isValid state_2008 (mk_tm 2012 3 5 14 30 0 zero_frac) = true)
    by by_evaluation.
  assert (B : Z.abs 200 < 2 ^ 50) by by_evaluation.
  assert (L : leapSecondsWalkedThroughSinceEpoch state_2008
                (mk_tm 2012 3 5 14 30 0 zero_frac)
              <= toEpoch state_2008 (mk_tm 2012 3 5 14 30 0 zero_frac) + 200)
    by by_evaluation.
  assert (N : 200 < 0 -> 8 <= yr (epoch state_2008)) by by_evaluation.
  split; [exact T |]. split; [exact I |]. split; [exact B |]. split; [exact L |].
  split; [exact N |].
  exact (adjust_add_seconds state_2008 (mk_tm 2012 3 5 14 30 0 zero_frac) 200 T I B L N).
Defined.

(** The header's example lands on 14:33:20; ten seconds after midnight
    minus twenty seconds crosses the leap second of 30 June 2012. *)
Example adjust_add_seconds_examples :
  adjust state_2008 (mk_tm 2012 3 5 14 30 200 zero_frac)
  = mk_tm 2012 3 5 14 33 20 zero_frac
  /\ adjust state_2008 (mk_tm 2012 7 1 0 0 (10 - 20) zero_frac)
     = mk_tm 2012 6 30 23 59 51 zero_frac.
Proof. split; vm_compute; reflexivity. Qed.

(** X9. Adding days, hours and minutes (none negative) to a valid
    timestamp whose second is at most 59 and calling [adjust] moves the
    time, counted at 86400 seconds per day, by exactly the sum; second and
    fraction are kept, and the result is valid up to year 9999. *)
Theorem adjust_rolls_forward (st : State) (t : smart_tm) (kd kh km : Z) :
  tables_ok st = true -> isValid st t = true -> sec t <= 59 ->
  0 <= kd < 2 ^ 40 -> 0 <= kh < 2 ^ 40 -> 0 <= km < 2 ^ 40 ->
  let r :=
    adjust st
      (mk_tm (yr t) (mon t) (day t + kd) (hr t + kh) (min t + km) (sec t)
         (fracSec t)) in
  timeNumber r = timeNumber t + 86400 * kd + 3600 * kh + 60 * km
  /\ sec r = sec t /\ fracSec r = fracSec t
  /\ (yr r <= 9999 -> isValid st r = true).
Proof.
  intros T. exact (adjust_forward_consistent st (tables_ok_consistent st T) t kd kh km).
Qed.

(** 2012-12-31 23:59:30 plus 59 days, 25 hours and 61 minutes. *)
Lemma adjust_rolls_forward_witness :
  tables_ok state_1990 = true
  /\ isValid state_1990 (mk_tm 2012 12 31 23 59 30 zero_frac) = true
  /\ sec (mk_tm 2012 12 31 23 59 30 zero_frac) <= 59
  /\ 0 <= 59 < 2 ^ 40 /\ 0 <= 25 < 2 ^ 40 /\ 0 <= 61 < 2 ^ 40
  /\ (let r :=
        adjust state_1990
          (mk_tm (yr (mk_tm 2012 12 31 23 59 30 zero_frac))
             (mon (mk_tm 2012 12 31 23 59 30 zero_frac))
             (day (mk_tm 2012 12 31 23 59 30 zero_frac) + 59)
             (hr (mk_tm 2012 12 31 23 59 30 zero_frac) + 25)
             (min (mk_tm 2012 12 31 23 59 30 zero_frac) + 61)
             (sec (mk_tm 2012 12 31 23 59 30 zero_frac))
             (fracSec (mk_tm 2012 12 31 23 59 30 zero_frac))) in
      timeNumber r
      = timeNumber (mk_tm 2012 12 31 23 59 30 zero_frac)
        + 86400 * 59 + 3600 * 25 + 60 * 61
      /\ sec r = sec (mk_tm 2012 12 31 23 59 30 zero_frac)
      /\ fracSec r = fracSec (mk_tm 2012 12 31 23 59 30 zero_frac)
      /\ (yr r <= 9999 -> isValid state_1990 r = true)).
Proof.
  assert (T : tables_ok state_1990 = true) by by_evaluation.
  assert (I : isValid state_1990 (mk_tm 2012 12 31 23 59 30 zero_frac) = true)
    by by_evaluation.
  assert (S : sec (mk_tm 2012 12 31 23 59 30 zero_frac) <= 59) by by_evaluation.
  assert (Bd : 0 <= 59 < 2 ^ 40) by by_evaluation.
  assert (Bh : 0 <= 25 < 2 ^ 40) by by_evaluation.
  assert (Bm : 0 <= 61 < 2 ^ 40) by by_evaluation.
  split; [exact T |]. split; [exact I |]. split; [exact S |].
  split; [exact Bd |]. split; [exact Bh |]. split; [exact Bm |].
  exact (adjust_rolls_forward state_1990 (mk_tm 2012 12 31 23 59 30 zero_frac)
           59 25 61 T I S Bd Bh Bm).
Defined.

Example adjust_rolls_forward_example :
  adjust state_1990 (mk_tm 2012 12 (31 + 59) (23 + 25) (59 + 61) 30 zero_frac)
  = mk_tm 2013 3 2 2 0 30 zero_frac.
Proof. vm_compute. reflexivity. Qed.

(** X10. Changing one of the day, hour and minute fields of a valid
    timestamp (second at most 59) by any amount, negative included, and
    calling [adjust] moves the time, counted at 86400 seconds per day, by
    exactly that amount; second and fraction are kept and the result is
    valid up to year 9999. The target must not lie before the Epoch
    Reference, whose year is at least 8. *)
Theorem adjust_one_field (st : State) (t : smart_tm) (kd kh km : Z) :
  tables_ok st = true -> isValid st t = true -> sec t <= 59 ->
  8 <= yr (epoch st) ->
  Z.abs kd < 2 ^ 40 -> Z.abs kh < 2 ^ 40 -> Z.abs km < 2 ^ 40 ->
  (kh = 0 /\ km = 0) \/ (kd = 0 /\ km = 0) \/ (kd = 0 /\ kh = 0) ->
  timeNumber (epoch st) <= timeNumber t + 86400 * kd + 3600 * kh + 60 * km ->
  let r :=
    adjust st
      (mk_tm (yr t) (mon t) (day t + kd) (hr t + kh) (min t + km) (sec t)
         (fracSec t)) in
  timeNumber r = timeNumber t + 86400 * kd + 3600 * kh + 60 * km
  /\ sec r = sec t /\ fracSec r = fracSec t
  /\ (yr r <= 9999 -> isValid st r = true).
Proof.
  intros T. exact (adjust_single_consistent st (tables_ok_consistent st T) t kd kh km).
Qed.

(** One minute before 2012-03-01 00:00:30. *)
Lemma adjust_one_field_witness :
  tables_ok state_1990 = true
  /\ isValid state_1990 (mk_tm 2012 3 1 0 0 30 zero_frac) = true
  /\ sec (mk_tm 2012 3 1 0 0 30 zero_frac) <= 59
  /\ 8 <= yr (epoch state_1990)
  /\ Z.abs 0 < 2 ^ 40 /\ Z.abs 0 < 2 ^ 40 /\ Z.abs (-1) < 2 ^ 40
  /\ ((0 = 0 /\ -1 = 0) \/ (0 = 0 /\ -1 = 0) \/ (0 = 0 /\ 0 = 0))
  /\ timeNumber (epoch state_1990)
     <= timeNumber (mk_tm 2012 3 1 0 0 30 zero_frac)
        + 86400 * 0 + 3600 * 0 + 60 * (-1)
  /\ (let r :=
        adjust state_1990
          (mk_tm (yr (mk_tm 2012 3 1 0 0 30 zero_frac))
             (mon (mk_tm 2012 3 1 0 0 30 zero_frac))
             (day (mk_tm 2012 3 1 0 0 30 zero_frac) + 0)
             (hr (mk_tm 2012 3 1 0 0 30 zero_frac) + 0)
             (min (mk_tm 2012 3 1 0 0 30 zero_frac) + -1)
             (sec (mk_tm 2012 3 1 0 0 30 zero_frac))
             (fracSec (mk_tm 2012 3 1 0 0 30 zero_frac))) in
      timeNumber r
      = timeNumber (mk_tm 2012 3 1 0 0 30 zero_frac)
        + 86400 * 0 + 3600 * 0 + 60 * (-1)
      /\ sec r = sec (mk_tm 2012 3 1 0 0 30 zero_frac)
      /\ fracSec r = fracSec (mk_tm 2012 3 1 0 0 30 zero_frac)
      /\ (yr r <= 9999 -> isValid state_1990 r = true)).
Proof.
  assert (T : tables_ok state_1990 = true) by by_evaluation.
  assert (I : isValid state_1990 (mk_tm 2012 3 1 0 0 30 zero_frac) = true)
    by by_evaluation.
  assert (S : sec (mk_tm 2012 3 1 0 0 30 zero_frac) <= 59) by by_evaluation.
  assert (E : 8 <= yr (epoch state_1990)) by by_evaluation.
  assert (Bd : Z.abs 0 < 2 ^ 40) by by_evaluation.
  assert (Bm : Z.abs (-1) < 2 ^ 40) by by_evaluation.
  assert (O : (0 = 0 /\ -1 = 0) \/ (0 = 0 /\ -1 = 0) \/ (0 = 0 /\ 0 = 0))
    by (right; right; split; reflexivity).
  assert (A : timeNumber (epoch state_1990)
              <= timeNumber (mk_tm 2012 3 1 0 0 30 zero_frac)
                 + 86400 * 0 + 3600 * 0 + 60 * (-1)) by by_evaluation.
  split; [exact T |]. split; [exact I |]. split; [exact S |]. split; [exact E |].
  split; [exact Bd |]. split; [exact Bd |]. split; [exact Bm |]. split; [exact O |].
  split; [exact A |].
  exact (adjust_one_field state_1990 (mk_tm 2012 3 1 0 0 30 zero_frac) 0 0 (-1)
           T I S E Bd Bd Bm O A).
Defined.

Example adjust_one_field_example :
  adjust state_1990 (mk_tm 2012 3 1 0 (0 - 1) 30 zero_frac)
  = mk_tm 2012 2 29 23 59 30 zero_frac.
Proof. vm_compute. reflexivity. Qed.

(** ** The constructors from an epoch offset *)

(** X11. The constructor from an epoch offset gives a valid timestamp,
    as long as its year does not pass 9999. *)
Theorem sinceEpoch_constructor_valid (st : State) (n : Z) :
  tables_ok st = true -> 0 <= n < two52 ->
  yr (smart_tm_sinceEpoch st n) <= 9999 ->
  isValid st (smart_tm_sinceEpoch st n) = true.
Proof.
  intros T. exact (sinceEpoch_isValid st (tables_ok_consistent st T) n).
Qed.

Lemma sinceEpoch_constructor_valid_witness :
  tables_ok state_1990 = true /\ 0 <= 709948809 < two52
  /\ yr (smart_tm_sinceEpoch state_1990 709948809) <= 9999
  /\ isValid state_1990 (smart_tm_sinceEpoch state_1990 709948809) = true.
Proof.
  assert (T : tables_ok state_1990 = true) by by_evaluation.
  assert (B : 0 <= 709948809 < two52) by by_evaluation.
  assert (Y : yr (smart_tm_sinceEpoch state_1990 709948809) <= 9999) by by_evaluation.
  split; [exact T |]. split; [exact B |]. split; [exact Y |].
  exact (sinceEpoch_constructor_valid state_1990 709948809 T B Y).
Defined.

(** X12. The constructor from an epoch offset and a fraction in [0, 1),
    when the Epoch Reference has fraction [+0.0] as [init] leaves it: the
    timestamp has the given offset and a fraction equal ([==]) to the given
    one, and [toEpoch(double&)] returns both. *)
Theorem sinceEpoch_frac_round_trip (st : State) (n : Z) (f : double) :
  tables_ok st = true -> fracSec (epoch st) = START_FRAC_SEC ->
  0 <= n < two52 -> Dleb START_FRAC_SEC f && Dltb f END_FRAC_SEC = true ->
  fst (toEpoch_frac st (smart_tm_sinceEpoch_frac st n f)) = n
  /\ Deqb (snd (toEpoch_frac st (smart_tm_sinceEpoch_frac st n f))) f = true.
Proof.
  intros T E Hn Hf. pose proof (tables_ok_consistent st T) as C.
  destruct (sinceEpoch_frac_normal st C n f Hn E Hf) as (N & Cn & F).
  cbv zeta in N, Cn, F. unfold toEpoch_frac. cbn [fst snd].
  pose proof N as (V & K & S).
  pose proof (numSecondsOfMinute_range st (smart_tm_sinceEpoch_frac st n f)) as R.
  pose proof (normal_minute_nonneg st C _ N ltac:(lia)) as M.
  pose proof (countLe_nonneg (offsets st)
                (minuteOffset st (smart_tm_sinceEpoch_frac st n f))) as P.
  split.
  - rewrite (toEpoch_countAt st C _ V K); [exact Cn | lia |].
    unfold countAt in Cn. rewrite offsetOf_minute in Cn. lia.
  - rewrite F. apply (Dadd_zero_l_limits f Hf).
Qed.

Lemma sinceEpoch_frac_round_trip_witness :
  tables_ok state_1990 = true /\ fracSec (epoch state_1990) = START_FRAC_SEC
  /\ 0 <= 709948809 < two52
  /\ Dleb START_FRAC_SEC two_pow_minus_60 && Dltb two_pow_minus_60 END_FRAC_SEC = true
  /\ (fst (toEpoch_frac state_1990
             (smart_tm_sinceEpoch_frac state_1990 709948809 two_pow_minus_60))
      = 709948809
      /\ Deqb (snd (toEpoch_frac state_1990
                      (smart_tm_sinceEpoch_frac state_1990 709948809
                         two_pow_minus_60)))
           two_pow_minus_60 = true).
Proof.
  assert (T : tables_ok state_1990 = true) by by_evaluation.
  assert (E : fracSec (epoch state_1990) = START_FRAC_SEC) by by_evaluation.
  assert (B : 0 <= 709948809 < two52) by by_evaluation.
  assert (F : Dleb START_FRAC_SEC two_pow_minus_60
              && Dltb two_pow_minus_60 END_FRAC_SEC = true) by by_evaluation.
  split; [exact T |]. split; [exact E |]. split; [exact B |]. split; [exact F |].
  exact (sinceEpoch_frac_round_trip state_1990 709948809 two_pow_minus_60 T E B F).
Defined.

(** ** The order of timestamps *)

(** X13. [operator<] is a strict order on all timestamps, whatever their
    fields and fractions (NaN included): it is transitive, and therefore
    never holds in both directions or between a timestamp and itself. *)
Theorem tm_lt_transitive (a b c : smart_tm) :
  tm_lt a b = true -> tm_lt b c = true ->
  tm_lt a c = true /\ tm_lt c a = false /\ tm_lt a a = false.
Proof.
  intros H1 H2. pose proof (tm_lt_trans a b c H1 H2) as H3.
  split; [exact H3 |]. split; [| apply tm_lt_irrefl].
  destruct (tm_lt c a) eqn:E; [| reflexivity].
  pose proof (tm_lt_trans a c a H3 E) as F. rewrite tm_lt_irrefl in F. discriminate.
Qed.

Lemma tm_lt_transitive_witness :
  tm_lt (mk_tm 2012 6 30 23 59 59 zero_frac) (mk_tm 2012 6 30 23 59 60 zero_frac) = true
  /\ tm_lt (mk_tm 2012 6 30 23 59 60 zero_frac)
       (mk_tm 2012 6 30 23 59 60 two_pow_minus_60) = true
  /\ (tm_lt (mk_tm 2012 6 30 23 59 59 zero_frac)
        (mk_tm 2012 6 30 23 59 60 two_pow_minus_60) = true
      /\ tm_lt (mk_tm 2012 6 30 23 59 60 two_pow_minus_60)
           (mk_tm 2012 6 30 23 59 59 zero_frac) = false
      /\ tm_lt (mk_tm 2012 6 30 23 59 59 zero_frac)
           (mk_tm 2012 6 30 23 59 59 zero_frac) = false).
Proof.
  assert (A : tm_lt (mk_tm 2012 6 30 23 59 59 zero_frac)
                (mk_tm 2012 6 30 23 59 60 zero_frac) = true) by by_evaluation.
  assert (B : tm_lt (mk_tm 2012 6 30 23 59 60 zero_frac)
                (mk_tm 2012 6 30 23 59 60 two_pow_minus_60) = true) by by_evaluation.
  split; [exact A |]. split; [exact B |].
  exact (tm_lt_transitive _ _ _ A B).
Defined.

(** X14. For two timestamps whose fractions are not NaN exactly one of
    [a < b], [a.equalsWithFrac(b)] and [b < a] holds. *)
Theorem tm_lt_trichotomy (a b : smart_tm) :
  is_nan (fracSec a) = false -> is_nan (fracSec b) = false ->
  (tm_lt a b = true /\ equalsWithFrac a b = false /\ tm_lt b a = false)
  \/ (tm_lt a b = false /\ equalsWithFrac a b = true /\ tm_lt b a = false)
  \/ (tm_lt a b = false /\ equalsWithFrac a b = false /\ tm_lt b a = true).
Proof. exact (tm_trichotomy a b). Qed.

(** [+0.0] and [-0.0] are equal fractions. *)
Lemma tm_lt_trichotomy_witness :
  is_nan (fracSec (mk_tm 2012 1 1 0 0 0 (S754_zero false))) = false
  /\ is_nan (fracSec (mk_tm 2012 1 1 0 0 0 (S754_zero true))) = false
  /\ ((tm_lt (mk_tm 2012 1 1 0 0 0 (S754_zero false))
         (mk_tm 2012 1 1 0 0 0 (S754_zero true)) = true
       /\ equalsWithFrac (mk_tm 2012 1 1 0 0 0 (S754_zero false))
            (mk_tm 2012 1 1 0 0 0 (S754_zero true)) = false
       /\ tm_lt (mk_tm 2012 1 1 0 0 0 (S754_zero true))
            (mk_tm 2012 1 1 0 0 0 (S754_zero false)) = false)
      \/ (tm_lt (mk_tm 2012 1 1 0 0 0 (S754_zero false))
            (mk_tm 2012 1 1 0 0 0 (S754_zero true)) = false
          /\ equalsWithFrac (mk_tm 2012 1 1 0 0 0 (S754_zero false))
               (mk_tm 2012 1 1 0 0 0 (S754_zero true)) = true
          /\ tm_lt (mk_tm 2012 1 1 0 0 0 (S754_zero true))
               (mk_tm 2012 1 1 0 0 0 (S754_zero false)) = false)
      \/ (tm_lt (mk_tm 2012 1 1 0 0 0 (S754_zero false))
            (mk_tm 2012 1 1 0 0 0 (S754_zero true)) = false
          /\ equalsWithFrac (mk_tm 2012 1 1 0 0 0 (S754_zero false))
               (mk_tm 2012 1 1 0 0 0 (S754_zero true)) = false
          /\ tm_lt (mk_tm 2012 1 1 0 0 0 (S754_zero true))
               (mk_tm 2012 1 1 0 0 0 (S754_zero false)) = true)).
Proof.
  assert (A : is_nan (fracSec (mk_tm 2012 1 1 0 0 0 (S754_zero false))) = false)
    by by_evaluation.
  assert (B : is_nan (fracSec (mk_tm 2012 1 1 0 0 0 (S754_zero true))) = false)
    by by_evaluation.
  split; [exact A |]. split; [exact B |].
  exact (tm_lt_trichotomy _ _ A B).
Defined.

(** X15. A NaN fraction makes two timestamps with the same six integer
    fields incomparable: neither is less or greater, they are not equal,
    and yet [<=] and [>=] both hold. *)
Theorem tm_nan_fraction (a b : smart_tm) :
  equalsNoFrac a b = true -> is_nan (fracSec a) = true ->
  tm_lt a b = false /\ tm_gt a b = false /\ equalsWithFrac a b = false
  /\ tm_le a b = true /\ tm_ge a b = true.
Proof. exact (tm_nan_incomparable a b). Qed.

Lemma tm_nan_fraction_witness :
  equalsNoFrac (mk_tm 2012 1 1 0 0 0 S754_nan) (mk_tm 2012 1 1 0 0 0 zero_frac) = true
  /\ is_nan (fracSec (mk_tm 2012 1 1 0 0 0 S754_nan)) = true
  /\ (tm_lt (mk_tm 2012 1 1 0 0 0 S754_nan) (mk_tm 2012 1 1 0 0 0 zero_frac) = false
      /\ tm_gt (mk_tm 2012 1 1 0 0 0 S754_nan) (mk_tm 2012 1 1 0 0 0 zero_frac) = false
      /\ equalsWithFrac (mk_tm 2012 1 1 0 0 0 S754_nan)
           (mk_tm 2012 1 1 0 0 0 zero_frac) = false
      /\ tm_le (mk_tm 2012 1 1 0 0 0 S754_nan) (mk_tm 2012 1 1 0 0 0 zero_frac) = true
      /\ tm_ge (mk_tm 2012 1 1 0 0 0 S754_nan) (mk_tm 2012 1 1 0 0 0 zero_frac) = true).
Proof.
  assert (A : equalsNoFrac (mk_tm 2012 1 1 0 0 0 S754_nan)
                (mk_tm 2012 1 1 0 0 0 zero_frac) = true) by by_evaluation.
  assert (B : is_nan (fracSec (mk_tm 2012 1 1 0 0 0 S754_nan)) = true) by by_evaluation.
  split; [exact A |]. split; [exact B |].
  exact (tm_nan_fraction _ _ A B).
Defined.

(** X16. [toEpoch] is strictly monotone: for valid timestamps it orders
    the epoch offsets exactly as [operator<] orders the six integer fields
    (the comparison made by [leapSecondsWalkedThroughSinceEpoch]), leap
    seconds included. *)
Theorem toEpoch_strictly_monotone (st : State) (a b : smart_tm) :
  tables_ok st = true -> isValid st a = true -> isValid st b = true ->
  (toEpoch st a <? toEpoch st b) = tm_lt a b && negb (equalsNoFrac a b).
Proof.
  intros T. exact (toEpoch_order_consistent st (tables_ok_consistent st T) a b).
Qed.

(** The leap second 2012-06-30 23:59:60 and the second after it. *)
Lemma toEpoch_strictly_monotone_witness :
  tables_ok state_1990 = true
  /\ isValid state_1990 (mk_tm 2012 6 30 23 59 60 zero_frac) = true
  /\ isValid state_1990 (mk_tm 2012 7 1 0 0 0 zero_frac) = true
  /\ (toEpoch state_1990 (mk_tm 2012 6 30 23 59 60 zero_frac)
      <? toEpoch state_1990 (mk_tm 2012 7 1 0 0 0 zero_frac))
     = tm_lt (mk_tm 2012 6 30 23 59 60 zero_frac) (mk_tm 2012 7 1 0 0 0 zero_frac)
       && negb (equalsNoFrac (mk_tm 2012 6 30 23 59 60 zero_frac)
                  (mk_tm 2012 7 1 0 0 0 zero_frac)).
Proof.
  assert (T : tables_ok state_1990 = true) by by_evaluation.
  assert (A : isValid state_1990 (mk_tm 2012 6 30 23 59 60 zero_frac) = true)
    by by_evaluation.
  assert (B : isValid state_1990 (mk_tm 2012 7 1 0 0 0 zero_frac) = true)
    by by_evaluation.
  split; [exact T |]. split; [exact A |]. split; [exact B |].
  exact (toEpoch_strictly_monotone state_1990 _ _ T A B).
Defined.

(** X17. For a timestamp before the Epoch Reference (date and clock in
    range, second at most 59) [toEpoch] wraps around: it returns [2^64]
    minus the distance in seconds. *)
Theorem toEpoch_before_epoch (st : State) (t : smart_tm) :
  tables_ok st = true -> validDateb t && validClockb t = true ->
  0 <= sec t <= 59 -> yr (epoch st) <= 9999 ->
  timeNumber t < timeNumber (epoch st) ->
  toEpoch st t = two64 - (timeNumber (epoch st) - timeNumber t).
Proof.
  intros T V. apply andb_true_iff in V. destruct V as [V K].
  exact (toEpoch_before_epoch_consistent st (tables_ok_consistent st T) t
           (validDateb_spec t V) (validClockb_spec t K)).
Qed.

(** One second before the Epoch Reference of a first initialisation with
    epoch year 1990. *)
Lemma toEpoch_before_epoch_witness :
  tables_ok state_1990 = true
  /\ validDateb (mk_tm 1989 12 31 23 59 59 zero_frac)
     && validClockb (mk_tm 1989 12 31 23 59 59 zero_frac) = true
  /\ 0 <= sec (mk_tm 1989 12 31 23 59 59 zero_frac) <= 59
  /\ yr (epoch state_1990) <= 9999
  /\ timeNumber (mk_tm 1989 12 31 23 59 59 zero_frac) < timeNumber (epoch state_1990)
  /\ toEpoch state_1990 (mk_tm 1989 12 31 23 59 59 zero_frac)
     = two64 - (timeNumber (epoch state_1990)
                - timeNumber (mk_tm 1989 12 31 23 59 59 zero_frac)).
Proof.
  assert (T : tables_ok state_1990 = true) by by_evaluation.
  assert (V : validDateb (mk_tm 1989 12 31 23 59 59 zero_frac)
              && validClockb (mk_tm 1989 12 31 23 59 59 zero_frac) = true)
    by by_evaluation.
  assert (S : 0 <= sec (mk_tm 1989 12 31 23 59 59 zero_frac) <= 59) by by_evaluation.
  assert (Y : yr (epoch state_1990) <= 9999) by by_evaluation.
  assert (L : timeNumber (mk_tm 1989 12 31 23 59 59 zero_frac)
              < timeNumber (epoch state_1990)) by by_evaluation.
  split; [exact T |]. split; [exact V |]. split; [exact S |]. split; [exact Y |].
  split; [exact L |].
  exact (toEpoch_before_epoch state_1990 _ T V S Y L).
Defined.

Example toEpoch_before_epoch_example :
  toEpoch state_1990 (mk_tm 1989 12 31 23 59 59 zero_frac) = 18446744073709551615.
Proof. vm_compute. reflexivity. Qed.

(** ** Seconds between epochs, leap days, leap seconds *)

(** X18. [numSecondsBetweenEpochs] is the number of seconds, at 86400 per
    day, from the first of January of the start year to the first of
    January of the end year, leap days included; when the end year is the
    earlier one the unsigned result wraps around to [2^64] minus that
    number. *)
Theorem numSecondsBetweenEpochs_days (s e : Z) :
  1 <= s < 2 ^ 32 -> 1 <= e < 2 ^ 32 ->
  (s <= e ->
   numSecondsBetweenEpochs s e
   = timeNumber (january_first e) - timeNumber (january_first s))
  /\ (e < s ->
      numSecondsBetweenEpochs s e
      = two64 - (timeNumber (january_first s) - timeNumber (january_first e))).
Proof.
  intros Hs He.
  rewrite (numSecondsBetweenEpochs_wrap s e) by (unfold two63; lia).
  rewrite !timeNumber_january_first.
  pose proof (leapCount_nonneg (s - 1) ltac:(lia)) as Ps.
  pose proof (leapCount_nonneg (e - 1) ltac:(lia)) as Pe.
  assert (Q : forall y, 1 <= y < 2 ^ 32 -> leapCount (y - 1) <= y).
  { intros y Hy. unfold leapCount. rewrite !Z.quot_div_nonneg by lia.
    Z.div_mod_to_equations. lia. }
  pose proof (Q s Hs) as Qs. pose proof (Q e He) as Qe.
  split; intros L.
  - pose proof (leapCount_mono (s - 1) (e - 1) ltac:(lia)) as Mo.
    apply wrap64_small. unfold two64. lia.
  - pose proof (leapCount_mono (e - 1) (s - 1) ltac:(lia)) as Mo.
    rewrite wrap64_negative; unfold two64; lia.
Qed.

(** From 1900 to 1990, and from 1900 back to 1899. *)
Lemma numSecondsBetweenEpochs_days_witness :
  1 <= 1900 < 2 ^ 32 /\ 1 <= 1990 < 2 ^ 32
  /\ ((1900 <= 1990 ->
       numSecondsBetweenEpochs 1900 1990
       = timeNumber (january_first 1990) - timeNumber (january_first 1900))
      /\ (1990 < 1900 ->
          numSecondsBetweenEpochs 1900 1990
          = two64 - (timeNumber (january_first 1900)
                     - timeNumber (january_first 1990)))).
Proof.
  assert (A : 1 <= 1900 < 2 ^ 32) by by_evaluation.
  assert (B : 1 <= 1990 < 2 ^ 32) by by_evaluation.
  split; [exact A |]. split; [exact B |].
  exact (numSecondsBetweenEpochs_days 1900 1990 A B).
Defined.

Example numSecondsBetweenEpochs_examples :
  numSecondsBetweenEpochs 1900 1990 = 2840140800
  /\ numSecondsBetweenEpochs 1900 1899 = 18446744073678015616.
Proof. split; vm_compute; reflexivity. Qed.

(** X19. [leapDaysWalkedThroughFrom] on timestamps is exactly the number
    of leap days between two dates that exist: the days from one to the
    other are the days in a calendar without leap days plus that count
    (negative when the second date is the earlier one). *)
Theorem leapDaysWalkedThroughFrom_exact (a b : smart_tm) :
  validDateb a = true -> validDateb b = true ->
  dayNumber b - dayNumber a
  = plainDayNumber b - plainDayNumber a + leapDaysWalkedThroughFrom a b.
Proof.
  intros Va Vb. exact (days_between a b (validDateb_spec a Va) (validDateb_spec b Vb)).
Qed.

(** From 28 February 2012 to 1 March 2012 the leap day is walked
    through: two days, one of them in the calendar without leap days. *)
Lemma leapDaysWalkedThroughFrom_exact_witness :
  validDateb (mk_tm 2012 2 28 0 0 0 zero_frac) = true
  /\ validDateb (mk_tm 2012 3 1 0 0 0 zero_frac) = true
  /\ dayNumber (mk_tm 2012 3 1 0 0 0 zero_frac)
     - dayNumber (mk_tm 2012 2 28 0 0 0 zero_frac)
     = plainDayNumber (mk_tm 2012 3 1 0 0 0 zero_frac)
       - plainDayNumber (mk_tm 2012 2 28 0 0 0 zero_frac)
       + leapDaysWalkedThroughFrom (mk_tm 2012 2 28 0 0 0 zero_frac)
           (mk_tm 2012 3 1 0 0 0 zero_frac).
Proof.
  assert (A : validDateb (mk_tm 2012 2 28 0 0 0 zero_frac) = true) by by_evaluation.
  assert (B : validDateb (mk_tm 2012 3 1 0 0 0 zero_frac) = true) by by_evaluation.
  split; [exact A |]. split; [exact B |].
  exact (leapDaysWalkedThroughFrom_exact _ _ A B).
Defined.

Example leapDaysWalkedThroughFrom_examples :
  leapDaysWalkedThroughFrom (mk_tm 2012 2 28 0 0 0 zero_frac)
    (mk_tm 2012 3 1 0 0 0 zero_frac) = 1
  /\ leapDaysWalkedThroughFrom (mk_tm 2012 2 29 0 0 0 zero_frac)
       (mk_tm 2012 3 1 0 0 0 zero_frac) = 1
  /\ leapDaysWalkedThroughFrom (mk_tm 2012 3 1 0 0 0 zero_frac)
       (mk_tm 2012 1 1 0 0 0 zero_frac) = -1.
Proof. repeat split; vm_compute; reflexivity. Qed.

(** X20. [leapSecondsWalkedThroughFrom] changes sign when its two
    arguments, if different, are exchanged, and its size never exceeds the
    number of entries of the delta table. *)
Theorem leapSecondsWalkedThroughFrom_antisymmetric (deltas : list Z) (a b : Z) :
  a <> b ->
  leapSecondsWalkedThroughFrom deltas b a = - leapSecondsWalkedThroughFrom deltas a b
  /\ Z.abs (leapSecondsWalkedThroughFrom deltas a b) <= Z.of_nat (List.length deltas).
Proof.
  intros N. split; [apply leapSecondsWalkedThroughFrom_antisym, N |].
  destruct (Z.lt_ge_cases a b) as [L | G].
  - rewrite (leapSecondsWalkedThroughFrom_forward deltas a b L).
    pose proof (entriesBetween_bounds deltas a b). lia.
  - rewrite (leapSecondsWalkedThroughFrom_backward deltas a b) by lia.
    pose proof (entriesBetween_bounds deltas b a). lia.
Qed.

Lemma leapSecondsWalkedThroughFrom_antisymmetric_witness :
  0 <> 709948800
  /\ (leapSecondsWalkedThroughFrom (leapSecondDeltas state_1990) 709948800 0
      = - leapSecondsWalkedThroughFrom (leapSecondDeltas state_1990) 0 709948800
      /\ Z.abs (leapSecondsWalkedThroughFrom (leapSecondDeltas state_1990) 0 709948800)
         <= Z.of_nat (List.length (leapSecondDeltas state_1990))).
Proof.
  assert (N : 0 <> 709948800) by discriminate.
  split; [exact N |].
  exact (leapSecondsWalkedThroughFrom_antisymmetric (leapSecondDeltas state_1990)
           0 709948800 N).
Defined.

(** ** [init] *)

(** X21. A call of [init] that opens its file, from any prior state: the
    system is initialized, the Epoch Reference gets the new year and keeps
    its other fields, nothing is written to [std::cerr], the previous
    tables are discarded, the delta table is built from the values of the
    file after the new epoch (each its distance from the new epoch plus
    the number of values kept before it), and the two tables have the same
    number of entries. *)
Theorem init_success (epochYr : Z) (leapFile : string) (file : list string)
    (st : State) :
  let st' := init epochYr leapFile (Some file) st in
  let d := numSecondsBetweenEpochs DEFAULT_EPOCH_YEAR (wrap64 epochYr) in
  initialized st' = true
  /\ epoch st' = set_yr (epoch st) epochYr
  /\ cerr st' = cerr st
  /\ leapSecondDeltas st' = init_deltas d 0 (leap_values d file)
  /\ List.length (leapSecondTMs st') = List.length (leapSecondDeltas st').
Proof. exact (init_success_tables epochYr leapFile file st). Qed.

(** X22. With an epoch year before 1900 [init] records no leap second at
    all, whatever the file holds (values below [2^63]): the distance from
    1900 to the earlier year wraps around to a value above every entry. *)
Theorem init_before_1900 (epochYr : Z) (leapFile : string) (file : list string)
    (st : State) :
  1 <= epochYr < 1900 ->
  forallb (fun line => line_value line <? two63) (getLines file) = true ->
  leapSecondDeltas (init epochYr leapFile (Some file) st) = []
  /\ leapSecondTMs (init epochYr leapFile (Some file) st) = [].
Proof.
  intros Y B. apply (init_before_1900_tables epochYr leapFile file st Y).
  intros line Hl. rewrite forallb_forall in B. apply Z.ltb_lt, B, Hl.
Qed.

Lemma init_before_1900_witness :
  1 <= 1899 < 1900
  /\ forallb (fun line => line_value line <? two63) (getLines leap_seconds_list) = true
  /\ (leapSecondDeltas (init 1899 EmptyString (Some leap_seconds_list) initial_State) = []
      /\ leapSecondTMs (init 1899 EmptyString (Some leap_seconds_list) initial_State) = []).
Proof.
  assert (Y : 1 <= 1899 < 1900) by by_evaluation.
  assert (B : forallb (fun line => line_value line <? two63)
                (getLines leap_seconds_list) = true) by by_evaluation.
  split; [exact Y |]. split; [exact B |].
  exact (init_before_1900 1899 EmptyString leap_seconds_list initial_State Y B).
Defined.

(** X23. After a first [init] with the official leap-second list and any
    epoch year from 1900 to 2100 both round trips hold: every epoch offset
    below [2^52] comes back from the timestamp built from it, and every
    valid timestamp comes back, in its six integer fields, from its epoch
    offset. *)
Theorem first_init_round_trips (epochYr : Z) (leapFile : string) :
  1900 <= epochYr <= 2100 ->
  let st := init epochYr leapFile (Some leap_seconds_list) initial_State in
  (forall n, 0 <= n < two52 -> toEpoch st (smart_tm_sinceEpoch st n) = n)
  /\ (forall t, isValid st t = true ->
      equalsNoFrac (smart_tm_sinceEpoch st (toEpoch st t)) t = true).
Proof.
  intros Y. cbv zeta.
  pose proof (tables_ok_consistent _ (first_init_tables_ok epochYr leapFile Y)) as C.
  split.
  - intros n. apply (toEpoch_sinceEpoch_consistent _ C).
  - intros t. apply (sinceEpoch_toEpoch_consistent _ C).
Qed.

Lemma first_init_round_trips_witness :
  1900 <= 2008 <= 2100
  /\ (let st := init 2008 EmptyString (Some leap_seconds_list) initial_State in
      (forall n, 0 <= n < two52 -> toEpoch st (smart_tm_sinceEpoch st n) = n)
      /\ (forall t, isValid st t = true ->
          equalsNoFrac (smart_tm_sinceEpoch st (toEpoch st t)) t = true)).
Proof.
  assert (Y : 1900 <= 2008 <= 2100) by by_evaluation.
  split; [exact Y |].
  exact (first_init_round_trips 2008 EmptyString Y).
Defined.

(** ** [FileIO.cpp] *)

(** X24. [safeGetline] returns the characters before the first line
    ending, whichever of LF, CR LF and CR it is, takes the ending out of
    the stream and leaves [eofbit] as it was; a last line without an
    ending is returned as well, and [eofbit] is set only when no character
    was left. *)
Theorem safeGetline_line_endings (l : string) (e : line_ending) (rest : string)
    (b : bool) :
  no_eol l = true ->
  safeGetline (mk_istream (l ++ ending_string e ++ rest) b)
  = (mk_istream (after_ending e rest) b, l)
  /\ safeGetline (mk_istream l b)
     = (mk_istream EmptyString
          (b || match l with EmptyString => true | _ => false end), l).
Proof.
  intros H. split; [apply safeGetline_line, H | apply safeGetline_last, H].
Qed.

Lemma safeGetline_line_endings_witness :
  no_eol "3550089600 # 1 Jul 2012" = true
  /\ (safeGetline (mk_istream ("3550089600 # 1 Jul 2012" ++ ending_string Dos_ending
                               ++ "3644697600") false)
      = (mk_istream (after_ending Dos_ending "3644697600") false,
         "3550089600 # 1 Jul 2012"%string)
      /\ safeGetline (mk_istream "3550089600 # 1 Jul 2012" false)
         = (mk_istream EmptyString
              (false || match "3550089600 # 1 Jul 2012"%string with
                        | EmptyString => true | _ => false end),
            "3550089600 # 1 Jul 2012"%string)).
Proof.
  assert (H : no_eol "3550089600 # 1 Jul 2012" = true) by by_evaluation.
  split; [exact H |].
  exact (safeGetline_line_endings "3550089600 # 1 Jul 2012" Dos_ending
           "3644697600" false H).
Defined.

(** X25. When [getNextLine] returns [true] the line is neither empty nor
    a comment, [eofbit] is clear and at least one character was taken
    from the stream; when it returns [false] the line is empty and
    [eofbit] is set. *)
Theorem getNextLine_contract (strm : istream) :
  let '(strm', line, ok) := getNextLine strm in
  if ok then
    skipped_line line = false /\ eofbit strm' = false
    /\ (String.length (rdbuf strm') < String.length (rdbuf strm))%nat
  else line = EmptyString /\ eofbit strm' = true.
Proof.
  destruct (getNextLine strm) as [[strm' line] ok] eqn:E.
  unfold getNextLine in E. destruct ok.
  - exact (getNextLine_loop_success _ _ _ _ E).
  - apply (getNextLine_loop_failure _ _ _ _ (Nat.lt_succ_diag_r _) E).
Qed.

(** X26. Reading a text line by line with [getNextLine] until it returns
    [false] gives the lines of the text that are neither empty nor
    comments, in order, whatever mix of LF, CR LF and CR ends them and
    whether or not the last line has an ending. *)
Theorem read_lines_any_endings (lines : list (string * line_ending))
    (last : string) :
  forallb (fun le => no_eol (fst le)) lines = true -> no_eol last = true ->
  read_lines (open_stream (text_of lines last))
  = getLines (map fst lines ++ [last]).
Proof. exact (read_lines_text lines last). Qed.

Lemma read_lines_any_endings_witness :
  let lines := [("# leap seconds"%string, Dos_ending);
                ("3550089600 # 1 Jul 2012"%string, Mac_ending);
                (EmptyString, Unix_ending);
                ("3644697600 # 1 Jul 2015"%string, Unix_ending)] in
  let last := "3692217600 # 1 Jan 2017"%string in
  forallb (fun le => no_eol (fst le)) lines = true
  /\ no_eol last = true
  /\ read_lines (open_stream (text_of lines last))
     = getLines (map fst lines ++ [last]).
Proof.
  cbv zeta.
  assert (H : forallb (fun le => no_eol (fst le))
                [("# leap seconds"%string, Dos_ending);
                 ("3550089600 # 1 Jul 2012"%string, Mac_ending);
                 (EmptyString, Unix_ending);
                 ("3644697600 # 1 Jul 2015"%string, Unix_ending)] = true)
    by by_evaluation.
  assert (L : no_eol "3692217600 # 1 Jan 2017" = true) by by_evaluation.
  split; [exact H |]. split; [exact L |].
  exact (read_lines_any_endings _ _ H L).
Defined.

(** The three lines with a value, read from a text with mixed endings. *)
Example read_lines_example :
  read_lines (open_stream
    (text_of [("# leap seconds"%string, Dos_ending);
              ("3550089600 # 1 Jul 2012"%string, Mac_ending);
              (EmptyString, Unix_ending);
              ("3644697600 # 1 Jul 2015"%string, Unix_ending)]
       "3692217600 # 1 Jan 2017"))
  = ["3550089600 # 1 Jul 2012"%string; "3644697600 # 1 Jul 2015"%string;
     "3692217600 # 1 Jan 2017"%string].
Proof. vm_compute. reflexivity. Qed.

(** ** [operator-] *)

Lemma fracSecInLimits_not_special (t : smart_tm) :
  fracSecInLimits t = true ->
  match fracSec t with S754_zero _ | S754_finite _ _ _ => True | _ => False end.
Proof.
  unfold fracSecInLimits, Dleb, Dltb, SFleb, SFltb, START_FRAC_SEC.
  destruct (fracSec t) as [s | s | | s m e]; try exact (fun _ => I).
  - destruct s; cbn [SFcompare]; intros H; discriminate.
  - cbn [SFcompare]. intros H; discriminate.
Qed.

(** A fraction minus itself is [+0.0]. *)
Lemma Dsub_same (f : double) :
  match f with S754_zero _ | S754_finite _ _ _ => True | _ => False end ->
  Dsub f f = S754_zero false.
Proof.
  destruct f as [s | s | | s m e]; intros H; try contradiction.
  - destruct s; reflexivity.
  - unfold Dsub, SFsub. cbv zeta. rewrite Z.sub_diag. reflexivity.
Qed.

Lemma Dadd_Z2D_zero (n : Z) :
  Z.abs n < two53 -> Dadd (Z2D n) (S754_zero false) = Z2D n.
Proof.
  intros B. destruct n as [| p | p].
  - reflexivity.
  - rewrite Z2D_pos by (unfold two53 in *; lia). reflexivity.
  - rewrite Z2D_neg by (unfold two53 in *; lia). reflexivity.
Qed.

Lemma tm_minus_same_frac (st : State) (a b : smart_tm) :
  fracSec a = fracSec b -> fracSecInLimits a = true ->
  Z.abs (toEpoch st a - toEpoch st b) < two53 ->
  tm_minus st a b = Z2D (toEpoch st a - toEpoch st b).
Proof.
  intros E F B. unfold tm_minus, toEpoch_frac.
  rewrite to_signed64_small by (unfold two53, two63 in *; lia).
  rewrite <- E, (Dsub_same _ (fracSecInLimits_not_special a F)).
  apply Dadd_Z2D_zero, B.
Qed.

(** Across the leap second of 30 June 2012 one calendar second is two
    seconds. *)
Example tm_minus_leap_second :
  tm_minus state_2008 (mk_tm 2012 7 1 0 0 0 zero_frac)
    (mk_tm 2012 6 30 23 59 59 zero_frac) = Z2D 2.
Proof. vm_compute. reflexivity. Qed.

(** X27. Adding [k] seconds to a valid timestamp with [adjust] and
    subtracting the timestamp from the result gives exactly [k], under
    the conditions of the addition: the target not before the Epoch
    Reference in uniform seconds, and an epoch year of at least 8 when
    going backwards. *)
Theorem adjust_then_minus (st : State) (t : smart_tm) (k : Z) :
  tables_ok st = true -> isValid st t = true -> Z.abs k < 2 ^ 50 ->
  leapSecondsWalkedThroughSinceEpoch st t <= toEpoch st t + k ->
  (k < 0 -> 8 <= yr (epoch st)) ->
  tm_minus st (adjust st (set_sec t (sec t + k))) t = Z2D k.
Proof.
  intros T I Bk Hk E8. pose proof (tables_ok_consistent st T) as C.
  destruct (adjust_seconds_consistent st C t k I Bk Hk E8) as (Er & Fr & _).
  cbv zeta in Er, Fr.
  assert (F : fracSecInLimits (adjust st (set_sec t (sec t + k))) = true)
    by (rewrite (fracSecInLimits_ext _ t) by exact Fr; apply (isValid_fracSec st t I)).
  rewrite (tm_minus_same_frac st _ t Fr F); rewrite Er.
  - f_equal. lia.
  - unfold two53. lia.
Qed.

(** Going back 86400 seconds from noon of 1 July 2012 passes the leap
    second of 30 June. *)
Lemma adjust_then_minus_witness :
  tables_ok state_2008 = true
  /\ isValid state_2008 (mk_tm 2012 7 1 12 0 0 zero_frac) = true
  /\ Z.abs (-86400) < 2 ^ 50
  /\ leapSecondsWalkedThroughSinceEpoch state_2008 (mk_tm 2012 7 1 12 0 0 zero_frac)
     <= toEpoch state_2008 (mk_tm 2012 7 1 12 0 0 zero_frac) + -86400
  /\ (-86400 < 0 -> 8 <= yr (epoch state_2008))
  /\ tm_minus state_2008
       (adjust state_2008
          (set_sec (mk_tm 2012 7 1 12 0 0 zero_frac)
             (sec (mk_tm 2012 7 1 12 0 0 zero_frac) + -86400)))
       (mk_tm 2012 7 1 12 0 0 zero_frac)
     = Z2D (-86400).
Proof.
  assert (T : tables_ok state_2008 = true) by by_evaluation.
  assert (I : isValid state_2008 (mk_tm 2012 7 1 12 0 0 zero_frac) = true)
    by by_evaluation.
  assert (Bk : Z.abs (-86400) < 2 ^ 50) by by_evaluation.
  assert (Hk : leapSecondsWalkedThroughSinceEpoch state_2008
                 (mk_tm 2012 7 1 12 0 0 zero_frac)
               <= toEpoch state_2008 (mk_tm 2012 7 1 12 0 0 zero_frac) + -86400)
    by (vm_compute; discriminate).
  assert (E8 : -86400 < 0 -> 8 <= yr (epoch state_2008))
    by (intros _; vm_compute; discriminate).
  split; [exact T |]. split; [exact I |]. split; [exact Bk |].
  split; [exact Hk |]. split; [exact E8 |].
  exact (adjust_then_minus state_2008 _ (-86400) T I Bk Hk E8).
Defined.

Example adjust_back_one_day :
  adjust state_2008 (set_sec (mk_tm 2012 7 1 12 0 0 zero_frac) (0 + -86400))
  = mk_tm 2012 6 30 12 0 1 zero_frac.
Proof. vm_compute. reflexivity. Qed.
